(** * drawing-review: the masking core

    A shallow embedding of the rectangle editor ([CanvasEditor.tsx]), of the
    project state and its handlers ([App.tsx]) and of the page naming of
    [WelcomeScreen.tsx], with the properties of the design document stated
    and settled against them.

    Conventions of the embedding.
    - A JavaScript [number] holding a coordinate is an exact rational [Q]
      (the design document calls them real numbers), and equality of
      coordinates is [Qeq], written [==]; [NaN] and the infinities are
      not modelled there.  Where a property depends on the rounding of
      binary64 arithmetic, the computation is embedded a second time over
      binary64 numbers, in [Binary64].
    - React state is passed explicitly: a handler is a function from the
      state it closes over to the state after the updates it queued.
    - Values the handlers read from the platform ([Date.now()],
      [Math.random()], the result of decoding an image, of encoding a
      canvas) are arguments or fields of an environment record. *)

From Stdlib Require Import QArith Qabs Qminmax Qround Lqa ZArith Lia SpecFloat.
From Stdlib Require Import String Ascii List Permutation.
From stdpp Require Import base decidable option list strings pretty gmap fin_maps.

Import ListNotations.
Local Open Scope Q_scope.

(** ** Numbers *)

(** [a < b] on numbers, as a test. *)
Definition Qltb (a b : Q) : bool := negb (Qle_bool b a).

(** ** [types.ts] *)

Inductive MaskType := manual | ai.

Record MaskRect := mkMaskRect {
  mask_id : string;
  mask_x : Q;            (* Normalized 0-1 *)
  mask_y : Q;
  mask_w : Q;
  mask_h : Q;
  mask_type : MaskType;
  mask_label : option string
}.

(** [Partial<MaskRect>], restricted to the fields the editor ever sets on
    the rectangle being drawn. *)
Record PartialRect := mkPartial {
  part_x : option Q;
  part_y : option Q;
  part_w : option Q;
  part_h : option Q
}.

Inductive ToolMode := PAN | DRAW.

Inductive FileType := image_file | model3d_file | table_file.

Record AiDetectionResult := mkDetection {
  box_0 : Q;   (* ymin *)
  box_1 : Q;   (* xmin *)
  box_2 : Q;   (* ymax *)
  box_3 : Q;   (* xmax *)
  det_label : string
}.

Global Instance MaskType_eq_dec : EqDecision MaskType.
Proof. solve_decision. Defined.
Global Instance ToolMode_eq_dec : EqDecision ToolMode.
Proof. solve_decision. Defined.
Global Instance FileType_eq_dec : EqDecision FileType.
Proof. solve_decision. Defined.

(** ** The platform: images, the 2D canvas, encoders

    Not code of the repository.  A raster is a function from pixel
    coordinates to colours; pixel [(i, j)] is the unit square
    [[i, i+1] x [j, j+1]] of canvas space. *)

Record Color := rgba { red : Z; green : Z; blue : Z; alpha : Z }.

(** ['#000000'] as a fill style: black, fully opaque. *)
Definition black : Color := rgba 0 0 0 255.
(** A canvas starts out transparent black. *)
Definition transparent : Color := rgba 0 0 0 0.

Record Image := mkImage {
  naturalWidth : Z;
  naturalHeight : Z;
  image_px : Z -> Z -> Color
}.

Record Canvas := mkCanvas {
  canvas_width : Z;
  canvas_height : Z;
  canvas_px : Z -> Z -> Color
}.

Definition Blob := list Byte.byte.

(** What the archive folder holds under a name: a text or a blob stored by
    [folder.file(name, data)], or a directory. *)
Inductive ZipData :=
  | ZipText (s : string)
  | ZipBlob (b : Blob)
  | ZipDir.

(** A settled promise. *)
Inductive Settled (A : Type) :=
  | Resolved (a : A)
  | Rejected (reason : string).
Arguments Resolved {A} a.
Arguments Rejected {A} reason.

Definition in_bounds (width height i j : Z) : bool :=
  (0 <=? i)%Z && (i <? width)%Z && (0 <=? j)%Z && (j <? height)%Z.

(** [document.createElement('canvas')] followed by the two assignments to
    [width] and [height]. *)
Definition createCanvas (width height : Z) : Canvas :=
  mkCanvas width height (fun _ _ => transparent).

(** [ctx.drawImage(img, 0, 0)] on a canvas that is still clear: inside the
    image the pixel of the image shows. *)
Definition drawImage (img : Image) (c : Canvas) : Canvas :=
  mkCanvas (canvas_width c) (canvas_height c)
    (fun i j =>
       if in_bounds (canvas_width c) (canvas_height c) i j
          && in_bounds (naturalWidth img) (naturalHeight img) i j
       then image_px img i j
       else canvas_px c i j).

(** Length of the part of the unit interval [[i, i+1]] that lies between
    [lo] and [hi]. *)
Definition overlap (lo hi : Q) (i : Z) : Q :=
  Qmax 0 (Qmin hi (inject_Z (i + 1)) - Qmax lo (inject_Z i)).

(** Fraction of pixel [(i, j)] covered by the rectangle [(x, y, w, h)].
    A negative extent makes the rectangle grow to the left (upwards), as
    [fillRect] does; a zero extent covers nothing. *)
Definition coverage (x y w h : Q) (i j : Z) : Q :=
  overlap (Qmin x (x + w)) (Qmax x (x + w)) i
  * overlap (Qmin y (y + h)) (Qmax y (y + h)) j.

(** [ctx.fillStyle = '#000000'; ctx.fillRect(x, y, w, h)].  A pixel wholly
    inside the rectangle takes the fill colour, a pixel the rectangle does
    not reach keeps its own, and a pixel on the border is blended by the
    rasteriser ([antialias], which differs between browsers). *)
Definition fillRect (antialias : Q -> Color -> Color)
    (x y w h : Q) (c : Canvas) : Canvas :=
  mkCanvas (canvas_width c) (canvas_height c)
    (fun i j =>
       if in_bounds (canvas_width c) (canvas_height c) i j then
         let cov := coverage x y w h i j in
         if Qeq_bool cov 1 then black
         else if Qle_bool cov 0 then canvas_px c i j
         else antialias cov (canvas_px c i j)
       else canvas_px c i j).

(** What the handlers obtain from the browser and from JSZip. *)
Record Platform := mkPlatform {
  (** the rasteriser's blend of the opaque black fill onto a partly
      covered pixel *)
  antialias : Q -> Color -> Color;
  (** [new Image(); img.src = url]: the decoded image, or [onerror] *)
  loadImage : string -> option Image;
  (** [canvas.getContext('2d')] gave a context *)
  getContext : Canvas -> bool;
  (** [canvas.toBlob(cb, 'image/png')]: the encoded bytes, or [null] *)
  toBlob : Canvas -> option Blob;
  (** [canvas.toDataURL('image/png')] *)
  toDataURL : Canvas -> string;
  (** [zip.generateAsync({type: "blob"})] on the entries of the folder *)
  generateAsync : gmap string ZipData -> Settled Blob
}.

(** Blending black onto an opaque black pixel leaves it opaque black,
    whatever the coverage: the one property of the rasteriser the export
    relies on. *)
Definition blend_keeps_fill (P : Platform) : Prop :=
  forall cov, antialias P cov black = black.

(** Source-over blending of opaque black with 8-bit channels, rounding
    down: a rasteriser that satisfies [blend_keeps_fill]. *)
Definition blend8 (cov : Q) (dst : Color) : Color :=
  let keep (v : Z) := Qfloor ((1 - cov) * inject_Z v) in
  rgba (keep (red dst)) (keep (green dst)) (keep (blue dst))
       (Qfloor (cov * 255 + (1 - cov) * inject_Z (alpha dst))).

(** ** [CanvasEditor.tsx] *)

(** A mouse event on the canvas element, with the element's
    [getBoundingClientRect()] at the time of the event. *)
Record MouseEvent := mkMouse {
  clientX : Q;
  clientY : Q;
  rect_left : Q;
  rect_top : Q;
  rect_width : Q;
  rect_height : Q
}.

(** [dragRef.current] *)
Record DragRef := mkDrag {
  isDown : bool;
  startX : Q;
  startY : Q;
  scrollLeft : Q;
  scrollTop : Q
}.

(** The component: its props [mode] and [masks] (with [setMasks] acting on
    [ed_masks]), its state [image] and [currentRect], the drag ref, and the
    scroll offsets of [containerRef.current] when the container is
    mounted.  The offsets are kept as assigned; that the browser clamps
    them to the scrollable range is not modelled. *)
Record Editor := mkEditor {
  ed_mode : ToolMode;
  ed_masks : list MaskRect;
  ed_image : option Image;
  ed_currentRect : option PartialRect;
  ed_drag : DragRef;
  ed_container : option (Q * Q)
}.

Definition set_drag (d : DragRef) (s : Editor) : Editor :=
  mkEditor (ed_mode s) (ed_masks s) (ed_image s) (ed_currentRect s) d
           (ed_container s).
Definition setCurrentRect (r : option PartialRect) (s : Editor) : Editor :=
  mkEditor (ed_mode s) (ed_masks s) (ed_image s) r (ed_drag s)
           (ed_container s).
Definition setMasks (f : list MaskRect -> list MaskRect) (s : Editor) : Editor :=
  mkEditor (ed_mode s) (f (ed_masks s)) (ed_image s) (ed_currentRect s)
           (ed_drag s) (ed_container s).
Definition set_scroll (p : Q * Q) (s : Editor) : Editor :=
  mkEditor (ed_mode s) (ed_masks s) (ed_image s) (ed_currentRect s)
           (ed_drag s) (Some p).

(** Calculate position relative to the element.  (For an element of zero
    width or height JavaScript gives an infinity or [NaN]; [Q] gives 0.) *)
Definition getNormalizedPos (e : MouseEvent) : Q * Q :=
  ((clientX e - rect_left e) / rect_width e,
   (clientY e - rect_top e) / rect_height e).

Definition handleMouseDown (e : MouseEvent) (s : Editor) : Editor :=
  match ed_image s with
  | None => s
  | Some _ =>
    let d := ed_drag s in
    let d1 := mkDrag true (clientX e) (clientY e) (scrollLeft d) (scrollTop d) in
    match ed_mode s, ed_container s with
    | PAN, Some (sl, st) =>
        (* Record scroll position for "Grab and Drag" scrolling *)
        set_drag (mkDrag true (clientX e) (clientY e) sl st) s
    | PAN, None => set_drag d1 s
    | DRAW, _ =>
        let '(x, y) := getNormalizedPos e in
        setCurrentRect (Some (mkPartial (Some x) (Some y) (Some 0) (Some 0)))
                       (set_drag d1 s)
    end
  end.

(** [x - prev.x!]: the difference, when the field is there.  (Without the
    field JavaScript gives [NaN]; the editor never makes a rectangle
    without it.) *)
Definition minus_field (x : Q) (f : option Q) : option Q :=
  match f with Some a => Some (x - a) | None => None end.

Definition handleMouseMove (e : MouseEvent) (s : Editor) : Editor :=
  if negb (isDown (ed_drag s)) then s
  else
    match ed_mode s, ed_container s with
    | PAN, Some _ =>
        let dx := clientX e - startX (ed_drag s) in
        let dy := clientY e - startY (ed_drag s) in
        (* Scroll opposite to drag direction *)
        set_scroll (scrollLeft (ed_drag s) - dx, scrollTop (ed_drag s) - dy) s
    | PAN, None => s
    | DRAW, _ =>
        let '(x, y) := getNormalizedPos e in
        setCurrentRect
          (match ed_currentRect s with
           | None => None
           | Some prev =>
               Some (mkPartial (part_x prev) (part_y prev)
                               (minus_field x (part_x prev))
                               (minus_field y (part_y prev)))
           end) s
    end.

Definition release (d : DragRef) : DragRef :=
  mkDrag false (startX d) (startY d) (scrollLeft d) (scrollTop d).

(** Minimum size threshold to prevent accidental clicks *)
Definition threshold : Q := 5 # 1000.

(** [handleMouseUp], with the value [Date.now()] gives when it is read. *)
Definition handleMouseUp (now : N) (s : Editor) : Editor :=
  let s1 := set_drag (release (ed_drag s)) s in
  match ed_mode s, ed_currentRect s with
  | DRAW, Some r =>
    match part_x r, part_y r, part_w r, part_h r with
    | Some x, Some y, Some w, Some h =>
        (* Normalize negative dims *)
        let '(x, w) := if Qltb w 0 then (x + w, Qabs w) else (x, w) in
        let '(y, h) := if Qltb h 0 then (y + h, Qabs h) else (y, h) in
        let s2 :=
          if Qltb threshold w && Qltb threshold h then
            let newMask := mkMaskRect (pretty now) x y w h manual None in
            setMasks (fun prev => prev ++ [newMask]) s1
          else s1 in
        setCurrentRect None s2
    | _, _, _, _ => s1
    end
  | _, _ => s1
  end.

Definition handleMouseLeave (s : Editor) : Editor :=
  (* If mouse leaves the canvas, stop the interaction *)
  if isDown (ed_drag s)
  then setCurrentRect None (set_drag (release (ed_drag s)) s)
  else s.

(** The events of the canvas element. *)
Inductive PointerEvent :=
  | MouseDown (e : MouseEvent)
  | MouseMove (e : MouseEvent)
  | MouseUp (now : N)
  | MouseLeave.

Definition dispatch (s : Editor) (ev : PointerEvent) : Editor :=
  match ev with
  | MouseDown e => handleMouseDown e s
  | MouseMove e => handleMouseMove e s
  | MouseUp now => handleMouseUp now s
  | MouseLeave => handleMouseLeave s
  end.

(** The states of the interaction, as the design document names them, read
    off the drag ref and the tool mode. *)
Inductive Interaction := Idle | Panning | Drawing.

Definition interaction (s : Editor) : Interaction :=
  if isDown (ed_drag s)
  then match ed_mode s with PAN => Panning | DRAW => Drawing end
  else Idle.

(** A download handed to the browser: [link.download] and [link.href]. *)
Record Download := mkDownload {
  download_name : string;
  download_href : string
}.

(** The export effect, run when [exportTrigger] changes.  The canvas element
    behind [canvasRef] is rendered exactly when [image] is set, so the test
    on [canvasRef.current] adds nothing to the one on [image].  [None]: the
    effect did nothing. *)
Definition exportEffect (P : Platform) (exportTrigger : nat) (now : N)
    (s : Editor) : option (Canvas * Download) :=
  match ed_image s with
  | Some image =>
    if (0 <? exportTrigger)%nat then
      let canvas := createCanvas (naturalWidth image) (naturalHeight image) in
      if getContext P canvas then
        let drawn := drawImage image canvas in
        let filled :=
          fold_left
            (fun c mask =>
               fillRect (antialias P)
                 (mask_x mask * inject_Z (naturalWidth image))
                 (mask_y mask * inject_Z (naturalHeight image))
                 (mask_w mask * inject_Z (naturalWidth image))
                 (mask_h mask * inject_Z (naturalHeight image)) c)
            (ed_masks s) drawn in
        Some (filled,
              mkDownload ("desensitized_" +:+ pretty now +:+ ".png")
                         (toDataURL P filled))
      else None
    else None
  | None => None
  end.

(** ** [types.ts]: project files *)

Inductive FileStatus := pending | processed.

(** [ProjectFile]; the untyped [parsedTableData] of a table is left out, no
    handler below reads it.  [M] is what the field [masks] holds: the
    rectangles themselves in the handlers below, a reference to the array
    where the identity of the array matters ([Refs]). *)
Record FileOf (M : Type) := mkFile {
  file_id : string;
  file_name : string;
  file_blob : Blob;
  file_url : string;
  file_type : FileType;
  file_masks : M;
  file_auditResult : option string;
  file_status : FileStatus
}.
Arguments mkFile {M} _ _ _ _ _ _ _ _.
Arguments file_id {M} _.
Arguments file_name {M} _.
Arguments file_blob {M} _.
Arguments file_url {M} _.
Arguments file_type {M} _.
Arguments file_masks {M} _.
Arguments file_auditResult {M} _.
Arguments file_status {M} _.

Abbreviation ProjectFile := (FileOf (list MaskRect)).

(** [{ ...f, masks: m }] *)
Definition with_masks {M M' : Type} (m : M') (f : FileOf M) : FileOf M' :=
  mkFile (file_id f) (file_name f) (file_blob f) (file_url f) (file_type f)
         m (file_auditResult f) (file_status f).

(** ** [WelcomeScreen.tsx]: the file a rendered PDF page becomes *)

Definition pdfPageFile (pdfName : string) (i : N) (now : N)
    (png : Blob) (url : string) : ProjectFile :=
  mkFile ("pdf-page-" +:+ pretty i +:+ "-" +:+ pretty now)
         (pdfName +:+ " [P" +:+ pretty i +:+ "]")
         png url
         image_file   (* Treat converted PDF pages as standard images *)
         [] None pending.

(** ** [App.tsx] *)

(** The project state of [App]; the toast and the busy flag are display
    only and are left out. *)
Record App := mkApp {
  projectDesc : string;
  files : list ProjectFile;
  currentFileIndex : nat;
  exportTrigger : nat
}.

Definition setFiles (f : list ProjectFile -> list ProjectFile) (s : App) : App :=
  mkApp (projectDesc s) (f (files s)) (currentFileIndex s) (exportTrigger s).
Definition setCurrentFileIndex (i : nat) (s : App) : App :=
  mkApp (projectDesc s) (files s) i (exportTrigger s).
Definition setExportTrigger (f : nat -> nat) (s : App) : App :=
  mkApp (projectDesc s) (files s) (currentFileIndex s) (f (exportTrigger s)).

(** [MaskRect[] | ((prev: MaskRect[]) => MaskRect[])] *)
Inductive MaskUpdate :=
  | NewMasks (l : list MaskRect)
  | MasksFn (f : list MaskRect -> list MaskRect).

(** The updater [handleMaskChange] hands to [setFiles], for the
    [currentFileIndex] it closed over.  An index past the end reads
    [undefined], whose [type] is not ['image']. *)
Definition handleMaskChange (currentFileIndex : nat) (newMasksOrFn : MaskUpdate)
    (prev : list ProjectFile) : list ProjectFile :=
  match prev !! currentFileIndex with
  | Some current =>
      if decide (file_type current = image_file) then
        let masks :=
          match newMasksOrFn with
          | MasksFn f => f (file_masks current)
          | NewMasks l => l
          end in
        <[currentFileIndex := with_masks masks current]> prev
      else prev (* Only mask images *)
  | None => prev
  end.

(** [handleApplyMasksToAll], with the answer given to [window.confirm].
    With no file at the current index the read of [.masks] throws and the
    state stays as it is. *)
Definition handleApplyMasksToAll (confirm : bool) (s : App) : App :=
  match files s !! currentFileIndex s with
  | None => s
  | Some source =>
      let sourceMasks := file_masks source in
      if (length sourceMasks =? 0)%nat then s
      else if negb confirm then s
      else
        setFiles
          (fun prev =>
             map (fun f =>
                    if decide (file_type f = image_file)
                    then with_masks sourceMasks f
                    else f) prev) s
  end.

(** Helper to process an image off-screen for zip export *)
Definition processImageForExport (P : Platform) (file : ProjectFile)
    : Settled Blob :=
  if decide (file_type file = image_file) then
    match loadImage P (file_url file) with
    | None => Rejected "Image load error"
    | Some img =>
        let canvas := createCanvas (naturalWidth img) (naturalHeight img) in
        if getContext P canvas then
          (* Draw image *)
          let drawn := drawImage img canvas in
          (* Draw masks *)
          let filled :=
            fold_left
              (fun c mask =>
                 fillRect (antialias P)
                   (mask_x mask * inject_Z (naturalWidth img))
                   (mask_y mask * inject_Z (naturalHeight img))
                   (mask_w mask * inject_Z (naturalWidth img))
                   (mask_h mask * inject_Z (naturalHeight img)) c)
              (file_masks file) drawn in
          match toBlob P filled with
          | Some blob => Resolved blob
          | None => Rejected "Blob generation failed"
          end
        else Rejected "Canvas context error"
    end
  else Resolved (file_blob file). (* Return original if not image *)

(** The character class [[^/.]]. *)
Definition not_slash_dot (c : ascii) : bool :=
  negb (Ascii.eqb c "/") && negb (Ascii.eqb c ".").

Fixpoint all_not_slash_dot (s : string) : bool :=
  match s with
  | EmptyString => true
  | String c rest => not_slash_dot c && all_not_slash_dot rest
  end.

(** [/\.[^/.]+$/] matches the whole of [s]. *)
Definition is_extension (s : string) : bool :=
  match s with
  | String c rest =>
      Ascii.eqb c "." && negb (String.eqb rest "") && all_not_slash_dot rest
  | EmptyString => false
  end.

(** [s.replace(/\.[^/.]+$/, "")]: the leftmost match is dropped; it runs
    to the end of the string. *)
Fixpoint replace_extension (s : string) : string :=
  if is_extension s then ""
  else match s with
       | EmptyString => ""
       | String c rest => String c (replace_extension rest)
       end.

(** The name of a file's entry in the archive. *)
Definition entryName (file : ProjectFile) : string :=
  (* Normalize image extension if processed *)
  if decide (file_type file = image_file)
  then replace_extension (file_name file) +:+ ".png"
  else file_name file.

(** ** The archive folder

    [JSZip] is not code of the repository.  [folder.file(name, data)]
    stores the data under the name, replacing what was there, and, with
    [createFolders] at its default, first makes sure that every folder on
    the path of the name has a directory entry.  Names are relative to the
    folder [desensitized_package], which exists from the start. *)

(** [path.slice(-1) === "/"] *)
Fixpoint endsWithSlash (path : string) : bool :=
  match path with
  | EmptyString => false
  | String c rest =>
      match rest with
      | EmptyString => Ascii.eqb c "/"
      | String _ _ => endsWithSlash rest
      end
  end.

Definition forceTrailingSlash (path : string) : string :=
  if endsWithSlash path then path else path +:+ "/".

(** [path.substring(0, path.length - 1)] *)
Fixpoint dropLast (path : string) : string :=
  match path with
  | EmptyString => ""
  | String c rest =>
      match rest with
      | EmptyString => ""
      | String _ _ => String c (dropLast rest)
      end
  end.

(** [path.substring(0, path.lastIndexOf("/"))], when there is a slash. *)
Fixpoint beforeLastSlash (path : string) : option string :=
  match path with
  | EmptyString => None
  | String c rest =>
      match beforeLastSlash rest with
      | Some before => Some (String c before)
      | None => if Ascii.eqb c "/" then Some "" else None
      end
  end.

(** The folder a path lies in; [""] for a path directly in the folder
    [desensitized_package]. *)
Definition parentFolder (path : string) : string :=
  let path := if endsWithSlash path then dropLast path else path in
  default "" (beforeLastSlash path).

(** [folderAdd]: the directory entry of a folder, and of the folders it
    lies in, unless it exists.  A parent is shorter than its path, so
    [fuel] from the length of the path on is enough. *)
Fixpoint folderAdd (fuel : nat) (name : string) (entries : gmap string ZipData)
    : gmap string ZipData :=
  let name := forceTrailingSlash name in
  match entries !! name with
  | Some _ => entries   (* Does this folder already exist? *)
  | None =>
      <[name := ZipDir]>
        (match fuel with
         | O => entries
         | S fuel =>
             if String.eqb (parentFolder name) "" then entries
             else folderAdd fuel (parentFolder name) entries
         end)
  end.

(** [folder.file(name, data)] *)
Definition fileAdd (name : string) (data : ZipData)
    (entries : gmap string ZipData) : gmap string ZipData :=
  <[name := data]>
    (if String.eqb (parentFolder name) "" then entries
     else folderAdd (String.length name) (parentFolder name) entries).

(** ** [App.tsx]: batch export *)

(** The body of one callback of [files.map(async (file) => ...)], run when
    its promise settles: the entry is added, or the failure is logged and
    the archive left as it is.  The state is the folder's entries (a later
    [file] call under a name replaces the earlier entry) and the console. *)
Definition exportOne (P : Platform) (acc : gmap string ZipData * list string)
    (file : ProjectFile) : gmap string ZipData * list string :=
  match processImageForExport P file with
  | Resolved processedBlob =>
      (fileAdd (entryName file) (ZipBlob processedBlob) (fst acc), snd acc)
  | Rejected err =>
      (fst acc, snd acc ++ ["Failed to process " +:+ file_name file])
  end.

(** What a batch export leaves behind. *)
Record BatchResult := mkBatch {
  (** the project state afterwards *)
  batch_app : App;
  (** the entries of the folder [desensitized_package] handed to
      [generateAsync], when an archive was assembled *)
  batch_folder : option (gmap string ZipData);
  (** [console.error] lines *)
  batch_console : list string;
  (** the bytes given to [saveAs] as [blueprint_sentinel_export.zip] *)
  batch_saved : option Blob
}.

(** [handleBatchExport].  [settle] gives the order in which the promises of
    [files.map(async ...)] settle, which is the order of the [folder.file]
    calls; [Promise.all] waits for all of them. *)
Definition handleBatchExport (P : Platform)
    (settle : list ProjectFile -> list ProjectFile) (s : App) : BatchResult :=
  if (length (files s) =? 0)%nat then mkBatch s None [] None
  else if (length (files s) =? 1)%nat
          && match files s !! 0%nat with
             | Some f => bool_decide (file_type f = image_file)
             | None => false
             end
  then
    (* Single image export optimization *)
    mkBatch (setExportTrigger (fun prev => prev + 1)%nat s) None [] None
  else
    let folder0 : gmap string ZipData :=
      if String.eqb (projectDesc s) "" then ∅
      else fileAdd "requirements.txt" (ZipText (projectDesc s)) ∅ in
    let '(folder, console) :=
      fold_left (exportOne P) (settle (files s)) (folder0, []) in
    match generateAsync P folder with
    | Resolved content => mkBatch s (Some folder) console (Some content)
    | Rejected error => mkBatch s (Some folder) (console ++ [error]) None
    end.

(** The mask [handleAutoDetect] makes of one detection, with the values
    [Date.now()] and [Math.random()] give for it ([random] is the text the
    template literal renders the draw as). *)
Definition detectedMask (now : N) (random : string) (r : AiDetectionResult)
    : MaskRect :=
  mkMaskRect
    ("ai-" +:+ pretty now +:+ "-" +:+ random)
    (if Qltb 1 (box_1 r) then box_1 r / 1000 else box_1 r)
    (if Qltb 1 (box_0 r) then box_0 r / 1000 else box_0 r)
    (if Qltb 1 (box_3 r - box_1 r)
     then (box_3 r - box_1 r) / 1000 else box_3 r - box_1 r)
    (if Qltb 1 (box_2 r - box_0 r)
     then (box_2 r - box_0 r) / 1000 else box_2 r - box_0 r)
    ai
    (Some (det_label r)).

(** One detection as [results.map] sees it: the result and the two
    readings taken for its id. *)
Record Detection := mkDet {
  det_now : N;
  det_random : string;
  det_result : AiDetectionResult
}.

Definition newMasks (results : list Detection) : list MaskRect :=
  map (fun d => detectedMask (det_now d) (det_random d) (det_result d)) results.

(** What the asynchronous part of [handleAutoDetect] meets. *)
Record DetectorRun := mkRun {
  (** [process.env.API_KEY] is set *)
  run_api_key : bool;
  (** [fetch(currentFile.url)] and the read of the blob went through *)
  run_fetched : bool;
  (** the answer of [detectSensitiveData], [None] when it throws *)
  run_results : option (list Detection)
}.

(** [handleAutoDetect]: the state once the request has come back.  The
    append goes through the [handleMaskChange] of the render that started
    the request, so to the file that was current then.  With no file at
    the current index the read of [.type] throws and the state stays as it
    is. *)
Definition handleAutoDetect (run : DetectorRun) (s : App) : App :=
  if (length (files s) =? 0)%nat then s
  else
    match files s !! currentFileIndex s with
    | None => s
    | Some currentFile =>
        if decide (file_type currentFile = image_file) then
          if negb (run_api_key run) then s
          else if negb (run_fetched run) then s
          else
            match run_results run with
            | None => s
            | Some results =>
                if (length results =? 0)%nat then s
                else
                  (* Add to current file masks *)
                  setFiles
                    (handleMaskChange (currentFileIndex s)
                       (MasksFn (fun prev => prev ++ newMasks results))) s
            end
        else s
    end.

(** ** The editor inside the application

    [App] renders the editor with [masks={files[currentFileIndex]?.masks}]
    and [setMasks={handleMaskChange}]. *)

Definition with_editor_masks (masks : list MaskRect) (ed : Editor) : Editor :=
  mkEditor (ed_mode ed) masks (ed_image ed) (ed_currentRect ed) (ed_drag ed)
           (ed_container ed).

(** A pointer-up on the editor [ed]: what [handleMouseUp] does to the masks
    it is given is done, through [handleMaskChange], to the masks of the
    current file. *)
Definition pointerUp (now : N) (ed : Editor) (s : App) : App :=
  setFiles
    (handleMaskChange (currentFileIndex s)
       (MasksFn (fun prev =>
                   ed_masks (handleMouseUp now (with_editor_masks prev ed)))))
    s.

(** What can happen to the masks of a project. *)
Inductive Action :=
  (** [onFileSelect] *)
  | FileSelect (i : nat)
  (** the end of a drag on the editor, in the state [ed] *)
  | PointerUp (now : N) (ed : Editor)
  (** a detection started while file [startedAt] was current comes back *)
  | AutoDetect (startedAt : nat) (run : DetectorRun)
  (** [onApplyMasksToAll] *)
  | ApplyMasksToAll (confirm : bool)
  (** [onClear={() => handleMaskChange([])}] *)
  | Clear.

Definition step (s : App) (a : Action) : App :=
  match a with
  | FileSelect i => setCurrentFileIndex i s
  | PointerUp now ed => pointerUp now ed s
  | AutoDetect startedAt run =>
      setCurrentFileIndex (currentFileIndex s)
        (handleAutoDetect run (setCurrentFileIndex startedAt s))
  | ApplyMasksToAll confirm => handleApplyMasksToAll confirm s
  | Clear => setFiles (handleMaskChange (currentFileIndex s) (NewMasks [])) s
  end.

Definition runActions (s : App) (actions : list Action) : App :=
  fold_left step actions s.

(** The readings of [Date.now()] taken for manual masks, and the pairs of
    readings of [Date.now()] and [Math.random()] taken for detected ones. *)
Definition manualReadings (a : Action) : list N :=
  match a with
  | PointerUp now _ => [now]
  | _ => []
  end.

Definition detectionReadings (a : Action) : list (N * string) :=
  match a with
  | AutoDetect _ run =>
      match run_results run with
      | Some results => map (fun d => (det_now d, det_random d)) results
      | None => []
      end
  | _ => []
  end.

Definition ids (masks : list MaskRect) : list string := map mask_id masks.

(** ** Arrays with identity

    The same handlers with the [masks] arrays kept in a store and the files
    holding references to them, so that two files can share an array and a
    write to an array shows in every file that holds it. *)
Module Refs.

Definition loc := positive.

Record Heap := mkHeap {
  files : list (FileOf loc);
  store : gmap loc (list MaskRect)
}.

(** The array behind a reference. *)
Definition deref (st : gmap loc (list MaskRect)) (l : loc) : list MaskRect :=
  default [] (st !! l).

(** A new array: [[...a]], [[...prev, m]], [[]]. *)
Definition alloc (content : list MaskRect) (st : gmap loc (list MaskRect))
    : loc * gmap loc (list MaskRect) :=
  let l := fresh (dom st) in (l, <[l := content]> st).

(** A write to the array itself ([push], [splice], [length = 0]). *)
Definition writeArray (l : loc) (content : list MaskRect)
    (st : gmap loc (list MaskRect)) : gmap loc (list MaskRect) :=
  <[l := content]> st.

(** The files as the handlers of [App] see them. *)
Definition view (h : Heap) : list ProjectFile :=
  map (fun f => with_masks (deref (store h) (file_masks f)) f) (files h).

(** [prev.map(f => f.type === 'image' ? { ...f, masks: [...sourceMasks] } : f)]:
    one new array for every image. *)
Fixpoint copyToImages (sourceMasks : list MaskRect) (prev : list (FileOf loc))
    (st : gmap loc (list MaskRect))
    : list (FileOf loc) * gmap loc (list MaskRect) :=
  match prev with
  | [] => ([], st)
  | f :: rest =>
      if decide (file_type f = image_file) then
        let '(l, st1) := alloc sourceMasks st in
        let '(rest', st2) := copyToImages sourceMasks rest st1 in
        (with_masks l f :: rest', st2)
      else
        let '(rest', st2) := copyToImages sourceMasks rest st in
        (f :: rest', st2)
  end.

Definition handleApplyMasksToAll (currentFileIndex : nat) (confirm : bool)
    (h : Heap) : Heap :=
  match files h !! currentFileIndex with
  | None => h
  | Some source =>
      let sourceMasks := deref (store h) (file_masks source) in
      if (length sourceMasks =? 0)%nat then h
      else if negb confirm then h
      else
        let '(fs, st) := copyToImages sourceMasks (files h) (store h) in
        mkHeap fs st
  end.

(** [handleMaskChange] as its three callers use it: the array assigned to
    [current.masks] is a new one ([[]], [[...prev, newMask]],
    [[...prev, ...newMasks]]). *)
Definition handleMaskChange (currentFileIndex : nat)
    (newMasksOrFn : MaskUpdate) (h : Heap) : Heap :=
  match files h !! currentFileIndex with
  | Some current =>
      if decide (file_type current = image_file) then
        let masks :=
          match newMasksOrFn with
          | MasksFn f => f (deref (store h) (file_masks current))
          | NewMasks l => l
          end in
        let '(l, st) := alloc masks (store h) in
        mkHeap (<[currentFileIndex := with_masks l current]> (files h)) st
      else h
  | None => h
  end.

(** Every reference held by a file is in the store. *)
Definition allocated (h : Heap) : Prop :=
  forall f, f ∈ files h -> file_masks f ∈ dom (store h).

End Refs.

(** ** Vocabulary of the properties *)

(** The full-resolution export composite: the canvas both export paths
    build before they encode it. *)
Definition composite (P : Platform) (img : Image) (masks : list MaskRect)
    : Canvas :=
  fold_left
    (fun c mask =>
       fillRect (antialias P)
         (mask_x mask * inject_Z (naturalWidth img))
         (mask_y mask * inject_Z (naturalHeight img))
         (mask_w mask * inject_Z (naturalWidth img))
         (mask_h mask * inject_Z (naturalHeight img)) c)
    masks
    (drawImage img (createCanvas (naturalWidth img) (naturalHeight img))).

(** The pixel-space box of a mask on an image: its two horizontal and its
    two vertical bounds. *)
Definition box_left (m : MaskRect) (img : Image) : Q :=
  Qmin (mask_x m * inject_Z (naturalWidth img))
       (mask_x m * inject_Z (naturalWidth img)
        + mask_w m * inject_Z (naturalWidth img)).
Definition box_right (m : MaskRect) (img : Image) : Q :=
  Qmax (mask_x m * inject_Z (naturalWidth img))
       (mask_x m * inject_Z (naturalWidth img)
        + mask_w m * inject_Z (naturalWidth img)).
Definition box_top (m : MaskRect) (img : Image) : Q :=
  Qmin (mask_y m * inject_Z (naturalHeight img))
       (mask_y m * inject_Z (naturalHeight img)
        + mask_h m * inject_Z (naturalHeight img)).
Definition box_bottom (m : MaskRect) (img : Image) : Q :=
  Qmax (mask_y m * inject_Z (naturalHeight img))
       (mask_y m * inject_Z (naturalHeight img)
        + mask_h m * inject_Z (naturalHeight img)).

(** Pixel [(i, j)] lies inside the box of [m]. *)
Definition pixel_inside (m : MaskRect) (img : Image) (i j : Z) : Prop :=
  box_left m img <= inject_Z i /\ inject_Z i + 1 <= box_right m img /\
  box_top m img <= inject_Z j /\ inject_Z j + 1 <= box_bottom m img.

(** Pixel [(i, j)] lies outside the box of [m]. *)
Definition pixel_outside (m : MaskRect) (img : Image) (i j : Z) : Prop :=
  inject_Z i + 1 <= box_left m img \/ box_right m img <= inject_Z i \/
  inject_Z j + 1 <= box_top m img \/ box_bottom m img <= inject_Z j.

(** A mask over the whole image. *)
Definition full_image (m : MaskRect) : Prop :=
  mask_x m == 0 /\ mask_y m == 0 /\ mask_w m == 1 /\ mask_h m == 1.

(** A drag: press at [e0], move through [moves], release. *)
Definition drag (e0 : MouseEvent) (moves : list MouseEvent) (now : N)
    : list PointerEvent :=
  MouseDown e0 :: map MouseMove moves ++ [MouseUp now].

Definition play (s : Editor) (events : list PointerEvent) : Editor :=
  fold_left dispatch events s.

(** The composition of [file] went through. *)
Definition succeeded (P : Platform) (file : ProjectFile) : bool :=
  match processImageForExport P file with
  | Resolved _ => true
  | Rejected _ => false
  end.

(** The entries of the archive before any file is added: the requirements,
    when there are any. *)
Definition manifest (s : App) : gmap string ZipData :=
  if String.eqb (projectDesc s) "" then ∅
  else <["requirements.txt" := ZipText (projectDesc s)]> ∅.

(** The characters ["0"] to ["9"]. *)
Definition is_digit (c : ascii) : bool :=
  (48 <=? nat_of_ascii c)%nat && (nat_of_ascii c <=? 57)%nat.

Fixpoint all_digits (s : string) : bool :=
  match s with
  | EmptyString => true
  | String c rest => is_digit c && all_digits rest
  end.

(** The id of a detected mask, from the two readings taken for it. *)
Definition detectedId (reading : N * string) : string :=
  "ai-" +:+ pretty (fst reading) +:+ "-" +:+ snd reading.

(** The ids made from the readings [manuals] and [detections]. *)
Definition issued (manuals : list N) (detections : list (N * string))
    : list string :=
  (pretty <$> manuals) ++ (detectedId <$> detections).

(** In every file the ids are pairwise distinct and were made from the
    readings [manuals] and [detections]. *)
Definition ids_fresh (manuals : list N) (detections : list (N * string))
    (fs : list ProjectFile) : Prop :=
  forall f, f ∈ fs ->
    NoDup (ids (file_masks f)) /\
    forall i, i ∈ ids (file_masks f) -> i ∈ issued manuals detections.

(** ** Sample data

    A browser in which nothing fails, and a two by two image, used to run
    the definitions on concrete inputs. *)

Definition samplePixel (i j : Z) : Color := rgba (10 * i + j) 128 64 255.

Definition sampleImage : Image := mkImage 2 2 samplePixel.

Definition samplePlatform : Platform :=
  mkPlatform blend8
    (fun _ => Some sampleImage)
    (fun _ => true)
    (fun _ => Some [])
    (fun _ => "data:image/png;base64,")
    (fun _ => Resolved []).

(** A manual mask over the left half of the image. *)
Definition leftHalf : MaskRect :=
  mkMaskRect "1700000000000" 0 0 (1 # 2) 1 manual None.

(** An editor showing [sampleImage], nothing pressed, nothing drawn. *)
Definition idleEditor (mode : ToolMode) : Editor :=
  mkEditor mode [] (Some sampleImage) None (mkDrag false 0 0 0 0)
           (Some (0, 0)).

(** A pointer at [(x, y)] over a canvas shown at 100 by 100 in the corner
    of the window. *)
Definition pointerAt (x y : Q) : MouseEvent := mkMouse x y 0 0 100 100.

(** The editor in the middle of a draw, and in the middle of a pan that has
    scrolled the container. *)
Definition drawingEditor : Editor :=
  play (idleEditor DRAW) [MouseDown (pointerAt 20 20); MouseMove (pointerAt 60 50)].

Definition panningEditor : Editor :=
  play (idleEditor PAN) [MouseDown (pointerAt 50 50); MouseMove (pointerAt 30 40)].

(** The project [WelcomeScreen] makes of a PDF of two pages. *)
Definition twoPages : App :=
  mkApp "remove the title block"
        [pdfPageFile "drawing.pdf" 1 1700000000000 [] "blob:page-1";
         pdfPageFile "drawing.pdf" 2 1700000000001 [] "blob:page-2"]
        0 0.

(** A project of a single image. *)
Definition oneImage : App :=
  mkApp "remove the title block"
        [mkFile "img-1700000000000-0.5" "plan.jpg" [] "blob:plan" image_file
                [leftHalf] None pending]
        0 0.

(** A browser in which the image behind one address does not decode, and
    a project of three files, the second of which is that image. *)
Definition flakyPlatform : Platform :=
  mkPlatform blend8
    (fun url => if String.eqb url "blob:broken" then None else Some sampleImage)
    (fun _ => true)
    (fun _ => Some [])
    (fun _ => "data:image/png;base64,")
    (fun _ => Resolved []).

Definition planFile : ProjectFile :=
  mkFile "img-1" "plan.jpg" [] "blob:plan" image_file [leftHalf] None pending.
Definition brokenFile : ProjectFile :=
  mkFile "img-2" "detail.jpg" [] "blob:broken" image_file [] None pending.
Definition bomFile : ProjectFile :=
  mkFile "table-3" "bom.csv" [Byte.x01] "" table_file [] None pending.

Definition mixedProject : App :=
  mkApp "" [planFile; brokenFile; bomFile] 0 0.

(** A browser in which the two pages of [twoPages] decode to images of
    different sizes and the encoder tells them apart. *)
Definition pagesPlatform : Platform :=
  mkPlatform blend8
    (fun url => if String.eqb url "blob:page-1"
                then Some (mkImage 1 1 samplePixel)
                else Some sampleImage)
    (fun _ => true)
    (fun c => Some (if (canvas_width c =? 1)%Z then [Byte.x01] else [Byte.x02]))
    (fun _ => "data:image/png;base64,")
    (fun _ => Resolved []).

(** A project of one image with no mask yet. *)
Definition freshProject : App :=
  mkApp ""
        [mkFile "img-1700000000000-0.5" "plan.jpg" [] "blob:plan" image_file
                [] None pending]
        0 0.

(** A session: a drag, a detection of two regions, another drag, and the
    masks copied to all images. *)
Definition sampleSession : list Action :=
  [PointerUp 1700000000000 drawingEditor;
   AutoDetect 0 (mkRun true true
                   (Some [mkDet 1700000000500 "0.25"
                            (mkDetection 100 200 400 600 "stamp");
                          mkDet 1700000000500 "0.75"
                            (mkDetection 500 500 600 900 "name")]));
   PointerUp 1700000000900 drawingEditor;
   ApplyMasksToAll true].

(** Two images that hold the same array and a table with an array of its
    own. *)
Definition sharedHeap : Refs.Heap :=
  Refs.mkHeap
    [mkFile "img-1" "plan.jpg" [] "blob:plan" image_file 1%positive None pending;
     mkFile "img-2" "detail.jpg" [] "blob:detail" image_file 1%positive None pending;
     mkFile "table-3" "bom.csv" [Byte.x01] "" table_file 2%positive None pending]
    (<[1%positive := [leftHalf]]> (<[2%positive := []]> ∅)).

(** * More of the code *)

(** ** [CanvasEditor.tsx]: zoom, preview *)

(** The two zoom buttons: [setZoom(z => Math.max(z - 0.1, 0.1))] and
    [setZoom(z => Math.min(z + 0.1, 5))]. *)
Definition zoomOut (z : Q) : Q := Qmax (z - (1 # 10)) (1 # 10).
Definition zoomIn (z : Q) : Q := Qmin (z + (1 # 10)) 5.

Inductive ZoomButton := ZoomOutButton | ZoomInButton.

Definition pressZoom (z : Q) (b : ZoomButton) : Q :=
  match b with
  | ZoomOutButton => zoomOut z
  | ZoomInButton => zoomIn z
  end.

(** The image loading effect, once the image has loaded: the new state and
    the zoom it sets (Requirement: Default 70%). *)
Definition onImageLoad (img : Image) (s : Editor) : Editor * Q :=
  (mkEditor (ed_mode s) (ed_masks s) (Some img) None (ed_drag s)
            (ed_container s),
   7 # 10).

(** The rectangle the painting effect draws for the rectangle in progress,
    in normalised coordinates: [(x, y, w, h)] before the multiplication by
    the image size.  [None]: nothing is drawn (no width yet, or a coordinate
    that is [NaN]). *)
Definition previewRect (r : PartialRect) : option (Q * Q * Q * Q) :=
  match part_w r with
  | None => None
  | Some w =>
      (* Handle negative dimensions for drawing *)
      let '(x, w) :=
        if Qltb w 0 then (Some (default 0 (part_x r) + w), Qabs w)
        else (part_x r, w) in
      match part_h r with
      | None => None
      | Some h =>
          let '(y, h) :=
            if Qltb h 0 then (Some (default 0 (part_y r) + h), Qabs h)
            else (part_y r, h) in
          match x, y with
          | Some x, Some y => Some (x, y, w, h)
          | _, _ => None
          end
      end
  end.

(** A rectangle is in progress only while the button is down in draw mode,
    and it then has its four fields. *)
Definition rect_in_progress_ok (s : Editor) : Prop :=
  ed_currentRect s = None \/
  (isDown (ed_drag s) = true /\ ed_mode s = DRAW /\
   exists x y w h,
     ed_currentRect s = Some (mkPartial (Some x) (Some y) (Some w) (Some h))).

(** The event is not a press. *)
Definition not_press (ev : PointerEvent) : Prop :=
  match ev with
  | MouseDown _ => False
  | _ => True
  end.

(** The number of releases among the events. *)
Fixpoint releases (events : list PointerEvent) : nat :=
  match events with
  | [] => 0
  | MouseUp _ :: rest => S (releases rest)
  | _ :: rest => releases rest
  end.

(** ** [App.tsx]: what is left of a file without its masks *)

Definition without_masks (f : ProjectFile) : FileOf unit := with_masks tt f.

(** ** [WelcomeScreen.tsx]: from an uploaded file to the files of a project *)

(** [s.split(sep)] for a separator of one character. *)
Fixpoint splitOn (sep : ascii) (s : string) : list string :=
  match s with
  | EmptyString => [""]
  | String c rest =>
      if Ascii.eqb c sep then "" :: splitOn sep rest
      else match splitOn sep rest with
           | seg :: segs => String c seg :: segs
           | [] => [String c ""]
           end
  end.

(** [toLowerCase] on the letters A to Z; the other letters that JavaScript
    lowers do not become any letter of the extensions tested below. *)
Definition lowerAscii (c : ascii) : ascii :=
  if (65 <=? nat_of_ascii c)%nat && (nat_of_ascii c <=? 90)%nat
  then ascii_of_nat (nat_of_ascii c + 32)
  else c.

Fixpoint toLowerCase (s : string) : string :=
  match s with
  | EmptyString => ""
  | String c rest => String (lowerAscii c) (toLowerCase rest)
  end.

(** [list.includes(x)] *)
Definition includes (l : list string) (x : string) : bool :=
  existsb (String.eqb x) l.

Inductive UploadType :=
  | upload_image | upload_3d | upload_table | upload_pdf | upload_unknown.

(** [filename.split('.').pop()?.toLowerCase()] *)
Definition extensionOf (filename : string) : option string :=
  toLowerCase <$> last (splitOn "." filename).

Definition getFileType (filename : string) : UploadType :=
  let ext := extensionOf filename in
  if includes ["jpg"; "jpeg"; "png"; "webp"] (default "" ext) then upload_image
  else if includes ["glb"; "gltf"] (default "" ext) then upload_3d
  else if includes ["xlsx"; "xls"; "csv"] (default "" ext) then upload_table
  else if bool_decide (ext = Some "pdf") then upload_pdf
  else upload_unknown.

(** A [File]: its name and its bytes. *)
Record File := mkUpload {
  upload_name : string;
  upload_bytes : Blob
}.

(** A member of a zip archive as JSZip presents it: its key in [zip.files],
    whether it is a directory, and what [async('blob')] gives for it. *)
Record ZipMember := mkMember {
  member_name : string;
  member_dir : bool;
  member_blob : Settled Blob
}.

(** What [processFile] and [handleFileEntry] obtain from the browser and
    the libraries. *)
Record Loader := mkLoader {
  (** [Date.now()] and [Math.random()] as read for the id of this file *)
  load_now : File -> N;
  load_random : File -> string;
  (** [URL.createObjectURL(file)] *)
  createObjectURL : File -> string;
  (** [XLSX.read] and [sheet_to_json] on the bytes: done, or an exception *)
  readWorkbook : Blob -> Settled unit;
  (** [pdfjs.getDocument] is there *)
  pdfjsLoaded : bool;
  (** loading the document and rendering its pages, first page first: for
      every page the [Date.now()] read for its id and the PNG [toBlob]
      gave, or [null]; or the message of the exception *)
  renderPdf : Blob -> Settled (list (N * option Blob));
  (** [JSZip.loadAsync(file)]: the members in the order of
      [Object.keys(zip.files)] *)
  unzip : Blob -> Settled (list ZipMember)
}.

(** The loop over the pages of a PDF, from page [i] on. *)
Fixpoint pdfPages (L : Loader) (pdfName : string) (i : N)
    (pages : list (N * option Blob)) : list ProjectFile :=
  match pages with
  | [] => []
  | (now, Some blob) :: rest =>
      pdfPageFile pdfName i now blob
        (createObjectURL L
           (mkUpload (pdfName +:+ "_Page_" +:+ pretty i +:+ ".png") blob))
      :: pdfPages L pdfName (i + 1) rest
  | (_, None) :: rest => pdfPages L pdfName (i + 1) rest
  end.

(** [processFile]; the rows parsed from a table, which only the table view
    reads, are not kept.  The name given to [new File] is the name the file
    has. *)
Definition processFile (L : Loader) (file : File)
    : Settled (list ProjectFile) :=
  match getFileType (upload_name file) with
  | upload_image =>
      Resolved
        [mkFile ("img-" +:+ pretty (load_now L file) +:+ "-" +:+ load_random L file)
                (upload_name file) (upload_bytes file)
                (createObjectURL L file) image_file [] None pending]
  | upload_3d =>
      Resolved
        [mkFile ("3d-" +:+ pretty (load_now L file) +:+ "-" +:+ load_random L file)
                (upload_name file) (upload_bytes file)
                (createObjectURL L file) model3d_file [] None pending]
  | upload_table =>
      match readWorkbook L (upload_bytes file) with
      | Rejected reason => Rejected reason
      | Resolved _ =>
          Resolved
            [mkFile ("table-" +:+ pretty (load_now L file) +:+ "-"
                     +:+ load_random L file)
                    (upload_name file) (upload_bytes file)
                    "" (* No URL needed for table, we store data *)
                    table_file [] None pending]
      end
  | upload_pdf =>
      if negb (pdfjsLoaded L)
      then Rejected "PDF.js library not loaded correctly."
      else
        match renderPdf L (upload_bytes file) with
        | Resolved pages => Resolved (pdfPages L (upload_name file) 1 pages)
        | Rejected message =>
            Rejected ("PDF 解析失败: "
                      +:+ (if String.eqb message "" then "Unknown error"
                           else message))
        end
  | upload_unknown => Resolved []
  end.

(** [s.endsWith(suffix)]: some tail of [s] is [suffix]. *)
Fixpoint endsWith (s suffix : string) : bool :=
  String.eqb s suffix
  || match s with
     | EmptyString => false
     | String _ rest => endsWith rest suffix
     end.

(** The members [handleFileEntry] keeps: no directory, nothing under
    [__MACOSX]. *)
Definition keptMember (m : ZipMember) : bool :=
  negb (member_dir m) && negb (String.prefix "__MACOSX" (member_name m)).

(** The loop over the kept members, with the files gathered so far. *)
Fixpoint processEntries (L : Loader) (entries : list ZipMember)
    (processedFiles : list ProjectFile) : Settled (list ProjectFile) :=
  match entries with
  | [] => Resolved processedFiles
  | m :: rest =>
      match member_blob m with
      | Rejected reason => Rejected reason
      | Resolved blob =>
          match processFile L (mkUpload (member_name m) blob) with
          | Rejected reason => Rejected reason
          | Resolved results =>
              processEntries L rest (processedFiles ++ results)
          end
      end
  end.

(** How [handleFileEntry] ends. *)
Inductive EntryOutcome :=
  (** [onProjectStart(description, processedFiles)] *)
  | ProjectStart (description : string) (loaded : list ProjectFile)
  (** the alert that no supported file was found *)
  | NoSupportedFile
  (** the alert of a failure, with [e.message] *)
  | LoadFailed (message : string).

Definition handleFileEntry (L : Loader) (description : string) (file : File)
    : EntryOutcome :=
  let processed :=
    if endsWith (upload_name file) ".zip" then
      match unzip L (upload_bytes file) with
      | Rejected reason => Rejected reason
      | Resolved members => processEntries L (List.filter keptMember members) []
      end
    else processFile L file in
  match processed with
  | Rejected message => LoadFailed message
  | Resolved processedFiles =>
      if (length processedFiles =? 0)%nat then NoSupportedFile
      else ProjectStart description processedFiles
  end.

(** [handleProjectStart] of [App]. *)
Definition handleProjectStart (description : string)
    (loadedFiles : list ProjectFile) (s : App) : App :=
  mkApp description loadedFiles 0 (exportTrigger s).

(** [s.includes(c)] for a single character. *)
Fixpoint contains (c : ascii) (s : string) : bool :=
  match s with
  | EmptyString => false
  | String a rest => Ascii.eqb a c || contains c rest
  end.

(** Sample uploads: a browser in which every library works and a PDF has
    three pages, the second of which gives no image. *)
Definition sampleLoader : Loader :=
  mkLoader (fun _ => 1700000000000%N) (fun _ => "0.5")
           (fun f => "blob:" +:+ upload_name f)
           (fun _ => Resolved tt)
           true
           (fun _ => Resolved [(1700000000001%N, Some [Byte.x01]);
                               (1700000000002%N, None);
                               (1700000000003%N, Some [Byte.x03])])
           (fun _ => Resolved [mkMember "drawings/" true (Resolved []);
                               mkMember "drawings/plan.PNG" false
                                        (Resolved [Byte.x01]);
                               mkMember "__MACOSX/drawings/._plan.PNG" false
                                        (Resolved [Byte.x02]);
                               mkMember "bom.csv" false (Resolved [Byte.x03])]).

(** ** [geminiService.ts] and the audit handlers of [App.tsx] *)

(** [base64Image.includes(',') ? base64Image.split(',')[1] : base64Image];
    a string with a comma splits into two parts at least. *)
Definition cleanBase64 (base64Image : string) : string :=
  if contains "," base64Image
  then default "" (splitOn "," base64Image !! 1%nat)
  else base64Image.

(** What an audit meets outside the program. *)
Record Auditor := mkAuditor {
  (** [process.env.API_KEY] is set *)
  audit_api_key : bool;
  (** [fetch(file.url)], the blob and [readAsDataURL]: the data URL, or
      the failure *)
  fetchDataURL : string -> Settled string;
  (** [generateContent] for the image data and the requirements:
      [response.text], empty when there is none, or the exception *)
  generateContent : string -> string -> Settled string
}.

Definition auditBlueprint (A : Auditor) (base64Image requirements : string)
    : Settled string :=
  if negb (audit_api_key A) then Rejected "缺少 API Key。请检查您的配置。"
  else
    match generateContent A (cleanBase64 base64Image) requirements with
    | Resolved text =>
        Resolved (if String.eqb text "" then "AI 未返回结果，请重试。" else text)
    | Rejected error => Rejected error
    end.

Definition with_auditResult (result : option string) (f : ProjectFile)
    : ProjectFile :=
  mkFile (file_id f) (file_name f) (file_blob f) (file_url f) (file_type f)
         (file_masks f) result (file_status f).

(** The updater [performAuditOnIndex] hands to [setFiles].  Past the end
    of [prev] JavaScript would store an object holding the result alone;
    the handlers below take [index] from a list as long as [prev]
    ([audit_keeps_length]), so that the case is not met. *)
Definition setAuditResult (index : nat) (result : string)
    (prev : list ProjectFile) : list ProjectFile :=
  alter (with_auditResult (Some result)) index prev.

(** [performAuditOnIndex] of the render whose [files] and [projectDesc]
    are given: the updater it hands to [setFiles] (none, for a file that
    is no image), or the rejection.  With no file at [index] the read of
    [.type] throws. *)
Definition performAuditOnIndex (A : Auditor) (files : list ProjectFile)
    (projectDesc : string) (index : nat)
    : Settled (list ProjectFile -> list ProjectFile) :=
  match files !! index with
  | None => Rejected "Cannot read properties of undefined (reading 'type')"
  | Some file =>
      if decide (file_type file = image_file) then
        match fetchDataURL A (file_url file) with
        | Rejected reason => Rejected reason
        | Resolved base64data =>
            match auditBlueprint A base64data projectDesc with
            | Rejected error => Rejected error
            | Resolved result => Resolved (setAuditResult index result)
            end
        end
      else Resolved (fun prev => prev)
  end.

(** [handleAudit]; the notifications are display only. *)
Definition handleAudit (A : Auditor) (s : App) : App :=
  if (length (files s) =? 0)%nat then s
  else
    match files s !! currentFileIndex s with
    | None => s
    | Some currentFile =>
        if decide (file_type currentFile = image_file) then
          if negb (audit_api_key A) then s
          else
            match performAuditOnIndex A (files s) (projectDesc s)
                    (currentFileIndex s) with
            | Resolved update => setFiles update s
            | Rejected _ => s
            end
        else s
    end.

(** [files.map((f, i) => ({ file: f, index: i }))], from index [i] on. *)
Fixpoint indexed (i : nat) (l : list ProjectFile) : list (nat * ProjectFile) :=
  match l with
  | [] => []
  | f :: rest => (i, f) :: indexed (S i) rest
  end.

Definition imageFiles (l : list ProjectFile) : list (nat * ProjectFile) :=
  List.filter (fun item => bool_decide (file_type (snd item) = image_file))
              (indexed 0 l).

(** One round of the loop of [handleBatchAudit], in the render whose
    state is [s0]; a failure is logged and the loop goes on. *)
Definition auditItem (A : Auditor) (s0 : App) (s : App)
    (item : nat * ProjectFile) : App :=
  (* Select the file being processed so the user sees progress *)
  let s1 := setCurrentFileIndex (fst item) s in
  match performAuditOnIndex A (files s0) (projectDesc s0) (fst item) with
  | Resolved update => setFiles update s1
  | Rejected _ => s1
  end.

Definition handleBatchAudit (A : Auditor) (s : App) : App :=
  if negb (audit_api_key A) then s
  else
    let items := imageFiles (files s) in
    if (length items =? 0)%nat then s
    else fold_left (auditItem A s) items s.

(** What one audit makes of a file, whatever else is audited with it. *)
Definition audited (A : Auditor) (projectDesc : string) (f : ProjectFile)
    : ProjectFile :=
  if decide (file_type f = image_file) then
    match fetchDataURL A (file_url f) with
    | Rejected _ => f
    | Resolved base64data =>
        match auditBlueprint A base64data projectDesc with
        | Rejected _ => f
        | Resolved result => with_auditResult (Some result) f
        end
    end
  else f.

(** An auditor that cannot read one of the addresses. *)
Definition sampleAuditor : Auditor :=
  mkAuditor true
    (fun url => if String.eqb url "blob:broken"
                then Rejected "Failed to fetch"
                else Resolved ("data:image/png;base64," +:+ url))
    (fun data _ => if String.eqb data "blob:plan" then Resolved ""
                   else Resolved ("| 1 | " +:+ data)).

(** A file as it is when loaded: no mask, no audit, not processed. *)
Definition as_loaded (f : ProjectFile) : Prop :=
  file_masks f = [] /\ file_auditResult f = None /\ file_status f = pending.

(** The member cannot be read, or [processFile] throws on it. *)
Definition member_fails (L : Loader) (m : ZipMember) : Prop :=
  match member_blob m with
  | Rejected _ => True
  | Resolved blob =>
      exists reason,
        processFile L (mkUpload (member_name m) blob) = Rejected reason
  end.

(** A browser in which PDF.js did not load, and an archive of a drawing
    and a PDF. *)
Definition noPdfLoader : Loader :=
  mkLoader (load_now sampleLoader) (load_random sampleLoader)
           (createObjectURL sampleLoader) (readWorkbook sampleLoader)
           false
           (renderPdf sampleLoader)
           (fun _ => Resolved [mkMember "plan.png" false (Resolved [Byte.x01]);
                               mkMember "spec.pdf" false (Resolved [Byte.x02])]).

(** The file has no empty text as audit result. *)
Definition no_empty_audit (f : ProjectFile) : Prop :=
  file_auditResult f <> Some "".

(** * Binary64

    A JavaScript [number] is a binary64 number of IEEE 754, and the
    arithmetic rounds to nearest, ties to even.  Where a property of the
    code depends on that rounding, the computation is embedded a second
    time here, over [spec_float] at 53 bits of precision, the executable
    specification of that arithmetic in the Standard Library. *)

Module Binary64.

Definition number : Type := spec_float.

Definition prec : Z := 53.
Definition emax : Z := 1024.

(** An integer literal below 2^53 in magnitude: it is a number as it
    stands. *)
Definition integer (z : Z) : number := binary_normalize prec emax z 0 false.

Definition add : number -> number -> number := SFadd prec emax.
Definition sub : number -> number -> number := SFsub prec emax.
Definition mul : number -> number -> number := SFmul prec emax.
Definition div : number -> number -> number := SFdiv prec emax.

(** The decimal literal [n / d], [d] a power of ten, as the source text
    and [JSON.parse] read it: the number nearest to the quotient.  The
    division of two integer literals rounds the same exact quotient. *)
Definition decimal (n d : Z) : number := div (integer n) (integer d).

(** [a > b]; false when one of the two is [NaN]. *)
Definition gt (a b : number) : bool := SFltb b a.

(** [a === b] on numbers. *)
Definition eqb (a b : number) : bool := SFeqb a b.

(** The neighbours of a number among the binary64 numbers. *)
Definition pred : number -> number := SFpred prec emax.
Definition succ : number -> number := SFsucc prec emax.

(** [types.ts] *)
Record MaskRect := mkMaskRect {
  mask_id : string;
  mask_x : number;            (* Normalized 0-1 *)
  mask_y : number;
  mask_w : number;
  mask_h : number;
  mask_type : MaskType;
  mask_label : option string
}.

Record AiDetectionResult := mkDetection {
  box_0 : number;   (* ymin *)
  box_1 : number;   (* xmin *)
  box_2 : number;   (* ymax *)
  box_3 : number;   (* xmax *)
  det_label : string
}.

(** The mask [handleAutoDetect] makes of one detection ([App.tsx], the
    callback of [results.map]), with the values [Date.now()] and
    [Math.random()] give for it. *)
Definition detectedMask (now : N) (random : string) (r : AiDetectionResult)
    : MaskRect :=
  mkMaskRect
    ("ai-" +:+ pretty now +:+ "-" +:+ random)
    (if gt (box_1 r) (integer 1)
     then div (box_1 r) (integer 1000) else box_1 r)
    (if gt (box_0 r) (integer 1)
     then div (box_0 r) (integer 1000) else box_0 r)
    (if gt (sub (box_3 r) (box_1 r)) (integer 1)
     then div (sub (box_3 r) (box_1 r)) (integer 1000)
     else sub (box_3 r) (box_1 r))
    (if gt (sub (box_2 r) (box_0 r)) (integer 1)
     then div (sub (box_2 r) (box_0 r)) (integer 1000)
     else sub (box_2 r) (box_0 r))
    ai
    (Some (det_label r)).

(** [a < b]; false when one of the two is [NaN]. *)
Definition lt (a b : number) : bool := SFltb a b.

(** [handleMouseUp] from the test for missing fields to [setMasks]
    ([CanvasEditor.tsx], lines 182 to 193): the mask committed for the
    rectangle [{ x, y, w, h }] in progress, if any. *)
Definition committed (now : N) (x y w h : number) : option MaskRect :=
  (* Normalize negative dims *)
  let '(x, w) := if lt w (integer 0) then (add x w, SFabs w) else (x, w) in
  let '(y, h) := if lt h (integer 0) then (add y h, SFabs h) else (y, h) in
  (* Minimum size threshold to prevent accidental clicks *)
  if gt w (decimal 5 1000) && gt h (decimal 5 1000)
  then Some (mkMaskRect (pretty now) x y w h manual None)
  else None.

(** The two boxes of the design document: [[100, 200, 400, 600]] on the
    scale of 0 to 1000 and [[0.1, 0.2, 0.4, 0.6]] in the unit square. *)
Definition scaledBox (label : string) : AiDetectionResult :=
  mkDetection (integer 100) (integer 200) (integer 400) (integer 600) label.

Definition unitBox (label : string) : AiDetectionResult :=
  mkDetection (decimal 1 10) (decimal 2 10) (decimal 4 10) (decimal 6 10) label.

End Binary64.

(** A pointer at [(x, y)] over a canvas shown at 128 by 128 in the corner
    of the window: the normalised positions of whole pixels are binary
    fractions. *)
Definition pointerOn128 (x y : Q) : MouseEvent := mkMouse x y 0 0 128 128.



(** A project loaded from an archive with a folder: a drawing under
    [drawings/] and a table beside the folder. *)
Definition folderProject : App :=
  mkApp "remove the title block"
        [mkFile "img-1" "drawings/plan.jpg" [] "blob:plan" image_file
                [leftHalf] None pending;
         bomFile]
        0 0.

(** The pointer of the event is over the canvas element, and the element
    has a size. *)
Definition over_canvas (e : MouseEvent) : Prop :=
  0 < rect_width e /\ 0 < rect_height e /\
  rect_left e <= clientX e <= rect_left e + rect_width e /\
  rect_top e <= clientY e <= rect_top e + rect_height e.
Lemma Qltb_lt a b : Qltb a b = true <-> a < b.
Proof.
  unfold Qltb. rewrite negb_true_iff. split.
  - intros H. apply Qnot_le_lt. intros Hle.
    apply Qle_bool_iff in Hle. congruence.
  - intros H. destruct (Qle_bool b a) eqn:E; [|reflexivity].
    apply Qle_bool_iff in E. exfalso. apply (Qlt_not_le _ _ H E).
Qed.

Lemma Qltb_ge a b : Qltb a b = false <-> b <= a.
Proof.
  unfold Qltb. rewrite negb_false_iff. apply Qle_bool_iff.
Qed.

(** * Properties *)

(** ** The canvas *)

Section Overlap.
Variables (lo hi : Q) (i : Z).

Lemma overlap_inside :
  lo <= inject_Z i -> inject_Z i + 1 <= hi -> overlap lo hi i == 1.
Proof.
  intros Hlo Hhi. unfold overlap. rewrite inject_Z_plus.
  change (inject_Z 1) with 1.
  destruct (Q.max_spec lo (inject_Z i)) as [[? E1]|[? E1]],
           (Q.min_spec hi (inject_Z i + 1)) as [[? E2]|[? E2]];
    rewrite E1, E2;
    match goal with
    | |- Qmax 0 ?a == _ =>
        destruct (Q.max_spec 0 a) as [[? E3]|[? E3]]; rewrite E3; lra
    end.
Qed.

Lemma overlap_outside :
  inject_Z i + 1 <= lo \/ hi <= inject_Z i -> overlap lo hi i == 0.
Proof.
  intros Hout. unfold overlap. rewrite inject_Z_plus.
  change (inject_Z 1) with 1.
  destruct (Q.max_spec lo (inject_Z i)) as [[? E1]|[? E1]],
           (Q.min_spec hi (inject_Z i + 1)) as [[? E2]|[? E2]];
    rewrite E1, E2;
    match goal with
    | |- Qmax 0 ?a == _ =>
        destruct (Q.max_spec 0 a) as [[? E3]|[? E3]]; rewrite E3; lra
    end.
Qed.

Lemma overlap_nonneg : 0 <= overlap lo hi i.
Proof. unfold overlap. apply Q.le_max_l. Qed.
End Overlap.

Lemma coverage_inside m img i j :
  pixel_inside m img i j ->
  coverage (mask_x m * inject_Z (naturalWidth img))
           (mask_y m * inject_Z (naturalHeight img))
           (mask_w m * inject_Z (naturalWidth img))
           (mask_h m * inject_Z (naturalHeight img)) i j == 1.
Proof.
  intros (Hl & Hr & Ht & Hb). unfold coverage.
  rewrite (overlap_inside _ _ _ Hl Hr), (overlap_inside _ _ _ Ht Hb). lra.
Qed.

Lemma coverage_outside m img i j :
  pixel_outside m img i j ->
  coverage (mask_x m * inject_Z (naturalWidth img))
           (mask_y m * inject_Z (naturalHeight img))
           (mask_w m * inject_Z (naturalWidth img))
           (mask_h m * inject_Z (naturalHeight img)) i j == 0.
Proof.
  unfold pixel_outside, coverage, box_left, box_right, box_top, box_bottom.
  intros [H|[H|[H|H]]].
  - rewrite (overlap_outside _ _ i) by (left; exact H). lra.
  - rewrite (overlap_outside _ _ i) by (right; exact H). lra.
  - rewrite (overlap_outside _ _ j) by (left; exact H). lra.
  - rewrite (overlap_outside _ _ j) by (right; exact H). lra.
Qed.

Section FillRect.
Variables (blend : Q -> Color -> Color) (x y w h : Q) (c : Canvas).

Lemma fillRect_width : canvas_width (fillRect blend x y w h c) = canvas_width c.
Proof. reflexivity. Qed.

Lemma fillRect_height :
  canvas_height (fillRect blend x y w h c) = canvas_height c.
Proof. reflexivity. Qed.

Lemma fillRect_covered i j :
  in_bounds (canvas_width c) (canvas_height c) i j = true ->
  coverage x y w h i j == 1 ->
  canvas_px (fillRect blend x y w h c) i j = black.
Proof.
  intros Hin Hcov. simpl. rewrite Hin.
  apply Qeq_bool_iff in Hcov. rewrite Hcov. reflexivity.
Qed.

Lemma fillRect_untouched i j :
  coverage x y w h i j == 0 ->
  canvas_px (fillRect blend x y w h c) i j = canvas_px c i j.
Proof.
  intros Hcov. simpl.
  destruct (in_bounds _ _ i j); [|reflexivity].
  destruct (Qeq_bool (coverage x y w h i j) 1) eqn:E1.
  - apply Qeq_bool_iff in E1. rewrite Hcov in E1. discriminate.
  - assert (Hle : Qle_bool (coverage x y w h i j) 0 = true).
    { apply Qle_bool_iff. rewrite Hcov. apply Qle_refl. }
    rewrite Hle. reflexivity.
Qed.

Lemma fillRect_black i j :
  (forall cov, blend cov black = black) ->
  canvas_px c i j = black ->
  canvas_px (fillRect blend x y w h c) i j = black.
Proof.
  intros Hblend Hpx. simpl. rewrite Hpx.
  repeat match goal with |- (if ?b then _ else _) = _ => destruct b end;
    auto.
Qed.
End FillRect.

(** ** The export composite *)

Section Composite.
Variables (P : Platform) (img : Image).
Hypothesis blend_ok : blend_keeps_fill P.

Let paint (c : Canvas) (mask : MaskRect) : Canvas :=
  fillRect (antialias P)
    (mask_x mask * inject_Z (naturalWidth img))
    (mask_y mask * inject_Z (naturalHeight img))
    (mask_w mask * inject_Z (naturalWidth img))
    (mask_h mask * inject_Z (naturalHeight img)) c.

Lemma paint_all_size masks c :
  canvas_width (fold_left paint masks c) = canvas_width c /\
  canvas_height (fold_left paint masks c) = canvas_height c.
Proof.
  revert c. induction masks as [|m masks IH]; intros c; simpl; [auto|].
  destruct (IH (paint c m)) as [Hw Hh]. rewrite Hw, Hh. auto.
Qed.

Lemma paint_all_black masks c i j :
  canvas_px c i j = black -> canvas_px (fold_left paint masks c) i j = black.
Proof using blend_ok.
  revert c. induction masks as [|m masks IH]; intros c Hpx; simpl; [auto|].
  apply IH. apply fillRect_black; [exact blend_ok | exact Hpx].
Qed.

Lemma paint_all_outside masks c i j :
  (forall m, m ∈ masks -> pixel_outside m img i j) ->
  canvas_px (fold_left paint masks c) i j = canvas_px c i j.
Proof.
  revert c. induction masks as [|m masks IH]; intros c Hout; simpl; [auto|].
  rewrite IH.
  - apply fillRect_untouched, coverage_outside, Hout. left.
  - intros m' Hm'. apply Hout. right. exact Hm'.
Qed.

Lemma paint_all_inside masks c i j :
  in_bounds (canvas_width c) (canvas_height c) i j = true ->
  (exists m, m ∈ masks /\ pixel_inside m img i j) ->
  canvas_px (fold_left paint masks c) i j = black.
Proof using blend_ok.
  revert c. induction masks as [|m masks IH]; intros c Hin [m0 [Hm0 Hins]].
  - inversion Hm0.
  - simpl. apply elem_of_cons in Hm0 as [->|Hm0].
    + apply paint_all_black. apply fillRect_covered; [exact Hin|].
      apply coverage_inside. exact Hins.
    + apply IH; [exact Hin | exists m0; auto].
Qed.

Lemma drawImage_shows i j :
  in_bounds (naturalWidth img) (naturalHeight img) i j = true ->
  canvas_px (drawImage img
               (createCanvas (naturalWidth img) (naturalHeight img))) i j
  = image_px img i j.
Proof. intros Hin. simpl. rewrite Hin. reflexivity. Qed.
End Composite.

Lemma full_image_inside m img i j :
  full_image m ->
  in_bounds (naturalWidth img) (naturalHeight img) i j = true ->
  pixel_inside m img i j.
Proof.
  intros (Hx & Hy & Hw & Hh) Hin. unfold in_bounds in Hin.
  repeat (apply andb_prop in Hin as [Hin ?]).
  assert (Hi : 0 <= inject_Z i /\ inject_Z i + 1 <= inject_Z (naturalWidth img)).
  { split.
    - change 0 with (inject_Z 0). rewrite <- Zle_Qle. lia.
    - change 1 with (inject_Z 1). rewrite <- inject_Z_plus, <- Zle_Qle. lia. }
  assert (Hj : 0 <= inject_Z j /\ inject_Z j + 1 <= inject_Z (naturalHeight img)).
  { split.
    - change 0 with (inject_Z 0). rewrite <- Zle_Qle. lia.
    - change 1 with (inject_Z 1). rewrite <- inject_Z_plus, <- Zle_Qle. lia. }
  destruct Hi as [Hi0 Hi1], Hj as [Hj0 Hj1].
  unfold pixel_inside, box_left, box_right, box_top, box_bottom.
  rewrite Hx, Hy, Hw, Hh.
  set (W := inject_Z (naturalWidth img)) in *.
  set (H' := inject_Z (naturalHeight img)) in *.
  destruct (Q.min_spec (0 * W) (0 * W + 1 * W)) as [[? E1]|[? E1]],
           (Q.max_spec (0 * W) (0 * W + 1 * W)) as [[? E2]|[? E2]],
           (Q.min_spec (0 * H') (0 * H' + 1 * H')) as [[? E3]|[? E3]],
           (Q.max_spec (0 * H') (0 * H' + 1 * H')) as [[? E4]|[? E4]];
    rewrite E1, E2, E3, E4; repeat split; lra.
Qed.

Lemma samplePlatform_blend : blend_keeps_fill samplePlatform.
Proof.
  intros cov. unfold samplePlatform, blend8, black.
  cbn [antialias red green blue alpha].
  assert (E0 : (1 - cov) * inject_Z 0 == inject_Z 0)
    by (change (inject_Z 0) with 0; lra).
  assert (E1 : cov * 255 + (1 - cov) * inject_Z 255 == inject_Z 255)
    by (change (inject_Z 255) with 255; lra).
  rewrite (Qfloor_comp _ _ E0), (Qfloor_comp _ _ E1), !Qfloor_Z. reflexivity.
Qed.

(** C1. The full-resolution export composite, which both export paths build
    and encode, has the pixel dimensions of the image, shows the image at
    every pixel outside all mask boxes and is opaque black at every pixel
    inside a mask box; with no mask it is the image, and under one mask over
    the whole image every pixel is black whatever the image was. *)
Theorem export_composite_redacts (P : Platform) (img : Image)
    (masks : list MaskRect) :
  blend_keeps_fill P ->
  let c := composite P img masks in
  let W := naturalWidth img in
  let H := naturalHeight img in
  (forall s trigger now,
      ed_image s = Some img -> ed_masks s = masks -> (0 < trigger)%nat ->
      getContext P (createCanvas W H) = true ->
      exportEffect P trigger now s
      = Some (c, mkDownload ("desensitized_" +:+ pretty now +:+ ".png")
                            (toDataURL P c))) /\
  (forall (file : ProjectFile) blob,
      file_type file = image_file ->
      loadImage P (file_url file) = Some img ->
      file_masks file = masks ->
      getContext P (createCanvas W H) = true ->
      toBlob P c = Some blob ->
      processImageForExport P file = Resolved blob) /\
  canvas_width c = W /\ canvas_height c = H /\
  (forall i j,
      in_bounds W H i j = true ->
      (forall m, m ∈ masks -> pixel_outside m img i j) ->
      canvas_px c i j = image_px img i j) /\
  (forall i j,
      in_bounds W H i j = true ->
      (exists m, m ∈ masks /\ pixel_inside m img i j) ->
      canvas_px c i j = black) /\
  (forall i j,
      in_bounds W H i j = true ->
      canvas_px (composite P img []) i j = image_px img i j) /\
  (forall m img' i j,
      full_image m ->
      naturalWidth img' = W -> naturalHeight img' = H ->
      in_bounds W H i j = true ->
      canvas_px (composite P img [m]) i j = black /\
      canvas_px (composite P img' [m]) i j = canvas_px (composite P img [m]) i j).
Proof.
  intros Hblend c W H.
  assert (Hsize : canvas_width c = W /\ canvas_height c = H).
  { unfold c, composite. apply paint_all_size. }
  repeat split.
  - intros s trigger now Himg Hmasks Htrig Hctx.
    subst c W H. unfold exportEffect. rewrite Himg.
    apply Nat.ltb_lt in Htrig. rewrite Htrig. cbv zeta.
    rewrite Hctx, Hmasks. reflexivity.
  - intros file blob Hty Hload Hmasks Hctx Hblob.
    unfold processImageForExport.
    destruct (decide (file_type file = image_file)); [|contradiction].
    subst c W H. unfold composite in Hblob.
    rewrite Hload. cbv zeta. rewrite Hctx, Hmasks, Hblob. reflexivity.
  - apply Hsize.
  - apply Hsize.
  - intros i j Hin Hout. unfold c, composite.
    rewrite paint_all_outside by exact Hout.
    apply drawImage_shows. exact Hin.
  - intros i j Hin Hins. unfold c, composite.
    apply paint_all_inside; [exact Hblend | exact Hin | exact Hins].
  - intros i j Hin. unfold composite. simpl fold_left.
    apply drawImage_shows. exact Hin.
  - unfold composite. apply paint_all_inside; [exact Hblend | assumption |].
    exists m. split; [left | apply full_image_inside; assumption].
  - assert (Hb : forall im, naturalWidth im = W -> naturalHeight im = H ->
                 canvas_px (composite P im [m]) i j = black).
    { intros im Hw Hh. unfold composite.
      apply paint_all_inside; [exact Hblend | simpl; rewrite Hw, Hh; assumption |].
      exists m. split; [left|].
      apply full_image_inside; [assumption | rewrite Hw, Hh; assumption]. }
    rewrite (Hb img) by reflexivity. apply Hb; assumption.
Qed.

Lemma export_composite_redacts_witness :
  blend_keeps_fill samplePlatform /\
  canvas_px (composite samplePlatform sampleImage [leftHalf]) 0 0 = black /\
  canvas_px (composite samplePlatform sampleImage [leftHalf]) 1 1
  = image_px sampleImage 1 1.
Proof.
  split; [exact samplePlatform_blend|].
  destruct (export_composite_redacts samplePlatform sampleImage [leftHalf]
              samplePlatform_blend)
    as (_ & _ & _ & _ & Hout & Hin & _).
  split.
  - apply Hin; [reflexivity|]. exists leftHalf. split; [left|].
    unfold pixel_inside, box_left, box_right, box_top, box_bottom; simpl.
    repeat split; apply Qle_bool_iff; reflexivity.
  - apply Hout; [reflexivity|]. intros m Hm.
    apply list_elem_of_singleton in Hm as ->.
    unfold pixel_outside, box_left, box_right, box_top, box_bottom; simpl.
    right; left. apply Qle_bool_iff. reflexivity.
Defined.

(** ** The editor: the end of a drag *)

(** What [handleMouseUp] does to the masks: nothing, or it appends the
    rectangle in progress, normalised, when that is large enough. *)
Lemma handleMouseUp_cases now s :
  ed_masks (handleMouseUp now s) = ed_masks s \/
  exists x y w h,
    ed_mode s = DRAW /\
    ed_currentRect s = Some (mkPartial (Some x) (Some y) (Some w) (Some h)) /\
    let x' := if Qltb w 0 then x + w else x in
    let w' := if Qltb w 0 then Qabs w else w in
    let y' := if Qltb h 0 then y + h else y in
    let h' := if Qltb h 0 then Qabs h else h in
    threshold < w' /\ threshold < h' /\
    ed_masks (handleMouseUp now s)
    = ed_masks s ++ [mkMaskRect (pretty now) x' y' w' h' manual None].
Proof.
  unfold handleMouseUp.
  destruct (ed_mode s) eqn:Hmode; [left; reflexivity|].
  destruct (ed_currentRect s) as [[[x|] [y|] [w|] [h|]]|] eqn:Hrect;
    try (left; reflexivity).
  cbn [part_x part_y part_w part_h].
  destruct (Qltb w 0) eqn:Hw, (Qltb h 0) eqn:Hh;
    match goal with
    | |- context [Qltb threshold ?a && Qltb threshold ?b] =>
        destruct (Qltb threshold a) eqn:Ha;
        [destruct (Qltb threshold b) eqn:Hb|]
    end;
    try (left; reflexivity);
    right; exists x, y, w, h; rewrite ?Hw, ?Hh;
    apply Qltb_lt in Ha, Hb; repeat split; auto.
Qed.

(** A rectangle with an extent below the threshold is dropped. *)
Lemma handleMouseUp_small now s x y w h :
  ed_currentRect s = Some (mkPartial (Some x) (Some y) (Some w) (Some h)) ->
  Qabs w <= threshold \/ Qabs h <= threshold ->
  ed_masks (handleMouseUp now s) = ed_masks s.
Proof.
  intros Hrect Hsmall.
  destruct (handleMouseUp_cases now s)
    as [Hsame | (x0 & y0 & w0 & h0 & _ & Hrect' & Hw & Hh & _)];
    [exact Hsame|].
  rewrite Hrect in Hrect'. injection Hrect' as <- <- <- <-.
  exfalso. cbv zeta in Hw, Hh.
  destruct (Qltb w 0) eqn:Ew, (Qltb h 0) eqn:Eh;
    try apply Qltb_lt in Ew; try apply Qltb_ge in Ew;
    try apply Qltb_lt in Eh; try apply Qltb_ge in Eh;
    destruct Hsmall as [Hs|Hs]; try lra;
    rewrite Qabs_pos in Hs by lra; lra.
Qed.

(** Moving the pointer during a draw keeps the anchor and follows the
    pointer with the extents. *)
Lemma moves_follow_pointer moves : forall s x0 y0 w h e,
  ed_mode s = DRAW ->
  isDown (ed_drag s) = true ->
  ed_currentRect s = Some (mkPartial (Some x0) (Some y0) (Some w) (Some h)) ->
  let s' := fold_left dispatch (map MouseMove moves) s in
  ed_mode s' = DRAW /\ ed_masks s' = ed_masks s /\
  ed_currentRect s'
  = Some (mkPartial (Some x0) (Some y0)
            (Some match moves with
                  | [] => w
                  | _ => fst (getNormalizedPos (List.last moves e)) - x0
                  end)
            (Some match moves with
                  | [] => h
                  | _ => snd (getNormalizedPos (List.last moves e)) - y0
                  end)).
Proof.
  induction moves as [|e1 moves IH]; intros s x0 y0 w h e Hmode Hdown Hrect.
  - simpl. auto.
  - cbn [map fold_left dispatch].
    assert (Hstep : handleMouseMove e1 s
            = setCurrentRect
                (Some (mkPartial (Some x0) (Some y0)
                         (Some (fst (getNormalizedPos e1) - x0))
                         (Some (snd (getNormalizedPos e1) - y0)))) s).
    { unfold handleMouseMove. rewrite Hdown, Hmode, Hrect. simpl.
      reflexivity. }
    rewrite Hstep.
    specialize (IH (setCurrentRect
                      (Some (mkPartial (Some x0) (Some y0)
                               (Some (fst (getNormalizedPos e1) - x0))
                               (Some (snd (getNormalizedPos e1) - y0)))) s)
                   x0 y0 _ _ e Hmode Hdown eq_refl).
    destruct IH as (IHm & IHk & IHr). split; [exact IHm|].
    split; [exact IHk|]. rewrite IHr.
    destruct moves as [|e2 moves]; reflexivity.
Qed.

(** A drag in draw mode ends in [handleMouseUp] on a state whose rectangle
    in progress runs from the point of the press to the last point of the
    pointer. *)
Lemma drag_reaches_release s e0 moves now img :
  ed_mode s = DRAW -> ed_image s = Some img ->
  exists moved w h,
    play s (drag e0 moves now) = handleMouseUp now moved /\
    ed_masks moved = ed_masks s /\
    ed_currentRect moved
    = Some (mkPartial (Some (fst (getNormalizedPos e0)))
                      (Some (snd (getNormalizedPos e0))) (Some w) (Some h)) /\
    w == fst (getNormalizedPos (List.last moves e0)) - fst (getNormalizedPos e0) /\
    h == snd (getNormalizedPos (List.last moves e0)) - snd (getNormalizedPos e0).
Proof.
  intros Hmode Himg.
  destruct (getNormalizedPos e0) as [x0 y0] eqn:Hp0.
  set (pressed := handleMouseDown e0 s).
  assert (Hpressed : ed_mode pressed = DRAW /\ isDown (ed_drag pressed) = true
                     /\ ed_masks pressed = ed_masks s
                     /\ ed_currentRect pressed
                        = Some (mkPartial (Some x0) (Some y0) (Some 0) (Some 0))).
  { unfold pressed, handleMouseDown. rewrite Himg, Hmode, Hp0. simpl. auto. }
  destruct Hpressed as (Hpm & Hpd & Hpk & Hpr).
  destruct (moves_follow_pointer moves pressed x0 y0 0 0 e0 Hpm Hpd Hpr)
    as (Hmm & Hmk & Hmr).
  set (moved := fold_left dispatch (map MouseMove moves) pressed) in *.
  eexists moved, _, _. split.
  { unfold play, drag. cbn [fold_left dispatch].
    rewrite fold_left_app. reflexivity. }
  split; [rewrite Hmk; exact Hpk|]. split; [exact Hmr|].
  cbn [fst snd].
  destruct moves as [|e1 moves].
  - change (List.last [] e0) with e0. rewrite Hp0. simpl. split; lra.
  - split; reflexivity.
Qed.



(** A press in draw mode followed by moves, the last of them at [e1],
    leaves the rectangle from the point of the press to the point of
    [e1]. *)
Lemma drag_reaches_last_move s e0 moves e1 now img :
  ed_mode s = DRAW -> ed_image s = Some img ->
  exists moved,
    play s (drag e0 (moves ++ [e1]) now) = handleMouseUp now moved /\
    ed_mode moved = DRAW /\
    ed_masks moved = ed_masks s /\
    ed_currentRect moved
    = Some (mkPartial
              (Some (fst (getNormalizedPos e0)))
              (Some (snd (getNormalizedPos e0)))
              (Some (fst (getNormalizedPos e1) - fst (getNormalizedPos e0)))
              (Some (snd (getNormalizedPos e1) - snd (getNormalizedPos e0)))).
Proof.
  intros Hmode Himg.
  destruct (getNormalizedPos e0) as [x0 y0] eqn:Hp0.
  set (pressed := handleMouseDown e0 s).
  assert (Hpressed : ed_mode pressed = DRAW /\ isDown (ed_drag pressed) = true
                     /\ ed_masks pressed = ed_masks s
                     /\ ed_currentRect pressed
                        = Some (mkPartial (Some x0) (Some y0) (Some 0) (Some 0))).
  { unfold pressed, handleMouseDown. rewrite Himg, Hmode, Hp0. simpl. auto. }
  destruct Hpressed as (Hpm & Hpd & Hpk & Hpr).
  destruct (moves_follow_pointer (moves ++ [e1]) pressed x0 y0 0 0 e0
              Hpm Hpd Hpr) as (Hmm & Hmk & Hmr).
  exists (fold_left dispatch (map MouseMove (moves ++ [e1])) pressed).
  split.
  { unfold play, drag. cbn [fold_left dispatch]. fold pressed.
    rewrite fold_left_app. reflexivity. }
  split; [exact Hmm|]. split; [rewrite Hmk; exact Hpk|].
  rewrite Hmr, last_last. cbn [fst snd].
  destruct moves; reflexivity.
Qed.



(** ** The normalisation of a drag in binary64 *)

(** A number above the threshold is positive. *)
Lemma above_threshold_positive (a : Binary64.number) :
  Binary64.gt a (Binary64.decimal 5 1000) = true ->
  SFleb (Binary64.integer 0) a = true.
Proof.
  unfold Binary64.gt.
  let t := eval vm_compute in (Binary64.decimal 5 1000) in
  change (Binary64.decimal 5 1000) with t.
  change (Binary64.integer 0) with (S754_zero false).
  destruct a as [s|s| |s m e]; try discriminate.
  - destruct s; [discriminate | reflexivity].
  - destruct s; [discriminate | reflexivity].
Qed.

(** Below zero the absolute value is the opposite. *)
Lemma abs_of_negative (a : Binary64.number) :
  Binary64.lt a (Binary64.integer 0) = true -> SFabs a = SFopp a.
Proof.
  unfold Binary64.lt. change (Binary64.integer 0) with (S754_zero false).
  destruct a as [s|s| |s m e]; try discriminate;
    destruct s; try discriminate; reflexivity.
Qed.

(** The committed rectangle with the arithmetic of the code: the extents
    are not negative, and the corner is the anchor, or the binary64 sum of
    the anchor and a negative extent, whose opposite is then the extent. *)
Lemma committed_normalized (now : N) (x y w h : Binary64.number)
    (m : Binary64.MaskRect) :
  Binary64.committed now x y w h = Some m ->
  SFleb (Binary64.integer 0) (Binary64.mask_w m) = true /\
  SFleb (Binary64.integer 0) (Binary64.mask_h m) = true /\
  (Binary64.lt w (Binary64.integer 0) = true ->
   Binary64.mask_x m = Binary64.add x w /\ Binary64.mask_w m = SFopp w) /\
  (Binary64.lt w (Binary64.integer 0) = false ->
   Binary64.mask_x m = x /\ Binary64.mask_w m = w) /\
  (Binary64.lt h (Binary64.integer 0) = true ->
   Binary64.mask_y m = Binary64.add y h /\ Binary64.mask_h m = SFopp h) /\
  (Binary64.lt h (Binary64.integer 0) = false ->
   Binary64.mask_y m = y /\ Binary64.mask_h m = h).
Proof.
  unfold Binary64.committed.
  remember (Binary64.decimal 5 1000) as thr eqn:Hthr.
  remember (Binary64.integer 0) as zero eqn:Hzero.
  destruct (Binary64.lt w zero) eqn:Ew.
  - destruct (Binary64.lt h zero) eqn:Eh.
    + destruct (Binary64.gt (SFabs w) thr) eqn:Ha; [|discriminate].
      destruct (Binary64.gt (SFabs h) thr) eqn:Hb; [|discriminate].
      intros [= <-]. subst thr zero.
      cbn [Binary64.mask_x Binary64.mask_y Binary64.mask_w Binary64.mask_h].
      split; [exact (above_threshold_positive _ Ha)|].
      split; [exact (above_threshold_positive _ Hb)|].
      rewrite (abs_of_negative w Ew), (abs_of_negative h Eh).
      repeat split; discriminate.
    + destruct (Binary64.gt (SFabs w) thr) eqn:Ha; [|discriminate].
      destruct (Binary64.gt h thr) eqn:Hb; [|discriminate].
      intros [= <-]. subst thr zero.
      cbn [Binary64.mask_x Binary64.mask_y Binary64.mask_w Binary64.mask_h].
      split; [exact (above_threshold_positive _ Ha)|].
      split; [exact (above_threshold_positive _ Hb)|].
      rewrite (abs_of_negative w Ew).
      repeat split; discriminate.
  - destruct (Binary64.lt h zero) eqn:Eh.
    + destruct (Binary64.gt w thr) eqn:Ha; [|discriminate].
      destruct (Binary64.gt (SFabs h) thr) eqn:Hb; [|discriminate].
      intros [= <-]. subst thr zero.
      cbn [Binary64.mask_x Binary64.mask_y Binary64.mask_w Binary64.mask_h].
      split; [exact (above_threshold_positive _ Ha)|].
      split; [exact (above_threshold_positive _ Hb)|].
      rewrite (abs_of_negative h Eh).
      repeat split; discriminate.
    + destruct (Binary64.gt w thr) eqn:Ha; [|discriminate].
      destruct (Binary64.gt h thr) eqn:Hb; [|discriminate].
      intros [= <-]. subst thr zero.
      cbn [Binary64.mask_x Binary64.mask_y Binary64.mask_w Binary64.mask_h].
      split; [exact (above_threshold_positive _ Ha)|].
      split; [exact (above_threshold_positive _ Hb)|].
      repeat split; discriminate.
Qed.

(** The drag from (80, 60) to (20, 30) over a canvas of 100 by 100: the
    anchor is [0.8], the extent [0.2 - 0.8], and the committed corner is
    their sum, two numbers below [0.2], the position of the pointer. *)
Lemma committed_corner_rounds :
  let x0 := Binary64.div (Binary64.integer 80) (Binary64.integer 100) in
  let x1 := Binary64.div (Binary64.integer 20) (Binary64.integer 100) in
  let y0 := Binary64.div (Binary64.integer 60) (Binary64.integer 100) in
  let y1 := Binary64.div (Binary64.integer 30) (Binary64.integer 100) in
  option_map Binary64.mask_x
    (Binary64.committed 1700000000000 x0 y0
       (Binary64.sub x1 x0) (Binary64.sub y1 y0))
  = Some (Binary64.pred (Binary64.pred x1)) /\
  Binary64.eqb (Binary64.pred (Binary64.pred x1)) x1 = false.
Proof. vm_compute. split; reflexivity. Qed.

(** C3. The end of a drag commits a rectangle, of origin manual, only if
    both normalised extents exceed 0.005; when the absolute width or the
    absolute height of the drag is below 0.005 nothing is committed and the
    masks stay as they were. *)
Theorem small_drag_commits_nothing (now : N) (s : Editor) :
  (ed_masks (handleMouseUp now s) = ed_masks s \/
   exists m, ed_masks (handleMouseUp now s) = ed_masks s ++ [m]) /\
  (forall m,
     ed_masks (handleMouseUp now s) = ed_masks s ++ [m] ->
     mask_type m = manual /\ 5 # 1000 < mask_w m /\ 5 # 1000 < mask_h m) /\
  (forall x y w h,
     ed_currentRect s = Some (mkPartial (Some x) (Some y) (Some w) (Some h)) ->
     Qabs w < 5 # 1000 \/ Qabs h < 5 # 1000 ->
     ed_masks (handleMouseUp now s) = ed_masks s) /\
  (forall e0 moves img,
     ed_mode s = DRAW -> ed_image s = Some img ->
     let '(x0, y0) := getNormalizedPos e0 in
     let '(x1, y1) := getNormalizedPos (List.last moves e0) in
     Qabs (x1 - x0) < 5 # 1000 \/ Qabs (y1 - y0) < 5 # 1000 ->
     ed_masks (play s (drag e0 moves now)) = ed_masks s).
Proof.
  repeat split.
  - destruct (handleMouseUp_cases now s)
      as [Hsame | (x & y & w & h & _ & _ & _ & _ & Hm)]; [left|right]; eauto.
  - destruct (handleMouseUp_cases now s)
      as [Hsame | (x & y & w & h & _ & _ & _ & _ & Hm)].
    + rewrite Hsame in H. apply (f_equal length) in H.
      rewrite length_app in H. simpl in H. lia.
    + rewrite Hm in H. apply app_inv_head in H. injection H as <-.
      reflexivity.
  - destruct (handleMouseUp_cases now s)
      as [Hsame | (x & y & w & h & _ & _ & Hw & _ & Hm)].
    + rewrite Hsame in H. apply (f_equal length) in H.
      rewrite length_app in H. simpl in H. lia.
    + rewrite Hm in H. apply app_inv_head in H. injection H as <-.
      exact Hw.
  - destruct (handleMouseUp_cases now s)
      as [Hsame | (x & y & w & h & _ & _ & _ & Hh & Hm)].
    + rewrite Hsame in H. apply (f_equal length) in H.
      rewrite length_app in H. simpl in H. lia.
    + rewrite Hm in H. apply app_inv_head in H. injection H as <-.
      exact Hh.
  - intros x y w h Hrect Hsmall.
    apply (handleMouseUp_small now s x y w h Hrect).
    unfold threshold. destruct Hsmall; [left|right]; lra.
  - intros e0 moves img Hmode Himg.
    destruct (drag_reaches_release s e0 moves now img Hmode Himg)
      as (moved & w & h & Hs' & Hk & Hr & Ew & Eh).
    destruct (getNormalizedPos e0) as [x0 y0].
    destruct (getNormalizedPos (List.last moves e0)) as [x1 y1].
    cbn [fst snd] in *. intros Hsmall.
    rewrite Hs', <- Hk.
    apply (handleMouseUp_small now moved _ _ w h Hr).
    unfold threshold. rewrite Ew, Eh. destruct Hsmall; [left|right]; lra.
Qed.

Lemma small_drag_commits_nothing_witness :
  ed_mode (idleEditor DRAW) = DRAW /\
  ed_image (idleEditor DRAW) = Some sampleImage /\
  (let '(x0, y0) := getNormalizedPos (pointerAt 50 50) in
   let '(x1, y1) := getNormalizedPos (List.last [pointerAt (502 # 10) 90]
                                        (pointerAt 50 50)) in
   Qabs (x1 - x0) < 5 # 1000 \/ Qabs (y1 - y0) < 5 # 1000) /\
  ed_masks (play (idleEditor DRAW)
              (drag (pointerAt 50 50) [pointerAt (502 # 10) 90] 1700000000000))
  = ed_masks (idleEditor DRAW).
Proof.
  split; [reflexivity|]. split; [reflexivity|].
  assert (Hsmall :
    let '(x0, y0) := getNormalizedPos (pointerAt 50 50) in
    let '(x1, y1) := getNormalizedPos (List.last [pointerAt (502 # 10) 90]
                                         (pointerAt 50 50)) in
    Qabs (x1 - x0) < 5 # 1000 \/ Qabs (y1 - y0) < 5 # 1000).
  { simpl. left. reflexivity. }
  split; [exact Hsmall|].
  exact (proj2 (proj2 (proj2
           (small_drag_commits_nothing 1700000000000 (idleEditor DRAW))))
           (pointerAt 50 50) [pointerAt (502 # 10) 90] sampleImage
           eq_refl eq_refl Hsmall).
Defined.

(** ** The editor: a press during a drag *)

(** C8, as stated, fails: in the middle of a draw a second press moves the
    recorded anchor and restarts the rectangle in progress; in the middle of
    a pan it records a new pan reference. *)
Lemma pointer_down_during_drag_not_ignored :
  interaction drawingEditor = Drawing /\
  interaction panningEditor = Panning /\
  ed_currentRect drawingEditor
  = Some (mkPartial (Some ((20 - 0) / 100)) (Some ((20 - 0) / 100))
            (Some ((60 - 0) / 100 - (20 - 0) / 100))
            (Some ((50 - 0) / 100 - (20 - 0) / 100))) /\
  ed_currentRect (handleMouseDown (pointerAt 70 10) drawingEditor)
  = Some (mkPartial (Some ((70 - 0) / 100)) (Some ((10 - 0) / 100))
            (Some 0) (Some 0)) /\
  startX (ed_drag drawingEditor) = 20 /\
  startX (ed_drag (handleMouseDown (pointerAt 70 10) drawingEditor)) = 70 /\
  scrollLeft (ed_drag panningEditor) = 0 /\
  scrollLeft (ed_drag (handleMouseDown (pointerAt 30 40) panningEditor))
  = 0 - (30 - 50).
Proof. repeat split. Qed.

(** C8, amended. A press is handled the same whether or not a drag is in
    progress: with an image loaded it records the pointer as the anchor of
    the drag, in draw mode it replaces the rectangle in progress by an empty
    one at the pointer, in pan mode it records the scroll offsets of the
    container as the pan reference; the masks are not touched.  Only with no
    image loaded is a press ignored. *)
Theorem pointer_down_restarts_drag (e : MouseEvent) (s : Editor) :
  (ed_image s = None -> handleMouseDown e s = s) /\
  (forall img, ed_image s = Some img ->
     let s' := handleMouseDown e s in
     isDown (ed_drag s') = true /\
     startX (ed_drag s') = clientX e /\ startY (ed_drag s') = clientY e /\
     ed_masks s' = ed_masks s /\
     (ed_mode s = DRAW ->
      ed_currentRect s'
      = Some (mkPartial (Some (fst (getNormalizedPos e)))
                        (Some (snd (getNormalizedPos e))) (Some 0) (Some 0))) /\
     (ed_mode s = PAN ->
      ed_currentRect s' = ed_currentRect s /\
      forall sl st, ed_container s = Some (sl, st) ->
                    scrollLeft (ed_drag s') = sl /\ scrollTop (ed_drag s') = st)) /\
  (forall img, ed_image s = Some img ->
     handleMouseDown e (set_drag (release (ed_drag s)) s) = handleMouseDown e s).
Proof.
  split; [|split].
  - intros Himg. unfold handleMouseDown. rewrite Himg. reflexivity.
  - intros img Himg. unfold handleMouseDown. rewrite Himg.
    destruct (ed_mode s) eqn:Hmode, (ed_container s) as [[sl st]|] eqn:Hc;
      cbn; repeat split; try discriminate; try reflexivity;
      intros; try discriminate;
      match goal with
      | H : Some _ = Some _ |- _ => injection H as <- <-; reflexivity
      end.
  - intros img Himg. unfold handleMouseDown. cbn. rewrite Himg.
    destruct (ed_mode s), (ed_container s) as [[sl st]|]; reflexivity.
Qed.

Lemma pointer_down_restarts_drag_witness :
  ed_image drawingEditor = Some sampleImage /\
  ed_mode drawingEditor = DRAW /\
  startX (ed_drag (handleMouseDown (pointerAt 70 10) drawingEditor)) = 70 /\
  ed_currentRect (handleMouseDown (pointerAt 70 10) drawingEditor)
  = Some (mkPartial (Some (fst (getNormalizedPos (pointerAt 70 10))))
                    (Some (snd (getNormalizedPos (pointerAt 70 10))))
                    (Some 0) (Some 0)).
Proof.
  split; [reflexivity|]. split; [reflexivity|].
  destruct (proj1 (proj2 (pointer_down_restarts_drag (pointerAt 70 10)
                            drawingEditor)) sampleImage eq_refl)
    as (_ & Hx & _ & _ & Hdraw & _).
  split; [exact Hx | exact (Hdraw eq_refl)].
Defined.

(** ** Detection *)

(** For the box in the unit square the code's own subtraction misses the
    values of the scaled box: [0.6 - 0.2] and [0.4 - 0.1] are not the
    numbers [0.4] and [0.3]. *)
Lemma unit_box_extents_differ :
  let scaled := Binary64.detectedMask 1700000000000 "0.25"
                  (Binary64.scaledBox "title block") in
  let unit := Binary64.detectedMask 1700000000000 "0.25"
                (Binary64.unitBox "title block") in
  Binary64.eqb (Binary64.mask_w unit) (Binary64.mask_w scaled) = false /\
  Binary64.eqb (Binary64.mask_h unit) (Binary64.mask_h scaled) = false /\
  Binary64.eqb (Binary64.mask_w unit) (Binary64.decimal 4 10) = false /\
  Binary64.eqb (Binary64.mask_h unit) (Binary64.decimal 3 10) = false.
Proof. vm_compute. repeat split. Qed.

(** C4. A detected box [ymin, xmin, ymax, xmax] is normalised component by
    component: each of x = xmin, y = ymin, w = xmax - xmin and
    h = ymax - ymin, the differences as binary64 subtraction gives them, is
    divided by 1000 exactly when its own value exceeds 1.  The box
    [100, 200, 400, 600] gives x = 0.2, y = 0.1, w = 0.4, h = 0.3.  The box
    [0.1, 0.2, 0.4, 0.6] gives, undivided, x = 0.2, y = 0.1 and the
    differences w = 0.6 - 0.2 and h = 0.4 - 0.1, which are the binary64
    numbers next below 0.4 and next above 0.3. *)
Theorem detection_normalized_per_component (now : N) (random : string)
    (r : Binary64.AiDetectionResult) :
  let m := Binary64.detectedMask now random r in
  let one := Binary64.integer 1 in
  let thousand := Binary64.integer 1000 in
  let w := Binary64.sub (Binary64.box_3 r) (Binary64.box_1 r) in
  let h := Binary64.sub (Binary64.box_2 r) (Binary64.box_0 r) in
  (Binary64.gt (Binary64.box_1 r) one = true ->
   Binary64.mask_x m = Binary64.div (Binary64.box_1 r) thousand) /\
  (Binary64.gt (Binary64.box_1 r) one = false ->
   Binary64.mask_x m = Binary64.box_1 r) /\
  (Binary64.gt (Binary64.box_0 r) one = true ->
   Binary64.mask_y m = Binary64.div (Binary64.box_0 r) thousand) /\
  (Binary64.gt (Binary64.box_0 r) one = false ->
   Binary64.mask_y m = Binary64.box_0 r) /\
  (Binary64.gt w one = true -> Binary64.mask_w m = Binary64.div w thousand) /\
  (Binary64.gt w one = false -> Binary64.mask_w m = w) /\
  (Binary64.gt h one = true -> Binary64.mask_h m = Binary64.div h thousand) /\
  (Binary64.gt h one = false -> Binary64.mask_h m = h) /\
  Binary64.mask_type m = ai /\
  (forall label,
     let scaled := Binary64.detectedMask now random (Binary64.scaledBox label) in
     let unit := Binary64.detectedMask now random (Binary64.unitBox label) in
     Binary64.mask_x scaled = Binary64.decimal 2 10 /\
     Binary64.mask_y scaled = Binary64.decimal 1 10 /\
     Binary64.mask_w scaled = Binary64.decimal 4 10 /\
     Binary64.mask_h scaled = Binary64.decimal 3 10 /\
     Binary64.mask_x unit = Binary64.decimal 2 10 /\
     Binary64.mask_y unit = Binary64.decimal 1 10 /\
     Binary64.mask_w unit
     = Binary64.sub (Binary64.decimal 6 10) (Binary64.decimal 2 10) /\
     Binary64.mask_h unit
     = Binary64.sub (Binary64.decimal 4 10) (Binary64.decimal 1 10) /\
     Binary64.mask_w unit = Binary64.pred (Binary64.decimal 4 10) /\
     Binary64.mask_h unit = Binary64.succ (Binary64.decimal 3 10)).
Proof.
  cbv zeta.
  cbn [Binary64.detectedMask Binary64.mask_x Binary64.mask_y Binary64.mask_w
       Binary64.mask_h Binary64.mask_type].
  repeat match goal with |- _ /\ _ => split end;
    try (intros ->; reflexivity); try reflexivity.
  intros label. vm_compute. repeat split.
Qed.

Lemma detection_normalized_per_component_witness :
  Binary64.gt (Binary64.box_1 (Binary64.scaledBox "title block"))
              (Binary64.integer 1) = true /\
  Binary64.gt (Binary64.box_1 (Binary64.unitBox "title block"))
              (Binary64.integer 1) = false /\
  Binary64.mask_x (Binary64.detectedMask 1700000000000 "0.25"
                     (Binary64.scaledBox "title block"))
  = Binary64.div (Binary64.integer 200) (Binary64.integer 1000) /\
  Binary64.mask_x (Binary64.detectedMask 1700000000000 "0.25"
                     (Binary64.unitBox "title block"))
  = Binary64.decimal 2 10.
Proof.
  assert (H1 : Binary64.gt (Binary64.box_1 (Binary64.scaledBox "title block"))
                           (Binary64.integer 1) = true) by reflexivity.
  assert (H2 : Binary64.gt (Binary64.box_1 (Binary64.unitBox "title block"))
                           (Binary64.integer 1) = false) by reflexivity.
  split; [exact H1|]. split; [exact H2|]. split.
  - exact (proj1 (detection_normalized_per_component 1700000000000 "0.25"
                    (Binary64.scaledBox "title block")) H1).
  - exact (proj1 (proj2 (detection_normalized_per_component 1700000000000 "0.25"
                    (Binary64.unitBox "title block"))) H2).
Defined.

(** ** Export *)



(** *** The archive folder *)

Lemma append_assoc (a b c : string) : (a +:+ b) +:+ c = a +:+ (b +:+ c).
Proof.
  induction a as [|x a IH]; [reflexivity|].
  change (String x ((a +:+ b) +:+ c) = String x (a +:+ (b +:+ c))).
  rewrite IH. reflexivity.
Qed.

Lemma append_nil_r (a : string) : a +:+ "" = a.
Proof.
  induction a as [|x a IH]; [reflexivity|].
  change (String x (a +:+ "") = String x a). rewrite IH. reflexivity.
Qed.

Lemma endsWithSlash_snoc (path : string) : endsWithSlash (path +:+ "/") = true.
Proof.
  induction path as [|c path IH]; [reflexivity|].
  change (endsWithSlash (String c (path +:+ "/")) = true).
  cbn [endsWithSlash]. destruct (path +:+ "/") eqn:E; [|exact IH].
  destruct path; discriminate E.
Qed.

Lemma endsWithSlash_force (path : string) :
  endsWithSlash (forceTrailingSlash path) = true.
Proof.
  unfold forceTrailingSlash. destruct (endsWithSlash path) eqn:E; [exact E|].
  apply endsWithSlash_snoc.
Qed.

Lemma dropLast_slash (path : string) :
  endsWithSlash path = true -> path = dropLast path +:+ "/".
Proof.
  induction path as [|c path IH]; [discriminate|].
  cbn [endsWithSlash dropLast]. destruct path as [|c' path].
  - intros H. apply Ascii.eqb_eq in H. subst c. reflexivity.
  - intros H.
    change (String c (String c' path)
            = String c (dropLast (String c' path) +:+ "/")).
    rewrite <- (IH H). reflexivity.
Qed.

Lemma beforeLastSlash_split (path before : string) :
  beforeLastSlash path = Some before ->
  exists rest, path = before +:+ "/" +:+ rest.
Proof.
  revert before. induction path as [|c path IH]; intros before; [discriminate|].
  cbn [beforeLastSlash].
  destruct (beforeLastSlash path) as [b|].
  - intros [= <-]. destruct (IH b eq_refl) as [rest ->].
    exists rest. reflexivity.
  - destruct (Ascii.eqb c "/") eqn:E; [|discriminate].
    intros [= <-]. apply Ascii.eqb_eq in E. subst c. exists path. reflexivity.
Qed.

Lemma length_append (a b : string) :
  String.length (a +:+ b) = (String.length a + String.length b)%nat.
Proof.
  induction a as [|c a IH]; [reflexivity|].
  change (S (String.length (a +:+ b)) = S (String.length a + String.length b)).
  rewrite IH. reflexivity.
Qed.

(** A path starts with the folder it lies in, and goes on after it. *)
Lemma parentFolder_prefix (path : string) :
  parentFolder path <> "" ->
  exists rest,
    path = forceTrailingSlash (parentFolder path) +:+ rest /\ rest <> "".
Proof.
  unfold parentFolder.
  remember (if endsWithSlash path then dropLast path else path) as stem eqn:Hs.
  assert (Hstem : exists tail,
            path = stem +:+ tail /\
            (tail = "/" \/ (tail = "" /\ endsWithSlash path = false))).
  { subst stem. destruct (endsWithSlash path) eqn:E.
    - exists "/". split; [apply dropLast_slash; exact E | auto].
    - exists "". split; [symmetry; apply append_nil_r | auto]. }
  destruct Hstem as (tail & Hpath & Htail). clear Hs.
  destruct (beforeLastSlash stem) as [before|] eqn:E;
    [|intros H; contradiction].
  change (default "" (Some before)) with before. intros _.
  destruct (beforeLastSlash_split _ _ E) as [rest Hsplit].
  unfold forceTrailingSlash. destruct (endsWithSlash before).
  - exists ("/" +:+ rest +:+ tail). split; [|discriminate].
    rewrite Hpath, Hsplit, !append_assoc. reflexivity.
  - exists (rest +:+ tail). split.
    + rewrite Hpath, Hsplit, !append_assoc. reflexivity.
    + destruct Htail as [-> | [-> Hends]].
      * destruct rest; discriminate.
      * rewrite append_nil_r. intros ->.
        rewrite Hpath, Hsplit, !append_nil_r, endsWithSlash_snoc in Hends.
        discriminate Hends.
Qed.

Lemma parentFolder_shorter (path : string) :
  parentFolder path <> "" ->
  (String.length (forceTrailingSlash (parentFolder path))
   < String.length path)%nat.
Proof.
  intros H. destruct (parentFolder_prefix path H) as (rest & Hpath & Hrest).
  rewrite Hpath at 2. rewrite length_append.
  destruct rest; [contradiction | simpl; lia].
Qed.

(** The fuel of [folderAdd] is enough from the length of the folder's
    name on: more of it changes nothing. *)
Lemma folderAdd_fuel fuel : forall fuel' name entries,
  (String.length (forceTrailingSlash name) <= fuel)%nat ->
  (String.length (forceTrailingSlash name) <= fuel')%nat ->
  folderAdd fuel name entries = folderAdd fuel' name entries.
Proof.
  assert (Hpos : forall name, (1 <= String.length (forceTrailingSlash name))%nat).
  { intros name. pose proof (endsWithSlash_force name) as H.
    destruct (forceTrailingSlash name); [discriminate H | simpl; lia]. }
  induction fuel as [|fuel IH]; intros fuel' name entries Hf Hf'.
  { pose proof (Hpos name). lia. }
  destruct fuel' as [|fuel']; [pose proof (Hpos name); lia|].
  cbn [folderAdd].
  destruct (entries !! forceTrailingSlash name); [reflexivity|].
  f_equal.
  destruct (String.eqb (parentFolder (forceTrailingSlash name)) "") eqn:E;
    [reflexivity|].
  apply String.eqb_neq in E. pose proof (parentFolder_shorter _ E).
  apply IH; lia.
Qed.

Lemma folderAdd_keeps fuel : forall name entries k data,
  entries !! k = Some data -> folderAdd fuel name entries !! k = Some data.
Proof.
  induction fuel as [|fuel IH]; intros name entries k data Hk;
    cbn [folderAdd];
    destruct (entries !! forceTrailingSlash name) eqn:E; try exact Hk;
    (rewrite lookup_insert_ne by congruence).
  - exact Hk.
  - destruct (String.eqb _ ""); [exact Hk | apply IH; exact Hk].
Qed.

(** [folderAdd] adds nothing but directories, of folders the path lies
    in. *)
Lemma folderAdd_adds fuel : forall name entries k data,
  folderAdd fuel name entries !! k = Some data ->
  entries !! k = Some data \/
  (data = ZipDir /\ endsWithSlash k = true /\
   exists rest, forceTrailingSlash name = k +:+ rest).
Proof.
  induction fuel as [|fuel IH]; intros name entries k data;
    cbn [folderAdd];
    destruct (entries !! forceTrailingSlash name) eqn:E; auto;
    rewrite lookup_insert; case_decide as Hk.
  - intros [= <-]. right. subst k. split; [reflexivity|].
    split; [apply endsWithSlash_force|]. exists "". symmetry. apply append_nil_r.
  - auto.
  - intros [= <-]. right. subst k. split; [reflexivity|].
    split; [apply endsWithSlash_force|]. exists "". symmetry. apply append_nil_r.
  - destruct (String.eqb (parentFolder (forceTrailingSlash name)) "") eqn:Ep;
      [auto|].
    apply String.eqb_neq in Ep.
    intros H. apply IH in H as [H | (Hd & Hs & rest & Hrest)]; [auto|].
    right. split; [exact Hd|]. split; [exact Hs|].
    destruct (parentFolder_prefix _ Ep) as (rest' & Hname & _).
    exists (rest +:+ rest'). rewrite Hname at 1. rewrite Hrest.
    apply append_assoc.
Qed.


(** What was in the folder under another name stays. *)
Lemma fileAdd_keeps name data entries k old :
  k <> name -> entries !! k = Some old ->
  fileAdd name data entries !! k = Some old.
Proof.
  intros Hk Hold. unfold fileAdd. rewrite lookup_insert_ne by congruence.
  destruct (String.eqb _ ""); [exact Hold | apply folderAdd_keeps; exact Hold].
Qed.

(** The entries after [folder.file(name, data)]: the data under the name,
    what was there before, and directories of folders the name lies in. *)
Lemma fileAdd_adds name data entries k found :
  fileAdd name data entries !! k = Some found ->
  (k = name /\ found = data) \/
  entries !! k = Some found \/
  (found = ZipDir /\ endsWithSlash k = true /\ exists rest, name = k +:+ rest).
Proof.
  unfold fileAdd. rewrite lookup_insert. case_decide as Hk.
  - intros [= <-]. auto.
  - destruct (String.eqb (parentFolder name) "") eqn:Ep; [auto|].
    apply String.eqb_neq in Ep.
    intros H. apply folderAdd_adds in H as [H | (Hd & Hs & rest & Hrest)];
      [auto|].
    right. right. split; [exact Hd|]. split; [exact Hs|].
    destruct (parentFolder_prefix _ Ep) as (rest' & Hname & _).
    exists (rest +:+ rest'). rewrite Hname at 1. rewrite Hrest.
    apply append_assoc.
Qed.

(** *** Assembling the archive *)

Section Assembly.
Variable P : Platform.

Local Abbreviation assemble := (fold_left (exportOne P)).

Lemma exportOne_entries acc file :
  fst (exportOne P acc file)
  = match processImageForExport P file with
    | Resolved blob => fileAdd (entryName file) (ZipBlob blob) (fst acc)
    | Rejected _ => fst acc
    end.
Proof. unfold exportOne. destruct (processImageForExport P file); reflexivity. Qed.









End Assembly.

(** With two files or more the batch export assembles an archive. *)
Lemma handleBatchExport_archive P settle s :
  (2 <= length (files s))%nat ->
  handleBatchExport P settle s
  = let acc := fold_left (exportOne P) (settle (files s)) (manifest s, []) in
    match generateAsync P (fst acc) with
    | Resolved content => mkBatch s (Some (fst acc)) (snd acc) (Some content)
    | Rejected error => mkBatch s (Some (fst acc)) (snd acc ++ [error]) None
    end.
Proof.
  intros Hlen. unfold handleBatchExport.
  destruct (files s) as [|f1 [|f2 fs]] eqn:Hfs; simpl in Hlen; try lia.
  cbn [length Nat.eqb andb]. unfold manifest. cbv zeta.
  change (fileAdd "requirements.txt" (ZipText (projectDesc s)) ∅)
    with (<["requirements.txt" := ZipText (projectDesc s)]>
            (∅ : gmap string ZipData)).
  destruct (fold_left _ _ _) as [folder console]. reflexivity.
Qed.




(** *** Entry names *)

Lemma all_not_slash_dot_app a b :
  all_not_slash_dot (a +:+ b) = all_not_slash_dot a && all_not_slash_dot b.
Proof.
  induction a as [|c a IH]; simpl; [reflexivity|].
  rewrite IH. apply andb_assoc.
Qed.

(** A string that ends in an extension loses exactly the extension. *)
Lemma replace_extension_app base ext :
  is_extension ext = true -> replace_extension (base +:+ ext) = base.
Proof.
  intros Hext. induction base as [|c base IH].
  - simpl. destruct ext as [|c ext]; [discriminate|].
    simpl in *. rewrite Hext. reflexivity.
  - assert (Hno : is_extension (String c base +:+ ext) = false).
    { simpl. destruct (Ascii.eqb c "."); [|reflexivity]. simpl.
      rewrite all_not_slash_dot_app.
      destruct ext as [|d ext]; [discriminate|]. simpl in Hext.
      destruct (Ascii.eqb d ".") eqn:Hd; [|discriminate].
      simpl. unfold not_slash_dot. rewrite Hd. simpl.
      rewrite !andb_false_r. reflexivity. }
    change (replace_extension (String c base +:+ ext))
      with (if is_extension (String c base +:+ ext) then ""
            else String c (replace_extension (base +:+ ext))).
    rewrite Hno, IH. reflexivity.
Qed.

Lemma all_digits_not_slash_dot s :
  all_digits s = true -> all_not_slash_dot s = true.
Proof.
  induction s as [|c s IH]; simpl; [reflexivity|].
  intros H. apply andb_prop in H as [Hc Hs]. rewrite (IH Hs), andb_true_r.
  unfold is_digit in Hc. apply andb_prop in Hc as [Hlo Hhi].
  apply Nat.leb_le in Hlo, Hhi.
  unfold not_slash_dot.
  destruct (Ascii.eqb c "/") eqn:E1.
  { apply Ascii.eqb_eq in E1. subst c. compute in Hlo. lia. }
  destruct (Ascii.eqb c ".") eqn:E2.
  { apply Ascii.eqb_eq in E2. subst c. compute in Hlo. lia. }
  reflexivity.
Qed.

Lemma pretty_N_char_digit x : is_digit (pretty_N_char x) = true.
Proof. unfold pretty_N_char. repeat case_match; reflexivity. Qed.

Lemma pretty_N_go_digits x : forall s,
  all_digits s = true -> all_digits (pretty_N_go x s) = true.
Proof.
  induction (N.lt_wf_0 x) as [x _ IH]; intros s Hs.
  destruct (decide (x = 0)%N) as [->|Hx].
  - rewrite pretty_N_go_0. exact Hs.
  - rewrite pretty_N_go_step by lia. apply IH.
    + apply N.div_lt; lia.
    + simpl. rewrite pretty_N_char_digit, Hs. reflexivity.
Qed.

(** [Date.now().toString()] and the like: digits only. *)
Lemma pretty_N_digits (x : N) : all_digits (pretty x) = true.
Proof.
  unfold pretty, pretty_N. case_decide; [reflexivity|].
  apply pretty_N_go_digits. reflexivity.
Qed.

(** The name [WelcomeScreen] gives page [i] of a PDF ends, for the regular
    expression of the export, in one long extension. *)
Lemma page_suffix_is_extension (i : N) :
  is_extension (".pdf [P" +:+ pretty i +:+ "]") = true.
Proof.
  change (all_not_slash_dot ("pdf [P" +:+ pretty i +:+ "]") = true).
  change ("pdf [P" +:+ pretty i +:+ "]")
    with ("pdf [P" +:+ (pretty i +:+ "]")).
  rewrite !all_not_slash_dot_app.
  rewrite (all_digits_not_slash_dot (pretty i)) by apply pretty_N_digits.
  reflexivity.
Qed.

(** C9, the failing input. Every page of a PDF [base.pdf] gets the entry
    name [base.png]: the page suffix goes with the extension.  The archive
    of the two pages of [drawing.pdf] has one page entry, the output of the
    page that settled last. *)
Theorem pdf_pages_share_entry_name :
  (forall base i now png url,
     entryName (pdfPageFile (base +:+ ".pdf") i now png url) = base +:+ ".png") /\
  map file_name (files twoPages) = ["drawing.pdf [P1]"; "drawing.pdf [P2]"] /\
  map entryName (files twoPages) = ["drawing.png"; "drawing.png"] /\
  map (processImageForExport pagesPlatform) (files twoPages)
  = [Resolved [Byte.x01]; Resolved [Byte.x02]] /\
  batch_folder (handleBatchExport pagesPlatform id twoPages)
  = Some (<["drawing.png" := ZipBlob [Byte.x02]]>
            (<["requirements.txt" := ZipText "remove the title block"]> ∅)) /\
  batch_folder (handleBatchExport pagesPlatform (@rev _) twoPages)
  = Some (<["drawing.png" := ZipBlob [Byte.x01]]>
            (<["requirements.txt" := ZipText "remove the title block"]> ∅)).
Proof.
  split.
  { intros base i now png url. unfold entryName, pdfPageFile.
    cbn [file_type file_name]. rewrite decide_True by reflexivity.
    rewrite append_assoc.
    change (".pdf" +:+ " [P" +:+ pretty i +:+ "]")
      with (".pdf [P" +:+ pretty i +:+ "]").
    rewrite replace_extension_app by apply page_suffix_is_extension.
    reflexivity. }
  split; [reflexivity|]. split; [reflexivity|]. split; [reflexivity|].
  split; vm_compute; reflexivity.
Qed.

(** ** Identifiers *)

Lemma digits_dash_inj a : forall b r r',
  all_digits a = true -> all_digits b = true ->
  a +:+ "-" +:+ r = b +:+ "-" +:+ r' -> a = b /\ r = r'.
Proof.
  induction a as [|c a IH]; intros [|d b] r r' Ha Hb Heq.
  - change (String "-" r = String "-" r') in Heq. injection Heq as ->. auto.
  - exfalso. change (String "-" r = String d (b +:+ "-" +:+ r')) in Heq.
    injection Heq as <- _. discriminate Hb.
  - exfalso. change (String c (a +:+ "-" +:+ r) = String "-" r') in Heq.
    injection Heq as -> _. discriminate Ha.
  - change (String c (a +:+ "-" +:+ r) = String d (b +:+ "-" +:+ r')) in Heq.
    injection Heq as -> Heq. simpl in Ha, Hb.
    apply andb_prop in Ha as [_ Ha]. apply andb_prop in Hb as [_ Hb].
    destruct (IH b r r' Ha Hb Heq) as [-> ->]. auto.
Qed.

Global Instance detectedId_inj : Inj (=) (=) detectedId.
Proof.
  intros [n1 r1] [n2 r2] Heq. unfold detectedId in Heq. cbn [fst snd] in Heq.
  change ("ai-" +:+ pretty n1 +:+ "-" +:+ r1)
    with (String "a" (String "i" (String "-" (pretty n1 +:+ "-" +:+ r1))))
    in Heq.
  change ("ai-" +:+ pretty n2 +:+ "-" +:+ r2)
    with (String "a" (String "i" (String "-" (pretty n2 +:+ "-" +:+ r2))))
    in Heq.
  injection Heq as Heq.
  apply digits_dash_inj in Heq as [Hn ->]; try apply pretty_N_digits.
  apply (inj pretty) in Hn. subst. reflexivity.
Qed.

(** A manual id is never the id of a detected mask. *)
Lemma manual_id_not_detected (now : N) reading : pretty now <> detectedId reading.
Proof.
  intros Heq. pose proof (pretty_N_digits now) as Hd. rewrite Heq in Hd.
  discriminate Hd.
Qed.

Lemma ids_app a b : ids (a ++ b) = ids a ++ ids b.
Proof. unfold ids. apply map_app. Qed.

Lemma ids_newMasks results :
  ids (newMasks results)
  = detectedId <$> ((fun d => (det_now d, det_random d)) <$> results).
Proof.
  unfold ids, newMasks. induction results as [|d results IH]; [reflexivity|].
  simpl. f_equal. exact IH.
Qed.

(** More readings only widen [ids_fresh]. *)
Lemma ids_fresh_mono ms ds ms' ds' fs :
  ids_fresh ms ds fs -> ids_fresh (ms ++ ms') (ds ++ ds') fs.
Proof.
  intros Hinv f Hf. destruct (Hinv f Hf) as [Hnd Hiss]. split; [exact Hnd|].
  intros i Hi. specialize (Hiss i Hi). unfold issued in *.
  rewrite !fmap_app. rewrite !elem_of_app in *. tauto.
Qed.

(** [handleMaskChange] keeps what holds of the masks of every file, when it
    holds of the masks it puts in. *)
Lemma handleMaskChange_masks (Good : list MaskRect -> Prop) idx update fs :
  (forall f, f ∈ fs -> Good (file_masks f)) ->
  (forall current, fs !! idx = Some current ->
     Good match update with
          | MasksFn fn => fn (file_masks current)
          | NewMasks l => l
          end) ->
  forall f, f ∈ handleMaskChange idx update fs -> Good (file_masks f).
Proof.
  intros Hall Hnew f Hf. unfold handleMaskChange in Hf.
  destruct (fs !! idx) as [current|] eqn:Hcur; [|auto].
  destruct (decide (file_type current = image_file)); [|auto].
  apply list_elem_of_lookup in Hf as [j Hj].
  apply list_lookup_insert_Some in Hj as [(_ & <- & _) | (_ & Hj)].
  - apply Hnew. reflexivity.
  - apply Hall. apply list_elem_of_lookup. eauto.
Qed.

(** The masks a pointer-up leaves: the ones before, and at most one more,
    whose id is the reading of the clock. *)
Lemma pointerUp_masks now ed prev :
  ed_masks (handleMouseUp now (with_editor_masks prev ed)) = prev \/
  exists m, mask_id m = pretty now /\
            ed_masks (handleMouseUp now (with_editor_masks prev ed)) = prev ++ [m].
Proof.
  destruct (handleMouseUp_cases now (with_editor_masks prev ed))
    as [Hsame | (x & y & w & h & _ & _ & _ & _ & Hm)].
  - left. exact Hsame.
  - right. eexists. split; [|exact Hm]. reflexivity.
Qed.

Lemma handleAutoDetect_files run s :
  files (handleAutoDetect run s) = files s \/
  exists results,
    run_results run = Some results /\
    files (handleAutoDetect run s)
    = handleMaskChange (currentFileIndex s)
        (MasksFn (fun prev => prev ++ newMasks results)) (files s).
Proof.
  unfold handleAutoDetect.
  destruct (length (files s) =? 0)%nat; [left; reflexivity|].
  destruct (files s !! currentFileIndex s) as [cur|]; [|left; reflexivity].
  destruct (decide (file_type cur = image_file)); [|left; reflexivity].
  destruct (negb (run_api_key run)); [left; reflexivity|].
  destruct (negb (run_fetched run)); [left; reflexivity|].
  destruct (run_results run) as [results|]; [|left; reflexivity].
  destruct (length results =? 0)%nat; [left; reflexivity|].
  right. exists results. split; reflexivity.
Qed.

Lemma handleApplyMasksToAll_files confirm s :
  files (handleApplyMasksToAll confirm s) = files s \/
  exists source,
    source ∈ files s /\
    files (handleApplyMasksToAll confirm s)
    = map (fun f => if decide (file_type f = image_file)
                    then with_masks (file_masks source) f else f) (files s).
Proof.
  unfold handleApplyMasksToAll.
  destruct (files s !! currentFileIndex s) as [source|] eqn:Hsrc;
    [|left; reflexivity].
  destruct (length (file_masks source) =? 0)%nat; [left; reflexivity|].
  destruct (negb confirm); [left; reflexivity|].
  right. exists source. split; [|reflexivity].
  apply list_elem_of_lookup. eauto.
Qed.

(** One action keeps the ids distinct, when the readings it takes are new. *)
Lemma step_ids_fresh ms ds s a :
  ids_fresh ms ds (files s) ->
  NoDup (ms ++ manualReadings a) ->
  NoDup (ds ++ detectionReadings a) ->
  ids_fresh (ms ++ manualReadings a) (ds ++ detectionReadings a)
            (files (step s a)).
Proof.
  intros Hinv Hms Hds.
  pose proof (ids_fresh_mono ms ds (manualReadings a) (detectionReadings a)
                _ Hinv) as Hmono.
  set (Good := fun masks : list MaskRect =>
         NoDup (ids masks) /\
         forall i, i ∈ ids masks ->
                   i ∈ issued (ms ++ manualReadings a)
                              (ds ++ detectionReadings a)).
  assert (Hcur : forall idx current,
            files s !! idx = Some current -> current ∈ files s).
  { intros idx current H. apply list_elem_of_lookup. eauto. }
  destruct a as [i | now ed | startedAt run | confirm | ].
  - exact Hmono.
  - (* a manual mask *)
    intros f Hf. cbn [step pointerUp setFiles files] in Hf.
    revert f Hf. apply (handleMaskChange_masks Good); [exact Hmono|].
    intros current Hc. specialize (Hcur _ _ Hc).
    destruct (pointerUp_masks now ed (file_masks current))
      as [-> | (m & Hid & ->)]; [exact (Hmono _ Hcur)|].
    destruct (Hinv _ Hcur) as [Hnd Hiss].
    unfold Good. rewrite ids_app. cbn [ids map]. rewrite Hid. split.
    + apply NoDup_app. split; [exact Hnd|]. split; [|apply NoDup_singleton].
      intros x Hx Hnow. apply list_elem_of_singleton in Hnow as ->.
      apply Hiss in Hx. unfold issued in Hx.
      apply elem_of_app in Hx as [Hx|Hx].
      * apply (list_elem_of_fmap_inj_2 (@pretty N _) ms now) in Hx.
        cbn [manualReadings] in Hms. apply NoDup_app in Hms as (_ & Hdisj & _).
        apply (Hdisj now Hx). left.
      * apply list_elem_of_fmap in Hx as [reading [Hx _]].
        exact (manual_id_not_detected _ _ Hx).
    + intros x Hx. apply elem_of_app in Hx as [Hx|Hx].
      * exact (proj2 (Hmono _ Hcur) x Hx).
      * apply list_elem_of_singleton in Hx as ->. unfold issued.
        apply elem_of_app. left. apply list_elem_of_fmap_2.
        apply elem_of_app. right. left.
  - (* detected masks *)
    cbn [step setCurrentFileIndex files].
    destruct (handleAutoDetect_files run (setCurrentFileIndex startedAt s))
      as [-> | (results & Hres & ->)]; [exact Hmono|].
    cbn [setCurrentFileIndex files currentFileIndex].
    assert (Hread : detectionReadings (AutoDetect startedAt run)
                    = (fun d => (det_now d, det_random d)) <$> results).
    { cbn [detectionReadings]. rewrite Hres. reflexivity. }
    intros f Hf. revert f Hf.
    apply (handleMaskChange_masks Good); [exact Hmono|].
    intros current Hc. specialize (Hcur _ _ Hc).
    destruct (Hinv _ Hcur) as [Hnd Hiss].
    unfold Good. rewrite ids_app, ids_newMasks, <- Hread.
    apply NoDup_app in Hds as (_ & Hdisj & Hnew). split.
    + apply NoDup_app. split; [exact Hnd|].
      split; [|apply NoDup_fmap_2; [apply detectedId_inj | exact Hnew]].
      intros x Hx Hin.
      apply list_elem_of_fmap in Hin as [reading [-> Hreading]].
      apply Hiss in Hx. unfold issued in Hx.
      apply elem_of_app in Hx as [Hx|Hx].
      * apply list_elem_of_fmap in Hx as [n [Hx _]].
        exact (manual_id_not_detected _ _ (eq_sym Hx)).
      * apply (list_elem_of_fmap_inj_2 detectedId ds reading) in Hx.
        exact (Hdisj _ Hx Hreading).
    + intros x Hx. apply elem_of_app in Hx as [Hx|Hx].
      * exact (proj2 (Hmono _ Hcur) x Hx).
      * unfold issued. apply elem_of_app. right.
        rewrite fmap_app. apply elem_of_app. right. exact Hx.
  - (* the masks of one file copied to all images *)
    cbn [step].
    destruct (handleApplyMasksToAll_files confirm s)
      as [-> | (source & Hsrc & ->)]; [exact Hmono|].
    intros f Hf. apply list_elem_of_fmap in Hf as [g [-> Hg]].
    destruct (decide (file_type g = image_file)).
    + exact (Hmono _ Hsrc).
    + exact (Hmono _ Hg).
  - (* the masks of the current file cleared *)
    intros f Hf. cbn [step setFiles files] in Hf. revert f Hf.
    apply (handleMaskChange_masks Good); [exact Hmono|].
    intros current _. split; [apply NoDup_nil_2|].
    intros i Hi. inversion Hi.
Qed.

Lemma run_ids_fresh actions : forall ms ds s,
  ids_fresh ms ds (files s) ->
  NoDup (ms ++ concat (map manualReadings actions)) ->
  NoDup (ds ++ concat (map detectionReadings actions)) ->
  ids_fresh (ms ++ concat (map manualReadings actions))
            (ds ++ concat (map detectionReadings actions))
            (files (runActions s actions)).
Proof.
  induction actions as [|a actions IH]; intros ms ds s Hinv Hms Hds.
  - simpl. rewrite !app_nil_r. exact Hinv.
  - cbn [map concat] in *. rewrite !app_assoc in *.
    apply IH; [|exact Hms|exact Hds].
    apply step_ids_fresh; [exact Hinv| |].
    + apply NoDup_app in Hms as (Hms & _). exact Hms.
    + apply NoDup_app in Hds as (Hds & _). exact Hds.
Qed.

(** C7, as stated, fails: two drags that end while the clock reads the same
    millisecond leave two masks with the same id. *)
Lemma same_millisecond_same_id :
  file_masks <$> files (runActions freshProject
                          [PointerUp 1700000000000 drawingEditor;
                           PointerUp 1700000000000 drawingEditor])
  = [[mkMaskRect "1700000000000" ((20 - 0) / 100) ((20 - 0) / 100)
                 ((60 - 0) / 100 - (20 - 0) / 100)
                 ((50 - 0) / 100 - (20 - 0) / 100) manual None;
      mkMaskRect "1700000000000" ((20 - 0) / 100) ((20 - 0) / 100)
                 ((60 - 0) / 100 - (20 - 0) / 100)
                 ((50 - 0) / 100 - (20 - 0) / 100) manual None]] /\
  ~ (forall f,
       f ∈ files (runActions freshProject
                    [PointerUp 1700000000000 drawingEditor;
                     PointerUp 1700000000000 drawingEditor]) ->
       NoDup (ids (file_masks f))).
Proof.
  assert (Hrun :
    file_masks <$> files (runActions freshProject
                            [PointerUp 1700000000000 drawingEditor;
                             PointerUp 1700000000000 drawingEditor])
    = [[mkMaskRect "1700000000000" ((20 - 0) / 100) ((20 - 0) / 100)
                   ((60 - 0) / 100 - (20 - 0) / 100)
                   ((50 - 0) / 100 - (20 - 0) / 100) manual None;
        mkMaskRect "1700000000000" ((20 - 0) / 100) ((20 - 0) / 100)
                   ((60 - 0) / 100 - (20 - 0) / 100)
                   ((50 - 0) / 100 - (20 - 0) / 100) manual None]])
    by (vm_compute; reflexivity).
  split; [exact Hrun|].
  intros Hall.
  destruct (files (runActions freshProject _)) as [|f [|g fs]] eqn:Hfs;
    try discriminate Hrun.
  specialize (Hall f (list_elem_of_here _ _)).
  injection Hrun as Hrun. rewrite Hrun in Hall. cbn [ids map mask_id] in Hall.
  apply NoDup_cons in Hall as [Hnot _]. apply Hnot. left.
Qed.

(** C7, amended. From a project as loaded, with no masks, and through any
    sequence of file selections, drags, detections, copies to all and
    clears, the ids in the collection of every file stay pairwise distinct,
    provided no two manual masks are made at the same reading of the clock
    and no two detected masks at the same pair of readings of the clock and
    the random source. *)
Theorem mask_ids_distinct_for_fresh_readings (s : App) (actions : list Action) :
  (forall f, f ∈ files s -> file_masks f = []) ->
  NoDup (concat (map manualReadings actions)) ->
  NoDup (concat (map detectionReadings actions)) ->
  forall f, f ∈ files (runActions s actions) -> NoDup (ids (file_masks f)).
Proof.
  intros Hempty Hms Hds f Hf.
  assert (Hinv : ids_fresh [] [] (files s)).
  { intros g Hg. rewrite (Hempty g Hg). split; [apply NoDup_nil_2|].
    intros i Hi. inversion Hi. }
  exact (proj1 (run_ids_fresh actions [] [] s Hinv Hms Hds f Hf)).
Qed.

Lemma mask_ids_distinct_for_fresh_readings_witness :
  (forall f, f ∈ files freshProject -> file_masks f = []) /\
  NoDup (concat (map manualReadings sampleSession)) /\
  NoDup (concat (map detectionReadings sampleSession)) /\
  forall f, f ∈ files (runActions freshProject sampleSession) ->
            NoDup (ids (file_masks f)).
Proof.
  assert (H0 : forall f, f ∈ files freshProject -> file_masks f = []).
  { intros f Hf. apply list_elem_of_singleton in Hf as ->. reflexivity. }
  assert (H1 : NoDup (concat (map manualReadings sampleSession))).
  { apply NoDup_cons. split; [|apply NoDup_singleton].
    intros H. apply list_elem_of_singleton in H. discriminate H. }
  assert (H2 : NoDup (concat (map detectionReadings sampleSession))).
  { apply NoDup_cons. split; [|apply NoDup_singleton].
    intros H. apply list_elem_of_singleton in H. discriminate H. }
  split; [exact H0|]. split; [exact H1|]. split; [exact H2|].
  exact (mask_ids_distinct_for_fresh_readings freshProject sampleSession
           H0 H1 H2).
Defined.

(** ** Copies of a mask collection *)

Section Arrays.

Lemma with_masks_twice {M M' M'' : Type} (a : M'') (b : M') (f : FileOf M) :
with_masks a (with_masks b f) = with_masks a f.
Proof. reflexivity. Qed.

(** What [Refs.copyToImages] returns: the arrays already in the Refs.store are as they
  were; every image holds a new array with the content of the source and
  every other file is as it was; and the array of an image is held by no
  other file. *)
Lemma copyToImages_spec src prev : forall st fs' st',
(forall f, f ∈ prev -> file_masks f ∈ dom st) ->
Refs.copyToImages src prev st = (fs', st') ->
(forall l, l ∈ dom st -> st' !! l = st !! l) /\
Forall2 (fun f f' =>
           if decide (file_type f = image_file)
           then exists l, f' = with_masks l f /\ (l ∉ dom st) /\
                          st' !! l = Some src
           else f' = f) prev fs' /\
(forall i j fi fj,
   i <> j -> fs' !! i = Some fi -> fs' !! j = Some fj ->
   file_type fi = image_file -> file_masks fi <> file_masks fj).
Proof.
induction prev as [|a prev IH]; intros st fs' st' Hdom Hcopy.
- simpl in Hcopy. injection Hcopy as <- <-.
  split; [auto|]. split; [constructor|]. intros i j fi fj _ Hi. inversion Hi.
- simpl in Hcopy.
  assert (Hprev : forall st1 : gmap Refs.loc (list MaskRect), dom st ⊆ dom st1 ->
                    forall f, f ∈ prev -> file_masks f ∈ dom st1).
  { intros st1 Hsub f Hf. apply Hsub, Hdom. right. exact Hf. }
  assert (Hnew : forall (st1 : gmap Refs.loc (list MaskRect)) rest' i fi,
            Forall2 (fun f f' =>
                       if decide (file_type f = image_file)
                       then exists l, f' = with_masks l f /\ (l ∉ dom st1) /\
                                      st' !! l = Some src
                       else f' = f) prev rest' ->
            rest' !! i = Some fi -> file_type fi = image_file ->
            file_masks fi ∉ dom st1).
  { intros st1 rest' i fi HF Hi Hty.
    destruct (Forall2_lookup_r _ _ _ _ _ HF Hi) as (f & _ & Hrel).
    destruct (decide (file_type f = image_file)) as [|Hn].
    - destruct Hrel as (l & -> & Hl & _). exact Hl.
    - subst fi. contradiction. }
  assert (Hold : forall (st1 : gmap Refs.loc (list MaskRect)) rest' j fj,
            dom st ⊆ dom st1 ->
            Forall2 (fun f f' =>
                       if decide (file_type f = image_file)
                       then exists l, f' = with_masks l f /\ (l ∉ dom st1) /\
                                      st' !! l = Some src
                       else f' = f) prev rest' ->
            rest' !! j = Some fj ->
            file_masks fj ∉ dom st1 \/ file_masks fj ∈ dom st).
  { intros st1 rest' j fj Hsub HF Hj.
    destruct (Forall2_lookup_r _ _ _ _ _ HF Hj) as (f & Hf & Hrel).
    destruct (decide (file_type f = image_file)) as [|Hn].
    - destruct Hrel as (l & -> & Hl & _). left. exact Hl.
    - subst fj. right. apply Hdom. right.
      apply list_elem_of_lookup. eauto. }
  destruct (decide (file_type a = image_file)) as [Himg|Himg].
  + unfold Refs.alloc in Hcopy.
    pose proof (is_fresh (dom st)) as Hfresh.
    set (l := fresh (dom st)) in *.
    destruct (Refs.copyToImages src prev (<[l:=src]> st)) as [rest' st2] eqn:E.
    injection Hcopy as <- <-.
    assert (Hsub : dom st ⊆ dom (<[l:=src]> st))
      by (rewrite dom_insert_L; apply union_subseteq_r).
    destruct (IH _ _ _ (Hprev _ Hsub) E) as (A & B & C).
    assert (Hl : st2 !! l = Some src).
    { rewrite A by (apply elem_of_dom; rewrite lookup_insert_eq; eauto).
      apply lookup_insert_eq. }
    split; [|split].
    * intros l' Hl'. rewrite A by (apply Hsub; exact Hl').
      apply lookup_insert_ne. intros ->. contradiction.
    * constructor.
      -- rewrite decide_True by exact Himg. exists l. auto.
      -- eapply Forall2_impl; [exact B|]. intros f f'. cbv beta.
         destruct (decide (file_type f = image_file)); [|auto].
         intros (l' & -> & Hn & Hs). exists l'.
         split; [reflexivity|]. split; [|exact Hs].
         intros Hin. apply Hn, Hsub, Hin.
    * intros [|i] [|j] fi fj Hij Hi Hj Hty; [contradiction| | |].
      -- injection Hi as <-. cbn [with_masks file_masks].
         destruct (Hold _ _ _ _ Hsub B Hj) as [Hn|Ho].
         ++ intros Heq. apply Hn. rewrite <- Heq.
            apply elem_of_dom. rewrite lookup_insert_eq. eauto.
         ++ intros Heq. apply Hfresh. rewrite Heq. exact Ho.
      -- injection Hj as <-. cbn [with_masks file_masks].
         intros Heq. apply (Hnew _ _ _ _ B Hi Hty).
         rewrite Heq. apply elem_of_dom. rewrite lookup_insert_eq. eauto.
      -- apply (C i j); auto.
  + destruct (Refs.copyToImages src prev st) as [rest' st2] eqn:E.
    injection Hcopy as <- <-.
    destruct (IH _ _ _ (Hprev _ (reflexivity _)) E) as (A & B & C).
    split; [exact A|]. split.
    * constructor; [rewrite decide_False by exact Himg; reflexivity|exact B].
    * intros [|i] [|j] fi fj Hij Hi Hj Hty; [contradiction| | |].
      -- injection Hi as <-. contradiction.
      -- injection Hj as <-. intros Heq.
         apply (Hnew _ _ _ _ B Hi Hty). rewrite Heq. apply Hdom. left.
      -- apply (C i j); auto.
Qed.

(** Read through the Refs.store, [Refs.copyToImages] is the [map] of
  [handleApplyMasksToAll]. *)
Lemma copyToImages_view src prev st fs' st' :
(forall f, f ∈ prev -> file_masks f ∈ dom st) ->
Refs.copyToImages src prev st = (fs', st') ->
Refs.view (Refs.mkHeap fs' st')
= map (fun f => if decide (file_type f = image_file)
                then with_masks src f else f)
      (Refs.view (Refs.mkHeap prev st)).
Proof.
intros Hdom Hcopy.
destruct (copyToImages_spec src prev st fs' st' Hdom Hcopy) as (A & B & _).
unfold Refs.view. cbn [Refs.files Refs.store]. clear Hcopy.
induction B as [|f f' prev fs' Hrel B IH]; [reflexivity|].
cbn [map]. rewrite IH by (intros g Hg; apply Hdom; right; exact Hg).
f_equal. cbn [with_masks file_type].
destruct (decide (file_type f = image_file)) as [Himg|Himg].
- destruct Hrel as (l & -> & _ & Hl). unfold Refs.deref at 1.
  cbn [with_masks file_masks]. rewrite Hl. reflexivity.
- subst f'. unfold Refs.deref. rewrite A by (apply Hdom; left). reflexivity.
Qed.

(** The handler on arrays with identity does, read through the Refs.store, what
  the handler of [App] does. *)
Lemma handleApplyMasksToAll_view idx confirm h desc trigger :
Refs.allocated h ->
Refs.view (Refs.handleApplyMasksToAll idx confirm h)
= files (handleApplyMasksToAll confirm (mkApp desc (Refs.view h) idx trigger)).
Proof.
intros Halloc. unfold Refs.handleApplyMasksToAll, handleApplyMasksToAll.
cbn [files currentFileIndex]. unfold Refs.view at 2 4.
rewrite list_lookup_fmap.
destruct (Refs.files h !! idx) as [source|] eqn:Hsrc; cbn [fmap option_fmap option_map];
  [|reflexivity].
cbn [with_masks file_masks].
destruct (length (Refs.deref (Refs.store h) (file_masks source)) =? 0)%nat;
  [reflexivity|].
destruct (negb confirm); [reflexivity|].
destruct (Refs.copyToImages _ (Refs.files h) (Refs.store h)) as [fs' st'] eqn:Hcopy.
cbn [setFiles files].
rewrite (copyToImages_view _ _ _ _ _ Halloc Hcopy).
destruct h; reflexivity.
Qed.

(** An update of the masks of one file, as the handlers make it, leaves the
  masks of every other file as they were. *)
Lemma handleMaskChange_others idx update (fs : list ProjectFile) j :
j <> idx -> handleMaskChange idx update fs !! j = fs !! j.
Proof.
intros Hj. unfold handleMaskChange.
destruct (fs !! idx) as [current|]; [|reflexivity].
destruct (decide (file_type current = image_file)); [|reflexivity].
apply list_lookup_insert_ne. auto.
Qed.

Lemma refs_handleMaskChange_others idx update h j :
Refs.allocated h -> j <> idx ->
Refs.view (Refs.handleMaskChange idx update h) !! j = Refs.view h !! j.
Proof.
intros Halloc Hj. unfold Refs.handleMaskChange.
destruct (Refs.files h !! idx) as [current|]; [|reflexivity].
destruct (decide (file_type current = image_file)); [|reflexivity].
unfold Refs.alloc, Refs.view. cbn [Refs.files Refs.store].
pose proof (is_fresh (dom (Refs.store h))) as Hfresh.
set (l := fresh (dom (Refs.store h))) in *.
rewrite !list_lookup_fmap, list_lookup_insert_ne by auto.
destruct (Refs.files h !! j) as [f|] eqn:Hf; [|reflexivity].
cbn [fmap option_fmap option_map]. unfold Refs.deref.
rewrite lookup_insert_ne; [reflexivity|].
intros ->. apply Hfresh, Halloc. apply list_elem_of_lookup. eauto.
Qed.

(** A write to the array of one file shows in no file that holds another
  array. *)
Lemma writeArray_others h l content j f :
Refs.files h !! j = Some f -> file_masks f <> l ->
Refs.view (Refs.mkHeap (Refs.files h) (Refs.writeArray l content (Refs.store h))) !! j = Refs.view h !! j.
Proof.
intros Hf Hl. unfold Refs.view, Refs.writeArray. cbn [Refs.files Refs.store].
rewrite !list_lookup_fmap, Hf. cbn [fmap option_fmap option_map].
unfold Refs.deref. rewrite lookup_insert_ne by auto. reflexivity.
Qed.
End Arrays.

Lemma handleApplyMasksToAll_copies h idx source :
  Refs.files h !! idx = Some source ->
  Refs.deref (Refs.store h) (file_masks source) <> [] ->
  exists fs' st',
    Refs.copyToImages (Refs.deref (Refs.store h) (file_masks source))
      (Refs.files h) (Refs.store h) = (fs', st') /\
    Refs.handleApplyMasksToAll idx true h = Refs.mkHeap fs' st'.
Proof.
  intros Hsrc Hne. unfold Refs.handleApplyMasksToAll. rewrite Hsrc.
  destruct (Refs.deref (Refs.store h) (file_masks source)) as [|m ms] eqn:Hd;
    [contradiction|].
  cbn [length Nat.eqb negb].
  destruct (Refs.copyToImages (m :: ms) (Refs.files h) (Refs.store h))
    as [fs' st'] eqn:Hcopy.
  exists fs', st'. auto.
Qed.

(** C6. After the masks of a file with a non-empty collection are copied to
    all, the collection of every image has the content of the source's, and
    every image holds an array of its own, held by no other file and new
    with respect to the source's: a write to the array of one image, and an
    append, a replacement or a clearing made by the handlers on one file,
    leave the collection of every other file as it was. *)
Theorem copy_to_all_independent (h : Refs.Heap) (idx : nat)
    (source : FileOf Refs.loc) :
  Refs.allocated h ->
  Refs.files h !! idx = Some source ->
  Refs.deref (Refs.store h) (file_masks source) <> [] ->
  let h' := Refs.handleApplyMasksToAll idx true h in
  let sourceMasks := Refs.deref (Refs.store h) (file_masks source) in
  (forall desc trigger,
     Refs.view h'
     = files (handleApplyMasksToAll true (mkApp desc (Refs.view h) idx trigger))) /\
  (forall f, f ∈ Refs.view h' -> file_type f = image_file ->
             file_masks f = sourceMasks) /\
  (forall i j fi fj,
     i <> j -> Refs.files h' !! i = Some fi -> Refs.files h' !! j = Some fj ->
     file_type fi = image_file -> file_masks fi <> file_masks fj) /\
  (forall i fi,
     Refs.files h' !! i = Some fi -> file_type fi = image_file ->
     file_masks fi <> file_masks source) /\
  (forall i j fi content,
     i <> j -> Refs.files h' !! i = Some fi -> file_type fi = image_file ->
     Refs.view (Refs.mkHeap (Refs.files h')
                  (Refs.writeArray (file_masks fi) content (Refs.store h'))) !! j
     = Refs.view h' !! j) /\
  (forall i j update,
     i <> j ->
     Refs.view (Refs.handleMaskChange i update h') !! j = Refs.view h' !! j) /\
  (forall i j update,
     i <> j -> handleMaskChange i update (Refs.view h') !! j = Refs.view h' !! j).
Proof.
  intros Halloc Hsrc Hne h' sourceMasks.
  destruct (handleApplyMasksToAll_copies h idx source Hsrc Hne)
    as (fs' & st' & Hcopy & Hh').
  fold sourceMasks in Hcopy.
  destruct (copyToImages_spec _ _ _ _ _ Halloc Hcopy) as (A & B & C).
  assert (Hnew : forall i fi,
            fs' !! i = Some fi -> file_type fi = image_file ->
            (file_masks fi ∉ dom (Refs.store h)) /\
            st' !! file_masks fi = Some sourceMasks).
  { intros i fi Hi Hty.
    destruct (Forall2_lookup_r _ _ _ _ _ B Hi) as (f & _ & Hrel).
    destruct (decide (file_type f = image_file)) as [|Hn].
    - destruct Hrel as (l & -> & Hl & Hs). auto.
    - subst fi. contradiction. }
  assert (Halloc' : Refs.allocated h').
  { unfold h'. rewrite Hh'. intros f' Hf'. cbn [Refs.files Refs.store] in *.
    apply list_elem_of_lookup in Hf' as [i Hi].
    destruct (Forall2_lookup_r _ _ _ _ _ B Hi) as (f & Hf & Hrel).
    apply elem_of_dom.
    destruct (decide (file_type f = image_file)) as [|Hn].
    - destruct Hrel as (l & -> & _ & Hs). cbn [with_masks file_masks].
      rewrite Hs. eauto.
    - subst f'.
      assert (Hin : file_masks f ∈ dom (Refs.store h))
        by (apply Halloc, list_elem_of_lookup; eauto).
      rewrite (A _ Hin). apply elem_of_dom. exact Hin. }
  unfold h' in *. rewrite Hh' in *. cbn [Refs.files Refs.store] in *.
  split; [|split; [|split; [|split; [|split; [|split]]]]].
  - intros desc trigger. rewrite <- Hh'.
    apply handleApplyMasksToAll_view. exact Halloc.
  - intros f Hf Hty. unfold Refs.view in Hf. cbn [Refs.files Refs.store] in Hf.
    apply list_elem_of_fmap in Hf as [g [-> Hg]].
    apply list_elem_of_lookup in Hg as [i Hi].
    cbn [with_masks file_masks file_type] in *.
    destruct (Hnew i g Hi Hty) as [_ Hs]. unfold Refs.deref. rewrite Hs.
    reflexivity.
  - exact C.
  - intros i fi Hi Hty Heq. destruct (Hnew i fi Hi Hty) as [Hn _].
    apply Hn. rewrite Heq. apply Halloc, list_elem_of_lookup. eauto.
  - intros i j fi content Hij Hi Hty.
    destruct (fs' !! j) as [fj|] eqn:Hj.
    + apply (writeArray_others (Refs.mkHeap fs' st') _ _ j fj); [exact Hj|].
      intros Heq. apply (C i j fi fj Hij Hi Hj Hty). auto.
    + unfold Refs.view. cbn [Refs.files Refs.store].
      rewrite !list_lookup_fmap, Hj. reflexivity.
  - intros i j update Hij.
    apply refs_handleMaskChange_others; [exact Halloc' | auto].
  - intros i j update Hij. apply handleMaskChange_others. auto.
Qed.

Lemma copy_to_all_independent_witness :
  Refs.allocated sharedHeap /\
  Refs.files sharedHeap !! 0%nat
  = Some (mkFile "img-1" "plan.jpg" [] "blob:plan" image_file 1%positive
                 None pending) /\
  Refs.deref (Refs.store sharedHeap) 1%positive <> [] /\
  (forall f, f ∈ Refs.view (Refs.handleApplyMasksToAll 0 true sharedHeap) ->
             file_type f = image_file -> file_masks f = [leftHalf]) /\
  (forall i j fi fj,
     i <> j ->
     Refs.files (Refs.handleApplyMasksToAll 0 true sharedHeap) !! i = Some fi ->
     Refs.files (Refs.handleApplyMasksToAll 0 true sharedHeap) !! j = Some fj ->
     file_type fi = image_file -> file_masks fi <> file_masks fj).
Proof.
  assert (H0 : Refs.allocated sharedHeap).
  { intros f Hf. apply elem_of_dom. simpl in Hf.
    repeat (apply elem_of_cons in Hf as [->|Hf]; [eexists; reflexivity|]).
    inversion Hf. }
  assert (H1 : Refs.deref (Refs.store sharedHeap) 1%positive <> [])
    by discriminate.
  split; [exact H0|]. split; [reflexivity|]. split; [exact H1|].
  destruct (copy_to_all_independent sharedHeap 0 _ H0 eq_refl H1)
    as (_ & Hcontent & Hown & _).
  split; [exact Hcontent | exact Hown].
Defined.

(** * Further properties *)

(** ** The editor: what every sequence of events keeps *)

Lemma dispatch_mode s ev : ed_mode (dispatch s ev) = ed_mode s.
Proof.
  destruct ev as [e|e|now|]; cbn [dispatch].
  - unfold handleMouseDown. destruct (ed_image s); [|reflexivity].
    destruct (getNormalizedPos e).
    destruct (ed_mode s) eqn:Hm, (ed_container s) as [[sl st]|]; cbn; auto.
  - unfold handleMouseMove. destruct (negb (isDown (ed_drag s))); [reflexivity|].
    destruct (getNormalizedPos e).
    destruct (ed_mode s) eqn:Hm, (ed_container s) as [[sl st]|]; cbn; auto.
  - unfold handleMouseUp.
    destruct (ed_mode s) eqn:Hm; [cbn; auto|].
    destruct (ed_currentRect s) as [[[x|] [y|] [w|] [h|]]|]; cbn; auto.
    destruct (Qltb w 0), (Qltb h 0);
      match goal with
      | |- context [Qltb threshold ?a && Qltb threshold ?b] =>
          destruct (Qltb threshold a && Qltb threshold b)
      end; cbn; auto.
  - unfold handleMouseLeave. destruct (isDown (ed_drag s)); cbn; auto.
Qed.

Lemma play_mode evs : forall s, ed_mode (play s evs) = ed_mode s.
Proof.
  induction evs as [|ev evs IH]; intros s; [reflexivity|].
  unfold play in *. cbn [fold_left]. rewrite IH. apply dispatch_mode.
Qed.

Lemma dispatch_rect_ok s ev :
  rect_in_progress_ok s -> rect_in_progress_ok (dispatch s ev).
Proof.
  intros Hok. destruct ev as [e|e|now|]; cbn [dispatch].
  - unfold handleMouseDown. destruct (ed_image s); [|exact Hok].
    destruct (ed_mode s) eqn:Hm.
    + assert (Hnone : ed_currentRect s = None).
      { destruct Hok as [H|(_ & H & _)]; [exact H | congruence]. }
      destruct (ed_container s) as [[sl st]|]; left; exact Hnone.
    + destruct (getNormalizedPos e) as [x y].
      destruct (ed_container s) as [[sl st]|];
        right; cbn; rewrite Hm; repeat split; eauto.
  - unfold handleMouseMove.
    destruct (isDown (ed_drag s)) eqn:Hd; [|exact Hok]. cbn [negb].
    destruct (ed_mode s) eqn:Hm.
    + destruct (ed_container s) as [[sl st]|]; [|exact Hok].
      destruct Hok as [H|(_ & H & _)]; [left; exact H | congruence].
    + destruct (getNormalizedPos e) as [x y].
      assert (Hgoal : forall s',
                ed_drag s' = ed_drag s -> ed_mode s' = ed_mode s ->
                ed_currentRect s'
                = match ed_currentRect s with
                  | None => None
                  | Some prev =>
                      Some (mkPartial (part_x prev) (part_y prev)
                              (minus_field x (part_x prev))
                              (minus_field y (part_y prev)))
                  end ->
                rect_in_progress_ok s').
      { intros s' Hdrag Hmode Hrect.
        destruct Hok as [H|(_ & _ & x0 & y0 & w & h & H)].
        - left. rewrite Hrect, H. reflexivity.
        - right. rewrite Hdrag, Hmode, Hd, Hm, Hrect, H. cbn. eauto 10. }
      destruct (ed_container s) as [[sl st]|]; apply Hgoal; reflexivity.
  - unfold handleMouseUp.
    destruct (ed_mode s) eqn:Hm.
    + left. destruct Hok as [H|(_ & H & _)]; [exact H | congruence].
    + destruct Hok as [H|(_ & _ & x & y & w & h & H)]; rewrite H.
      * left. exact H.
      * cbn [part_x part_y part_w part_h].
        destruct (Qltb w 0), (Qltb h 0);
          match goal with
          | |- context [Qltb threshold ?a && Qltb threshold ?b] =>
              destruct (Qltb threshold a && Qltb threshold b)
          end; left; reflexivity.
  - unfold handleMouseLeave.
    destruct (isDown (ed_drag s)) eqn:Hd; [left; reflexivity|].
    destruct Hok as [H|(H & _)]; [left; exact H | congruence].
Qed.

(** X1. From a state where it holds, and so from an editor at rest, every
    sequence of pointer events keeps this: a rectangle is in progress only
    while the button is down in draw mode, and it then has all of its four
    fields, so the release never meets an undefined coordinate. *)
Theorem rect_in_progress_kept (s : Editor) (events : list PointerEvent) :
  rect_in_progress_ok s -> rect_in_progress_ok (play s events).
Proof.
  revert s. induction events as [|ev events IH]; intros s Hok; [exact Hok|].
  unfold play in *. cbn [fold_left]. apply IH, dispatch_rect_ok, Hok.
Qed.

Lemma rect_in_progress_kept_witness :
  rect_in_progress_ok (idleEditor DRAW) /\
  rect_in_progress_ok
    (play (idleEditor DRAW)
       [MouseDown (pointerAt 20 20); MouseMove (pointerAt 60 50); MouseLeave;
        MouseUp 1700000000000; MouseDown (pointerAt 10 10)]).
Proof.
  assert (H : rect_in_progress_ok (idleEditor DRAW)) by (left; reflexivity).
  split; [exact H|]. exact (rect_in_progress_kept _ _ H).
Defined.

Lemma dispatch_masks s ev :
  ed_masks (dispatch s ev) = ed_masks s \/
  exists now m,
    ev = MouseUp now /\
    ed_masks (dispatch s ev) = ed_masks s ++ [m] /\
    mask_type m = manual /\ mask_label m = None /\
    threshold < mask_w m /\ threshold < mask_h m.
Proof.
  destruct ev as [e|e|now|]; cbn [dispatch].
  - left. unfold handleMouseDown. destruct (ed_image s); [|reflexivity].
    destruct (getNormalizedPos e).
    destruct (ed_mode s), (ed_container s) as [[sl st]|]; reflexivity.
  - left. unfold handleMouseMove.
    destruct (negb (isDown (ed_drag s))); [reflexivity|].
    destruct (getNormalizedPos e).
    destruct (ed_mode s), (ed_container s) as [[sl st]|]; reflexivity.
  - destruct (handleMouseUp_cases now s)
      as [Hsame | (x & y & w & h & _ & _ & Hw & Hh & Hm)];
      [left; exact Hsame|].
    right. eexists now, _. split; [reflexivity|]. split; [exact Hm|].
    cbn [mask_type mask_label mask_w mask_h]. auto.
  - left. unfold handleMouseLeave. destruct (isDown (ed_drag s)); reflexivity.
Qed.

(** X2. Whatever the pointer does, the editor only appends to the masks it
    was given: it never removes, reorders or edits one; it appends at most
    one mask per release; and every mask it appends is manual, without
    label, with both extents above 0.005. *)
Theorem editor_only_appends (s : Editor) (events : list PointerEvent) :
  exists added,
    ed_masks (play s events) = ed_masks s ++ added /\
    (length added <= releases events)%nat /\
    Forall (fun m => mask_type m = manual /\ mask_label m = None /\
                     5 # 1000 < mask_w m /\ 5 # 1000 < mask_h m) added.
Proof.
  revert s. induction events as [|ev events IH]; intros s.
  - exists []. rewrite app_nil_r. split; [reflexivity|]. split; [simpl; lia|].
    constructor.
  - destruct (IH (dispatch s ev)) as (added & Hadd & Hlen & Hall).
    unfold play in *. cbn [fold_left]. rewrite Hadd.
    assert (Hrel : (releases events <= releases (ev :: events))%nat).
    { destruct ev; simpl; lia. }
    destruct (dispatch_masks s ev)
      as [-> | (now & m & -> & -> & Hty & Hlab & Hw & Hh)].
    + exists added. split; [reflexivity|]. split; [lia | exact Hall].
    + exists (m :: added). rewrite <- app_assoc. split; [reflexivity|]. split.
      * simpl. lia.
      * constructor; [|exact Hall]. unfold threshold in *. auto.
Qed.

Lemma dispatch_image s ev : ed_image (dispatch s ev) = ed_image s.
Proof.
  destruct ev as [e|e|now|]; cbn [dispatch].
  - unfold handleMouseDown. destruct (ed_image s) eqn:Hi; [|exact Hi].
    destruct (getNormalizedPos e).
    destruct (ed_mode s), (ed_container s) as [[sl st]|]; cbn; auto.
  - unfold handleMouseMove. destruct (negb (isDown (ed_drag s))); [reflexivity|].
    destruct (getNormalizedPos e).
    destruct (ed_mode s), (ed_container s) as [[sl st]|]; cbn; auto.
  - unfold handleMouseUp.
    destruct (ed_mode s); [cbn; auto|].
    destruct (ed_currentRect s) as [[[x|] [y|] [w|] [h|]]|]; cbn; auto.
    destruct (Qltb w 0), (Qltb h 0);
      match goal with
      | |- context [Qltb threshold ?a && Qltb threshold ?b] =>
          destruct (Qltb threshold a && Qltb threshold b)
      end; cbn; auto.
  - unfold handleMouseLeave. destruct (isDown (ed_drag s)); cbn; auto.
Qed.

(** With no rectangle in progress, an event that cannot start one leaves
    the masks alone and starts none. *)
Lemma dispatch_no_rect s ev :
  ed_currentRect s = None ->
  not_press ev \/ ed_mode s = PAN \/ ed_image s = None ->
  ed_currentRect (dispatch s ev) = None /\
  ed_masks (dispatch s ev) = ed_masks s.
Proof.
  intros Hrect Hev. destruct ev as [e|e|now|]; cbn [dispatch].
  - destruct Hev as [[]|[Hm|Hi]]; unfold handleMouseDown.
    + destruct (ed_image s); [|auto]. rewrite Hm.
      destruct (ed_container s) as [[sl st]|]; cbn; auto.
    + rewrite Hi. auto.
  - unfold handleMouseMove. destruct (negb (isDown (ed_drag s))); [auto|].
    destruct (getNormalizedPos e).
    destruct (ed_mode s), (ed_container s) as [[sl st]|]; cbn;
      rewrite ?Hrect; auto.
  - unfold handleMouseUp. rewrite Hrect. destruct (ed_mode s); cbn; auto.
  - unfold handleMouseLeave. destruct (isDown (ed_drag s)); cbn; auto.
Qed.

(** X3. The pan tool never draws, and neither does an editor without an
    image: in pan mode, or with no image loaded, no sequence of pointer
    events changes the masks or starts a rectangle. *)
Theorem pan_mode_never_draws (s : Editor) (events : list PointerEvent) :
  ed_currentRect s = None ->
  ed_mode s = PAN \/ ed_image s = None ->
  ed_masks (play s events) = ed_masks s /\
  ed_currentRect (play s events) = None.
Proof.
  revert s. induction events as [|ev events IH]; intros s Hrect Hs; [auto|].
  destruct (dispatch_no_rect s ev Hrect (or_intror Hs)) as [Hr Hm].
  unfold play in *. cbn [fold_left].
  destruct (IH (dispatch s ev) Hr) as [IHm IHr].
  - rewrite dispatch_mode, dispatch_image. exact Hs.
  - rewrite IHm, Hm. auto.
Qed.

Lemma pan_mode_never_draws_witness :
  ed_currentRect (idleEditor PAN) = None /\
  (ed_mode (idleEditor PAN) = PAN \/ ed_image (idleEditor PAN) = None) /\
  ed_masks (play (idleEditor PAN)
              (drag (pointerAt 20 20) [pointerAt 60 50] 1700000000000))
  = ed_masks (idleEditor PAN).
Proof.
  split; [reflexivity|]. split; [left; reflexivity|].
  exact (proj1 (pan_mode_never_draws (idleEditor PAN) _ eq_refl
                  (or_introl eq_refl))).
Defined.

(** X4. Leaving the canvas cancels the drag: after the pointer has left,
    and until the next press, no move and no release commits anything. *)
Theorem leave_cancels_drag (s : Editor) (events : list PointerEvent) :
  rect_in_progress_ok s ->
  Forall not_press events ->
  ed_masks (play (handleMouseLeave s) events) = ed_masks s /\
  ed_currentRect (play (handleMouseLeave s) events) = None /\
  interaction (handleMouseLeave s) = Idle.
Proof.
  intros Hok Hev.
  assert (Hleft : ed_currentRect (handleMouseLeave s) = None /\
                  ed_masks (handleMouseLeave s) = ed_masks s /\
                  interaction (handleMouseLeave s) = Idle).
  { unfold handleMouseLeave, interaction.
    destruct (isDown (ed_drag s)) eqn:Hd; cbn; [auto|]. rewrite Hd.
    destruct Hok as [H|(H & _)]; [auto | congruence]. }
  destruct Hleft as (Hr & Hm & Hi). rewrite <- Hm.
  split; [|split; [|exact Hi]]; clear Hm Hi Hok; revert Hr;
    generalize (handleMouseLeave s) as t;
    induction Hev as [|ev events Hnp _ IH]; intros t Hr; try reflexivity;
    try exact Hr;
    destruct (dispatch_no_rect t ev Hr (or_introl Hnp)) as [Hr' Hm'];
    unfold play in *; cbn [fold_left]; rewrite IH by exact Hr'; auto.
Qed.

Lemma leave_cancels_drag_witness :
  rect_in_progress_ok drawingEditor /\
  Forall not_press [MouseMove (pointerAt 90 90); MouseUp 1700000000000] /\
  ed_masks (play (handleMouseLeave drawingEditor)
              [MouseMove (pointerAt 90 90); MouseUp 1700000000000])
  = ed_masks drawingEditor.
Proof.
  assert (H1 : rect_in_progress_ok drawingEditor).
  { right. split; [reflexivity|]. split; [reflexivity|].
    eexists _, _, _, _. reflexivity. }
  assert (H2 : Forall not_press
                 [MouseMove (pointerAt 90 90); MouseUp 1700000000000]).
  { repeat constructor. }
  split; [exact H1|]. split; [exact H2|].
  exact (proj1 (leave_cancels_drag drawingEditor _ H1 H2)).
Defined.

(** ** The editor: panning, zoom, preview *)

Lemma pan_moves moves : forall s x0 y0 sl st,
  ed_mode s = PAN ->
  ed_drag s = mkDrag true x0 y0 sl st ->
  is_Some (ed_container s) ->
  let s' := fold_left dispatch (map MouseMove moves) s in
  ed_masks s' = ed_masks s /\
  ed_currentRect s' = ed_currentRect s /\
  ed_drag s' = ed_drag s /\
  ed_container s'
  = match moves with
    | [] => ed_container s
    | _ => Some (sl - (clientX (List.last moves (pointerAt 0 0)) - x0),
                 st - (clientY (List.last moves (pointerAt 0 0)) - y0))
    end.
Proof.
  induction moves as [|e moves IH]; intros s x0 y0 sl st Hm Hd Hc; [simpl; auto|].
  cbn [map fold_left dispatch].
  assert (Hstep : handleMouseMove e s
                  = set_scroll (sl - (clientX e - x0), st - (clientY e - y0)) s).
  { unfold handleMouseMove. rewrite Hd, Hm. cbn.
    destruct Hc as [[a b] ->]. reflexivity. }
  rewrite Hstep.
  destruct (IH (set_scroll (sl - (clientX e - x0), st - (clientY e - y0)) s)
              x0 y0 sl st Hm Hd (mk_is_Some _ _ eq_refl))
    as (IHk & IHr & IHd & IHc).
  split; [exact IHk|]. split; [exact IHr|]. split; [exact IHd|].
  rewrite IHc. destruct moves; reflexivity.
Qed.

(** X5. Panning is absolute: in pan mode a press records the scroll
    offsets of the container, and no move changes the record or the masks.
    Whatever path the pointer took and wherever the container has been
    scrolled to since, a move assigns to its [scrollLeft] and [scrollTop]
    the recorded offsets minus the distance from the press to the
    pointer. *)
Theorem pan_follows_pointer (s : Editor) (e0 : MouseEvent)
    (moves : list MouseEvent) (img : Image) (sl st : Q) :
  ed_mode s = PAN -> ed_image s = Some img -> ed_container s = Some (sl, st) ->
  let s' := play s (MouseDown e0 :: map MouseMove moves) in
  ed_drag s' = mkDrag true (clientX e0) (clientY e0) sl st /\
  ed_masks s' = ed_masks s /\ interaction s' = Panning /\
  forall (e1 : MouseEvent) (offsets : Q * Q),
    handleMouseMove e1 (set_scroll offsets s')
    = set_scroll (sl - (clientX e1 - clientX e0),
                  st - (clientY e1 - clientY e0)) s'.
Proof.
  intros Hm Hi Hc s'.
  set (pressed := handleMouseDown e0 s).
  assert (Hp : ed_mode pressed = PAN /\
               ed_drag pressed = mkDrag true (clientX e0) (clientY e0) sl st /\
               ed_container pressed = Some (sl, st) /\
               ed_masks pressed = ed_masks s).
  { unfold pressed, handleMouseDown. rewrite Hi, Hm, Hc. cbn. auto. }
  destruct Hp as (Hpm & Hpd & Hpc & Hpk).
  destruct (pan_moves moves pressed _ _ _ _ Hpm Hpd
              (mk_is_Some _ _ Hpc)) as (Hk & _ & Hd & _).
  assert (Hs' : s' = fold_left dispatch (map MouseMove moves) pressed)
    by reflexivity.
  assert (Hmode : ed_mode s' = PAN) by (unfold s'; rewrite play_mode; exact Hm).
  assert (Hdrag : ed_drag s' = mkDrag true (clientX e0) (clientY e0) sl st)
    by (rewrite Hs', Hd; exact Hpd).
  split; [exact Hdrag|]. split; [rewrite Hs', Hk; exact Hpk|].
  split; [unfold interaction; rewrite Hdrag, Hmode; reflexivity|].
  intros e1 offsets. unfold handleMouseMove, set_scroll.
  cbn [ed_drag ed_mode ed_container ed_masks ed_image ed_currentRect].
  rewrite Hdrag, Hmode. reflexivity.
Qed.

Lemma pan_follows_pointer_witness :
  ed_mode (idleEditor PAN) = PAN /\
  ed_image (idleEditor PAN) = Some sampleImage /\
  ed_container (idleEditor PAN) = Some (0, 0) /\
  handleMouseMove (pointerAt 30 40)
    (set_scroll (0, 0)
       (play (idleEditor PAN)
          (MouseDown (pointerAt 50 50) :: map MouseMove [pointerAt 90 10])))
  = set_scroll (0 - (30 - 50), 0 - (40 - 50))
      (play (idleEditor PAN)
         (MouseDown (pointerAt 50 50) :: map MouseMove [pointerAt 90 10])).
Proof.
  split; [reflexivity|]. split; [reflexivity|]. split; [reflexivity|].
  exact (proj2 (proj2 (proj2
           (pan_follows_pointer (idleEditor PAN) (pointerAt 50 50)
              [pointerAt 90 10] sampleImage 0 0 eq_refl eq_refl eq_refl)))
           (pointerAt 30 40) (0, 0)).
Defined.

Lemma zoomOut_range z : 1 # 10 <= zoomOut z /\ (z <= 5 -> zoomOut z <= 5).
Proof.
  unfold zoomOut.
  destruct (Q.max_spec (z - (1 # 10)) (1 # 10)) as [[? E]|[? E]]; rewrite E;
    split; intros; lra.
Qed.

Lemma zoomIn_range z : zoomIn z <= 5 /\ (1 # 10 <= z -> 1 # 10 <= zoomIn z).
Proof.
  unfold zoomIn.
  destruct (Q.min_spec (z + (1 # 10)) 5) as [[? E]|[? E]]; rewrite E;
    split; intros; lra.
Qed.

(** X6. The zoom buttons keep the zoom factor between 0.1 and 5: from the
    initial 1, from the 0.7 set when an image loads, and from any factor in
    that range, every sequence of presses stays in the range. *)
Theorem zoom_stays_in_range (z : Q) (presses : list ZoomButton) :
  1 # 10 <= z <= 5 ->
  1 # 10 <= fold_left pressZoom presses z <= 5 /\
  (forall img s, 1 # 10 <= snd (onImageLoad img s) <= 5).
Proof.
  intros Hz. split.
  - revert z Hz. induction presses as [|b presses IH]; intros z Hz; [exact Hz|].
    cbn [fold_left]. apply IH. destruct b; cbn [pressZoom].
    + destruct (zoomOut_range z). split; [|apply H0]; tauto.
    + destruct (zoomIn_range z). split; [apply H0|]; tauto.
  - intros img s. cbn. split; discriminate.
Qed.

Lemma zoom_stays_in_range_witness :
  1 # 10 <= 7 # 10 <= 5 /\
  1 # 10 <= fold_left pressZoom
              [ZoomOutButton; ZoomOutButton; ZoomOutButton; ZoomOutButton;
               ZoomOutButton; ZoomOutButton; ZoomOutButton; ZoomInButton]
              (7 # 10) <= 5.
Proof.
  assert (H : 1 # 10 <= 7 # 10 <= 5) by (split; discriminate).
  split; [exact H|]. exact (proj1 (zoom_stays_in_range _ _ H)).
Defined.

(** A pointer over the canvas has a normalised position in the unit
    square. *)
Lemma over_canvas_unit (e : MouseEvent) :
  over_canvas e ->
  0 <= fst (getNormalizedPos e) <= 1 /\ 0 <= snd (getNormalizedPos e) <= 1.
Proof.
  intros (Hw & Hh & Hx & Hy). unfold getNormalizedPos. cbn [fst snd].
  repeat split.
  - apply Qle_shift_div_l; [exact Hw | lra].
  - apply Qle_shift_div_r; [exact Hw | lra].
  - apply Qle_shift_div_l; [exact Hh | lra].
  - apply Qle_shift_div_r; [exact Hh | lra].
Qed.

(** X7. A drag that starts and ends over the canvas, wherever the pointer
    went in between, commits only a mask whose corner lies in the unit
    square and whose extents are positive and at most 1. *)
Theorem drag_over_canvas_stays_in_image (s : Editor) (e0 e1 : MouseEvent)
    (moves : list MouseEvent) (now : N) (img : Image) (m : MaskRect) :
  ed_mode s = DRAW -> ed_image s = Some img ->
  over_canvas e0 -> over_canvas e1 ->
  ed_masks (play s (drag e0 (moves ++ [e1]) now)) = ed_masks s ++ [m] ->
  0 <= mask_x m <= 1 /\ 0 <= mask_y m <= 1 /\
  0 < mask_w m <= 1 /\ 0 < mask_h m <= 1.
Proof.
  intros Hmode Himg H0 H1 Hm.
  destruct (drag_reaches_last_move s e0 moves e1 now img Hmode Himg)
    as (moved & Hs' & _ & Hmk & Hmr).
  rewrite Hs' in Hm.
  destruct (over_canvas_unit e0 H0) as [Hx0 Hy0].
  destruct (over_canvas_unit e1 H1) as [Hx1 Hy1].
  remember (fst (getNormalizedPos e0)) as x0 eqn:Ex0.
  remember (snd (getNormalizedPos e0)) as y0 eqn:Ey0.
  remember (fst (getNormalizedPos e1)) as x1 eqn:Ex1.
  remember (snd (getNormalizedPos e1)) as y1 eqn:Ey1.
  clear Ex0 Ey0 Ex1 Ey1.
  destruct (handleMouseUp_cases now moved)
    as [Hsame | (x & y & w & h & _ & Hrect & Hw & Hh & Hcommit)].
  - exfalso. rewrite Hsame, Hmk in Hm.
    apply (f_equal (@length _)) in Hm. rewrite length_app in Hm.
    simpl in Hm. lia.
  - rewrite Hmr in Hrect. injection Hrect as <- <- <- <-.
    rewrite Hcommit, Hmk in Hm. apply app_inv_head in Hm.
    apply (f_equal (fun l => List.hd m l)) in Hm.
    lazy beta iota delta [List.hd] in Hm. rewrite <- Hm.
    cbv zeta in Hw, Hh. unfold threshold in Hw, Hh.
    lazy beta iota delta [mask_x mask_y mask_w mask_h].
    assert (Ex : Qabs (x1 - x0) <= 1) by (apply Qabs_Qle_condition; lra).
    assert (Ey : Qabs (y1 - y0) <= 1) by (apply Qabs_Qle_condition; lra).
    set (aw := Qabs (x1 - x0)) in *. set (ah := Qabs (y1 - y0)) in *.
    destruct (Qltb (x1 - x0) 0) eqn:Ew, (Qltb (y1 - y0) 0) eqn:Eh;
      cbv iota in Hw, Hh |- *;
      try apply Qltb_lt in Ew; try apply Qltb_ge in Ew;
      try apply Qltb_lt in Eh; try apply Qltb_ge in Eh;
      repeat split; lra.
Qed.

Lemma drag_over_canvas_stays_in_image_witness :
  over_canvas (pointerOn128 96 96) /\ over_canvas (pointerOn128 32 64) /\
  let m := mkMaskRect "1700000000000" ((96 / 128) + (32 / 128 - 96 / 128))
             ((96 / 128) + (64 / 128 - 96 / 128))
             (Qabs (32 / 128 - 96 / 128)) (Qabs (64 / 128 - 96 / 128))
             manual None in
  ed_masks (play (idleEditor DRAW)
              (drag (pointerOn128 96 96)
                 ([pointerOn128 64 80] ++ [pointerOn128 32 64]) 1700000000000))
  = ed_masks (idleEditor DRAW) ++ [m] /\
  0 <= mask_x m <= 1 /\ 0 <= mask_y m <= 1 /\
  0 < mask_w m <= 1 /\ 0 < mask_h m <= 1.
Proof.
  assert (H0 : over_canvas (pointerOn128 96 96))
    by (unfold over_canvas; cbn; repeat split; discriminate).
  assert (H1 : over_canvas (pointerOn128 32 64))
    by (unfold over_canvas; cbn; repeat split; discriminate).
  split; [exact H0|]. split; [exact H1|].
  split; [reflexivity|].
  exact (drag_over_canvas_stays_in_image (idleEditor DRAW) (pointerOn128 96 96)
           (pointerOn128 32 64) [pointerOn128 64 80] 1700000000000 sampleImage
           _ eq_refl eq_refl H0 H1 eq_refl).
Defined.

(** X8. What is previewed is what is committed: whenever a release commits
    a mask, the rectangle the painting effect was drawing for the rectangle
    in progress has exactly the position and the extents of that mask. *)
Theorem preview_is_committed (now : N) (s : Editor) (m : MaskRect) :
  ed_masks (handleMouseUp now s) = ed_masks s ++ [m] ->
  exists r,
    ed_currentRect s = Some r /\
    previewRect r = Some (mask_x m, mask_y m, mask_w m, mask_h m).
Proof.
  intros Hcommit.
  destruct (handleMouseUp_cases now s)
    as [Hsame | (x & y & w & h & _ & Hrect & _ & _ & Hm)].
  - rewrite Hsame in Hcommit. apply (f_equal length) in Hcommit.
    rewrite length_app in Hcommit. simpl in Hcommit. lia.
  - rewrite Hm in Hcommit. apply app_inv_head in Hcommit.
    injection Hcommit as <-. eexists. split; [exact Hrect|].
    unfold previewRect. cbn [part_x part_y part_w part_h default].
    cbn [mask_x mask_y mask_w mask_h].
    destruct (Qltb w 0), (Qltb h 0); reflexivity.
Qed.

Lemma preview_is_committed_witness :
  ed_masks (handleMouseUp 1700000000000 drawingEditor)
  = ed_masks drawingEditor
    ++ [mkMaskRect "1700000000000" ((20 - 0) / 100) ((20 - 0) / 100)
          ((60 - 0) / 100 - (20 - 0) / 100) ((50 - 0) / 100 - (20 - 0) / 100)
          manual None] /\
  exists r,
    ed_currentRect drawingEditor = Some r /\
    previewRect r = Some ((20 - 0) / 100, (20 - 0) / 100,
                          (60 - 0) / 100 - (20 - 0) / 100,
                          (50 - 0) / 100 - (20 - 0) / 100).
Proof.
  assert (H : ed_masks (handleMouseUp 1700000000000 drawingEditor)
              = ed_masks drawingEditor
                ++ [mkMaskRect "1700000000000" ((20 - 0) / 100) ((20 - 0) / 100)
                      ((60 - 0) / 100 - (20 - 0) / 100)
                      ((50 - 0) / 100 - (20 - 0) / 100) manual None])
    by (vm_compute; reflexivity).
  split; [exact H|].
  exact (preview_is_committed _ _ _ H).
Defined.

(** ** The project: what the mask handlers keep *)

Lemma with_masks_same (f : ProjectFile) : with_masks (file_masks f) f = f.
Proof. destruct f; reflexivity. Qed.

Lemma handleMaskChange_frame idx update (fs : list ProjectFile) :
  without_masks <$> handleMaskChange idx update fs = without_masks <$> fs.
Proof.
  unfold handleMaskChange.
  destruct (fs !! idx) as [current|] eqn:Hc; [|reflexivity].
  destruct (decide (file_type current = image_file)); [|reflexivity].
  rewrite list_fmap_insert. apply list_insert_id.
  rewrite list_lookup_fmap, Hc. reflexivity.
Qed.

Lemma step_frame s a :
  without_masks <$> files (step s a) = without_masks <$> files s /\
  projectDesc (step s a) = projectDesc s /\
  exportTrigger (step s a) = exportTrigger s.
Proof.
  destruct a as [i | now ed | startedAt run | confirm | ]; cbn [step].
  - auto.
  - cbn. split; [apply handleMaskChange_frame | auto].
  - cbn [setCurrentFileIndex files projectDesc exportTrigger].
    assert (Hs : projectDesc (handleAutoDetect run (setCurrentFileIndex startedAt s))
                 = projectDesc s /\
                 exportTrigger (handleAutoDetect run (setCurrentFileIndex startedAt s))
                 = exportTrigger s).
    { unfold handleAutoDetect. cbn [files currentFileIndex setCurrentFileIndex].
      repeat match goal with
             | |- context [if ?b then _ else _] => destruct b
             | |- context [match ?o with Some _ => _ | None => _ end] =>
                 destruct o
             end; cbn; auto. }
    split; [|exact Hs].
    destruct (handleAutoDetect_files run (setCurrentFileIndex startedAt s))
      as [-> | (results & _ & ->)]; [reflexivity|].
    apply handleMaskChange_frame.
  - split.
    + destruct (handleApplyMasksToAll_files confirm s)
        as [-> | (source & _ & ->)]; [reflexivity|].
      change (map ?f ?l) with (f <$> l). rewrite <- list_fmap_compose.
      apply list_fmap_ext. intros _ f _. cbn.
      destruct (decide (file_type f = image_file)); reflexivity.
    + unfold handleApplyMasksToAll.
      repeat match goal with
             | |- context [if ?b then _ else _] => destruct b
             | |- context [match ?o with Some _ => _ | None => _ end] =>
                 destruct o
             end; cbn; auto.
  - cbn. split; [apply handleMaskChange_frame | auto].
Qed.

(** X9. Drawing, detecting, copying masks to all, clearing and selecting a
    file never add, remove, reorder, rename or retype a file, and never
    touch its bytes, address, audit result or status: through any sequence
    of these actions the files are the same but for their masks, and the
    project description and the export trigger are as they were. *)
Theorem mask_actions_keep_files (s : App) (actions : list Action) :
  without_masks <$> files (runActions s actions) = without_masks <$> files s /\
  projectDesc (runActions s actions) = projectDesc s /\
  exportTrigger (runActions s actions) = exportTrigger s.
Proof.
  revert s. induction actions as [|a actions IH]; intros s; [auto|].
  unfold runActions in *. cbn [fold_left].
  destruct (IH (step s a)) as (Hf & Hd & Ht).
  destruct (step_frame s a) as (Hf' & Hd' & Ht').
  rewrite Hf, Hd, Ht. auto.
Qed.

(** X10. Copying masks to all is guarded and idempotent: with an empty
    source collection, or with the confirmation refused, nothing changes;
    files that are not images are never changed; and copying a second time
    changes nothing more. *)
Theorem apply_to_all_guarded_idempotent (confirm : bool) (s : App) :
  (forall source, files s !! currentFileIndex s = Some source ->
                  file_masks source = [] ->
                  handleApplyMasksToAll confirm s = s) /\
  handleApplyMasksToAll false s = s /\
  (forall j f, files s !! j = Some f -> file_type f <> image_file ->
               files (handleApplyMasksToAll confirm s) !! j = Some f) /\
  handleApplyMasksToAll confirm (handleApplyMasksToAll confirm s)
  = handleApplyMasksToAll confirm s.
Proof.
  split; [|split; [|split]].
  - intros source Hsrc Hempty. unfold handleApplyMasksToAll.
    rewrite Hsrc, Hempty. reflexivity.
  - unfold handleApplyMasksToAll.
    destruct (files s !! currentFileIndex s); [|reflexivity].
    destruct (length _ =? 0)%nat; reflexivity.
  - intros j f Hj Hty.
    destruct (handleApplyMasksToAll_files confirm s)
      as [-> | (source & _ & ->)]; [exact Hj|].
    change (map ?g ?l) with (g <$> l). rewrite list_lookup_fmap, Hj. cbn.
    rewrite decide_False by exact Hty. reflexivity.
  - unfold handleApplyMasksToAll at 2.
    destruct (files s !! currentFileIndex s) as [source|] eqn:Hsrc;
      [|unfold handleApplyMasksToAll; rewrite Hsrc; reflexivity].
    destruct (length (file_masks source) =? 0)%nat eqn:Hlen;
      [unfold handleApplyMasksToAll; rewrite Hsrc, Hlen; reflexivity|].
    destruct confirm; cbn [negb];
      [|unfold handleApplyMasksToAll; rewrite Hsrc, Hlen; reflexivity].
    unfold handleApplyMasksToAll, setFiles.
    cbn [files currentFileIndex projectDesc exportTrigger].
    change (map ?g ?l) with (g <$> l).
    rewrite list_lookup_fmap, Hsrc. cbn [fmap option_fmap option_map].
    assert (Hm : file_masks (if decide (file_type source = image_file)
                             then with_masks (file_masks source) source
                             else source) = file_masks source).
    { destruct (decide (file_type source = image_file)); reflexivity. }
    rewrite Hm, Hlen. cbn [negb]. f_equal.
    rewrite <- list_fmap_compose. apply list_fmap_ext. intros _ f _. cbn.
    destruct (decide (file_type f = image_file)) as [Hf|Hf]; cbn.
    + rewrite decide_True by exact Hf. reflexivity.
    + rewrite decide_False by exact Hf. reflexivity.
Qed.

(** X11. A detection only appends, and only when it brought something: the
    masks of the current image become the old ones followed by one mask of
    type ai, labelled, for every region found, and no other file changes;
    with no API key, a failed fetch, a failed or empty detection, or a
    current file that is not an image, the project is left exactly as it
    was. *)
Theorem auto_detect_appends (run : DetectorRun) (s : App) :
  (run_api_key run = false \/ run_fetched run = false \/
   run_results run = None \/ run_results run = Some [] \/
   (forall current, files s !! currentFileIndex s = Some current ->
                    file_type current <> image_file) ->
   handleAutoDetect run s = s) /\
  (forall current results,
     files s !! currentFileIndex s = Some current ->
     file_type current = image_file ->
     run_api_key run = true -> run_fetched run = true ->
     run_results run = Some results ->
     files (handleAutoDetect run s)
     = <[currentFileIndex s :=
           with_masks (file_masks current ++ newMasks results) current]>
         (files s) /\
     length (newMasks results) = length results /\
     Forall (fun m => mask_type m = ai /\ is_Some (mask_label m))
            (newMasks results)) /\
  (forall j, j <> currentFileIndex s ->
             files (handleAutoDetect run s) !! j = files s !! j).
Proof.
  split; [|split].
  - intros Hcase. unfold handleAutoDetect.
    destruct (length (files s) =? 0)%nat; [reflexivity|].
    destruct (files s !! currentFileIndex s) as [current|] eqn:Hc;
      [|reflexivity].
    destruct (decide (file_type current = image_file)) as [Hty|Hty];
      [|reflexivity].
    destruct (run_api_key run) eqn:Hk; [|reflexivity].
    destruct (run_fetched run) eqn:Hf; [|reflexivity]. cbn [negb].
    destruct (run_results run) as [[|d results]|] eqn:Hr; try reflexivity.
    exfalso. destruct Hcase as [H|[H|[H|[H|H]]]]; try discriminate H.
    exact (H current eq_refl Hty).
  - intros current results Hc Hty Hk Hf Hr. split; [|split].
    + unfold handleAutoDetect.
      assert (Hlen : (length (files s) =? 0)%nat = false).
      { apply Nat.eqb_neq. intros H0. apply length_zero_iff_nil in H0.
        rewrite H0 in Hc. discriminate Hc. }
      rewrite Hlen, Hc. rewrite decide_True by exact Hty.
      rewrite Hk, Hf, Hr. cbn [negb].
      destruct results as [|d results].
      * cbn. rewrite app_nil_r, with_masks_same.
        symmetry. apply list_insert_id. exact Hc.
      * cbn [length Nat.eqb setFiles files]. unfold handleMaskChange.
        rewrite Hc. rewrite decide_True by exact Hty. reflexivity.
    + unfold newMasks. apply length_map.
    + unfold newMasks. apply Forall_forall. intros m Hm.
      apply list_elem_of_fmap in Hm as [d [-> _]]. cbn. eauto.
  - intros j Hj.
    destruct (handleAutoDetect_files run s) as [-> | (results & _ & ->)];
      [reflexivity|].
    apply handleMaskChange_others. exact Hj.
Qed.

Lemma auto_detect_appends_witness :
  files oneImage !! currentFileIndex oneImage
  = Some (mkFile "img-1700000000000-0.5" "plan.jpg" [] "blob:plan" image_file
                 [leftHalf] None pending) /\
  file_masks <$>
    files (handleAutoDetect
             (mkRun true true
                (Some [mkDet 1700000000500 "0.25"
                         (mkDetection 100 200 400 600 "stamp")]))
             oneImage)
  = [[leftHalf;
      detectedMask 1700000000500 "0.25" (mkDetection 100 200 400 600 "stamp")]] /\
  handleAutoDetect (mkRun true true None) oneImage = oneImage.
Proof.
  split; [reflexivity|]. split.
  - destruct (proj1 (proj2 (auto_detect_appends
                              (mkRun true true
                                 (Some [mkDet 1700000000500 "0.25"
                                          (mkDetection 100 200 400 600 "stamp")]))
                              oneImage))
                _ _ eq_refl eq_refl eq_refl eq_refl eq_refl) as [-> _].
    reflexivity.
  - apply (proj1 (auto_detect_appends (mkRun true true None) oneImage)).
    right; right; left. reflexivity.
Defined.

Lemma apply_to_all_guarded_idempotent_witness :
  files freshProject !! currentFileIndex freshProject
  = Some (mkFile "img-1700000000000-0.5" "plan.jpg" [] "blob:plan" image_file
                 [] None pending) /\
  handleApplyMasksToAll true freshProject = freshProject /\
  files mixedProject !! 2%nat = Some bomFile /\
  file_type bomFile <> image_file /\
  files (handleApplyMasksToAll true mixedProject) !! 2%nat = Some bomFile.
Proof.
  assert (H : file_type bomFile <> image_file) by discriminate.
  split; [reflexivity|]. split.
  - exact (proj1 (apply_to_all_guarded_idempotent true freshProject)
             _ eq_refl eq_refl).
  - split; [reflexivity|]. split; [exact H|].
    exact (proj1 (proj2 (proj2 (apply_to_all_guarded_idempotent true
                                  mixedProject))) 2%nat bomFile eq_refl H).
Defined.

(** ** Detection: where a detected mask lies *)

(** X12. A box that is consistently on one scale gives the mask one
    expects: on the 0-1000 scale (origin and extents above 1, far corner at
    most 1000) origin and extents are those of the box over 1000, positive
    and at most 1; a box in the unit square is taken as it is.  The
    decision is made for each component alone: a box of the 0-1000 scale
    that is at most one unit wide has its origin divided and its width
    kept, as a fraction of the image. *)
Theorem detection_consistent_box (now : N) (random : string)
    (r : AiDetectionResult) :
  let m := detectedMask now random r in
  (1 < box_1 r -> 1 < box_0 r ->
   1 < box_3 r - box_1 r -> 1 < box_2 r - box_0 r ->
   box_3 r <= 1000 -> box_2 r <= 1000 ->
   mask_x m = box_1 r / 1000 /\ mask_y m = box_0 r / 1000 /\
   mask_w m = (box_3 r - box_1 r) / 1000 /\
   mask_h m = (box_2 r - box_0 r) / 1000 /\
   0 < mask_x m <= 1 /\ 0 < mask_y m <= 1 /\
   0 < mask_w m <= 1 /\ 0 < mask_h m <= 1) /\
  (0 <= box_1 r -> box_1 r <= box_3 r -> box_3 r <= 1 ->
   0 <= box_0 r -> box_0 r <= box_2 r -> box_2 r <= 1 ->
   mask_x m = box_1 r /\ mask_y m = box_0 r /\
   mask_w m = box_3 r - box_1 r /\ mask_h m = box_2 r - box_0 r /\
   0 <= mask_w m <= 1 /\ 0 <= mask_h m <= 1) /\
  (1 < box_1 r -> box_3 r - box_1 r <= 1 ->
   mask_x m = box_1 r / 1000 /\ mask_w m = box_3 r - box_1 r).
Proof.
  cbn [detectedMask mask_x mask_y mask_w mask_h]. split; [|split].
  - intros H1 H0 Hw Hh Hx Hy.
    rewrite (proj2 (Qltb_lt _ _) H1), (proj2 (Qltb_lt _ _) H0),
            (proj2 (Qltb_lt _ _) Hw), (proj2 (Qltb_lt _ _) Hh).
    repeat (split; [reflexivity|]).
    assert (E : forall q, q / 1000 == q * (1 # 1000)) by (intros; field).
    rewrite !E. repeat split; lra.
  - intros H1 H13 H3 H0 H02 H2.
    rewrite (proj2 (Qltb_ge 1 (box_1 r))) by lra.
    rewrite (proj2 (Qltb_ge 1 (box_0 r))) by lra.
    rewrite (proj2 (Qltb_ge 1 (box_3 r - box_1 r))) by lra.
    rewrite (proj2 (Qltb_ge 1 (box_2 r - box_0 r))) by lra.
    repeat (split; [reflexivity|]). repeat split; lra.
  - intros H1 Hw.
    rewrite (proj2 (Qltb_lt _ _) H1), (proj2 (Qltb_ge _ _) Hw).
    split; reflexivity.
Qed.

Lemma detection_consistent_box_witness :
  1 < box_1 (mkDetection 100 200 400 600 "stamp") /\
  mask_w (detectedMask 1700000000500 "0.25"
            (mkDetection 100 200 400 600 "stamp"))
  = (600 - 200) / 1000 /\
  1 < box_1 (mkDetection 100 200 400 201 "rule") /\
  mask_w (detectedMask 1700000000500 "0.25"
            (mkDetection 100 200 400 201 "rule"))
  = 201 - 200.
Proof.
  assert (H1 : 1 < box_1 (mkDetection 100 200 400 600 "stamp")) by reflexivity.
  assert (H2 : 1 < box_1 (mkDetection 100 200 400 201 "rule")) by reflexivity.
  assert (Hle : forall a b : Q, Qle_bool a b = true -> a <= b)
    by (intros a b; apply Qle_bool_iff).
  split; [exact H1|]. split; [|split; [exact H2|]].
  - exact (proj1 (proj2 (proj2
             (proj1 (detection_consistent_box 1700000000500 "0.25"
                       (mkDetection 100 200 400 600 "stamp"))
                H1 eq_refl eq_refl eq_refl
                (Hle 600 1000 eq_refl) (Hle 400 1000 eq_refl))))).
  - exact (proj2 (proj2 (proj2
             (detection_consistent_box 1700000000500 "0.25"
                (mkDetection 100 200 400 201 "rule"))) H2
             (Hle (201 - 200) 1 eq_refl))).
Defined.

(** X13. A box of the 0-1000 scale whose left (or top) coordinate is exactly
    1 is misread: that coordinate is not above 1, so it is kept as the
    normalised position 1, the far edge of the image, and the mask covers no
    pixel: exporting with this mask alone gives the image back. *)
Theorem detection_at_one_covers_nothing (P : Platform) (img : Image) (now : N)
    (random : string) (r : AiDetectionResult) (i j : Z) :
  (box_1 r == 1 /\ box_1 r <= box_3 r) \/ (box_0 r == 1 /\ box_0 r <= box_2 r) ->
  in_bounds (naturalWidth img) (naturalHeight img) i j = true ->
  pixel_outside (detectedMask now random r) img i j /\
  canvas_px (composite P img [detectedMask now random r]) i j
  = image_px img i j.
Proof.
  intros Hbox Hin.
  assert (Hout : pixel_outside (detectedMask now random r) img i j).
  { unfold in_bounds in Hin. repeat (apply andb_prop in Hin as [Hin ?]).
    assert (Hi : inject_Z i + 1 <= inject_Z (naturalWidth img)).
    { change 1 with (inject_Z 1). rewrite <- inject_Z_plus, <- Zle_Qle. lia. }
    assert (Hj : inject_Z j + 1 <= inject_Z (naturalHeight img)).
    { change 1 with (inject_Z 1). rewrite <- inject_Z_plus, <- Zle_Qle. lia. }
    assert (HW : 0 <= inject_Z (naturalWidth img)).
    { change 0 with (inject_Z 0). rewrite <- Zle_Qle. lia. }
    assert (HH : 0 <= inject_Z (naturalHeight img)).
    { change 0 with (inject_Z 0). rewrite <- Zle_Qle. lia. }
    unfold pixel_outside, box_left, box_top.
    cbn [detectedMask mask_x mask_y mask_w mask_h].
    set (W := inject_Z (naturalWidth img)) in *.
    set (H' := inject_Z (naturalHeight img)) in *.
    destruct Hbox as [[Ex Hx]|[Ey Hy]].
    - left. rewrite (proj2 (Qltb_ge 1 (box_1 r))) by lra.
      assert (Hw : 0 <= (if Qltb 1 (box_3 r - box_1 r)
                         then (box_3 r - box_1 r) / 1000
                         else box_3 r - box_1 r)).
      { destruct (Qltb 1 (box_3 r - box_1 r)); [|lra].
        assert (E : (box_3 r - box_1 r) / 1000
                    == (box_3 r - box_1 r) * (1 # 1000)) by field.
        rewrite E. lra. }
      set (w := if Qltb 1 (box_3 r - box_1 r) then _ else _) in *.
      assert (Hp : 0 <= w * W) by (apply Qmult_le_0_compat; assumption).
      rewrite Q.min_l by lra. rewrite Ex. lra.
    - right; right; left. rewrite (proj2 (Qltb_ge 1 (box_0 r))) by lra.
      assert (Hh : 0 <= (if Qltb 1 (box_2 r - box_0 r)
                         then (box_2 r - box_0 r) / 1000
                         else box_2 r - box_0 r)).
      { destruct (Qltb 1 (box_2 r - box_0 r)); [|lra].
        assert (E : (box_2 r - box_0 r) / 1000
                    == (box_2 r - box_0 r) * (1 # 1000)) by field.
        rewrite E. lra. }
      set (h := if Qltb 1 (box_2 r - box_0 r) then _ else _) in *.
      assert (Hp : 0 <= h * H') by (apply Qmult_le_0_compat; assumption).
      rewrite Q.min_l by lra. rewrite Ey. lra. }
  split; [exact Hout|].
  unfold composite. rewrite paint_all_outside.
  - apply drawImage_shows. exact Hin.
  - intros m Hm. apply list_elem_of_singleton in Hm as ->. exact Hout.
Qed.

Lemma detection_at_one_covers_nothing_witness :
  ((box_1 (mkDetection 1 1 400 600 "stamp") == 1 /\
    box_1 (mkDetection 1 1 400 600 "stamp")
    <= box_3 (mkDetection 1 1 400 600 "stamp")) \/
   (box_0 (mkDetection 1 1 400 600 "stamp") == 1 /\
    box_0 (mkDetection 1 1 400 600 "stamp")
    <= box_2 (mkDetection 1 1 400 600 "stamp"))) /\
  in_bounds (naturalWidth sampleImage) (naturalHeight sampleImage) 1 1 = true /\
  canvas_px (composite samplePlatform sampleImage
               [detectedMask 1700000000500 "0.25"
                  (mkDetection 1 1 400 600 "stamp")]) 1 1
  = image_px sampleImage 1 1.
Proof.
  assert (H : (box_1 (mkDetection 1 1 400 600 "stamp") == 1 /\
               box_1 (mkDetection 1 1 400 600 "stamp")
               <= box_3 (mkDetection 1 1 400 600 "stamp")) \/
              (box_0 (mkDetection 1 1 400 600 "stamp") == 1 /\
               box_0 (mkDetection 1 1 400 600 "stamp")
               <= box_2 (mkDetection 1 1 400 600 "stamp"))).
  { left. split; [reflexivity | discriminate]. }
  split; [exact H|]. split; [reflexivity|].
  exact (proj2 (detection_at_one_covers_nothing samplePlatform sampleImage
                  1700000000500 "0.25" _ 1 1 H eq_refl)).
Defined.

(** ** Export: entry names and the content of the archive *)

Lemma replace_extension_step c rest :
  replace_extension (String c rest)
  = if is_extension (String c rest) then ""
    else String c (replace_extension rest).
Proof. reflexivity. Qed.

Lemma all_not_slash_dot_no_extension s :
  all_not_slash_dot s = true -> replace_extension s = s.
Proof.
  induction s as [|c s IH]; [reflexivity|]. intros H. simpl in H.
  apply andb_prop in H as [Hc Hs]. rewrite replace_extension_step.
  assert (Hno : is_extension (String c s) = false).
  { simpl. unfold not_slash_dot in Hc. apply andb_prop in Hc as [_ Hc].
    apply negb_true_iff in Hc. rewrite Hc. reflexivity. }
  rewrite Hno, (IH Hs). reflexivity.
Qed.

(** X14. [replace(/\.[^/.]+$/, "")] removes exactly a final extension: the
    result is the name without a suffix that is either empty or a dot
    followed by one or more characters other than dot and slash; a name
    that ends in such a suffix loses exactly it, and a name with no dot and
    no slash is unchanged. *)
Theorem replace_extension_removes_extension (s : string) :
  (exists ext, s = replace_extension s +:+ ext /\
               (ext = "" \/ is_extension ext = true)) /\
  (forall base ext, s = base +:+ ext -> is_extension ext = true ->
                    replace_extension s = base) /\
  (all_not_slash_dot s = true -> replace_extension s = s).
Proof.
  split; [|split].
  - induction s as [|c s IH].
    + exists "". auto.
    + rewrite replace_extension_step.
      destruct (is_extension (String c s)) eqn:E.
      * exists (String c s). auto.
      * destruct IH as (ext & Hs & Hext). exists ext. split; [|exact Hext].
        change (String c s = String c (replace_extension s +:+ ext)).
        rewrite <- Hs. reflexivity.
  - intros base ext -> Hext. apply replace_extension_app. exact Hext.
  - apply all_not_slash_dot_no_extension.
Qed.

Lemma replace_extension_removes_extension_witness :
  "plan.v2.jpg" = "plan.v2" +:+ ".jpg" /\ is_extension ".jpg" = true /\
  replace_extension "plan.v2.jpg" = "plan.v2".
Proof.
  split; [reflexivity|]. split; [reflexivity|].
  exact (proj1 (proj2 (replace_extension_removes_extension "plan.v2.jpg"))
           "plan.v2" ".jpg" eq_refl eq_refl).
Defined.

Lemma append_inj_r (a b c : string) : a +:+ c = b +:+ c -> a = b.
Proof.
  revert b. induction a as [|x a IH]; intros [|y b] H.
  - reflexivity.
  - apply (f_equal String.length) in H. rewrite !length_append in H.
    simpl in H. lia.
  - apply (f_equal String.length) in H. rewrite !length_append in H.
    simpl in H. lia.
  - change (String x (a +:+ c) = String y (b +:+ c)) in H.
    injection H as -> H. rewrite (IH b H). reflexivity.
Qed.

(** X15. When two files meet in the archive: two images get the same entry
    name exactly when their names agree after the removal of the final
    extension; an image and a file that is not an image, exactly when the
    latter is named like the former with the extension replaced by [.png];
    two files that are not images, exactly when they have the same name. *)
Theorem entry_names_collide_iff (f g : ProjectFile) :
  (file_type f = image_file -> file_type g = image_file ->
   (entryName f = entryName g <->
    replace_extension (file_name f) = replace_extension (file_name g))) /\
  (file_type f = image_file -> file_type g <> image_file ->
   (entryName f = entryName g <->
    file_name g = replace_extension (file_name f) +:+ ".png")) /\
  (file_type f <> image_file -> file_type g <> image_file ->
   (entryName f = entryName g <-> file_name f = file_name g)).
Proof.
  unfold entryName. split; [|split]; intros Hf Hg.
  - rewrite !decide_True by assumption. split.
    + apply append_inj_r.
    + intros ->. reflexivity.
  - rewrite decide_True by assumption. rewrite decide_False by assumption.
    split; intros H; congruence.
  - rewrite !decide_False by assumption. tauto.
Qed.

Lemma entry_names_collide_iff_witness :
  file_type planFile = image_file /\ file_type bomFile <> image_file /\
  (entryName planFile = entryName planFile <->
   replace_extension (file_name planFile)
   = replace_extension (file_name planFile)) /\
  (entryName planFile = entryName bomFile <->
   file_name bomFile = replace_extension (file_name planFile) +:+ ".png").
Proof.
  assert (H : file_type bomFile <> image_file) by discriminate.
  split; [reflexivity|]. split; [exact H|]. split.
  - exact (proj1 (entry_names_collide_iff planFile planFile) eq_refl eq_refl).
  - exact (proj1 (proj2 (entry_names_collide_iff planFile bomFile)) eq_refl H).
Defined.

Lemma assemble_only_entries P fs : forall acc name found,
  fst (fold_left (exportOne P) fs acc) !! name = Some found ->
  fst acc !! name = Some found \/
  (exists f blob,
     f ∈ fs /\ processImageForExport P f = Resolved blob /\
     entryName f = name /\ found = ZipBlob blob) \/
  (found = ZipDir /\ endsWithSlash name = true /\
   exists f rest,
     f ∈ fs /\ succeeded P f = true /\ entryName f = name +:+ rest).
Proof.
  induction fs as [|g fs IH]; intros acc name found Hin; [left; exact Hin|].
  cbn [fold_left] in Hin.
  destruct (IH _ _ _ Hin)
    as [Hacc | [(f & blob & Hf & Hp & Hn & Hv) | (Hd & Hs & f & rest & Hf & Hok & Hn)]].
  - rewrite exportOne_entries in Hacc.
    destruct (processImageForExport P g) as [blob|err] eqn:Hg;
      [|left; exact Hacc].
    assert (Hok : succeeded P g = true)
      by (unfold succeeded; rewrite Hg; reflexivity).
    apply fileAdd_adds in Hacc
      as [[-> ->] | [Hacc | (Hd & Hs & rest & Hrest)]].
    + right. left. exists g, blob. split; [left|]. auto.
    + left. exact Hacc.
    + right. right. split; [exact Hd|]. split; [exact Hs|].
      exists g, rest. split; [left|]. auto.
  - right. left. exists f, blob. split; [right; exact Hf | auto].
  - right. right. split; [exact Hd|]. split; [exact Hs|].
    exists f, rest. split; [right; exact Hf | auto].
Qed.

(** X16. The archive holds nothing but the outputs, the folders they lie
    in and the requirements: every entry of the folder is the output of a
    file whose composition went through, under its entry name, or the
    directory of a folder on the path of such an entry name, or
    [requirements.txt] with the description of a project that has one.
    The requirements are in the archive whenever the description is not
    empty and no file that went through has that entry name. *)
Theorem archive_holds_only_outputs (P : Platform)
    (settle : list ProjectFile -> list ProjectFile) (s : App) :
  (2 <= length (files s))%nat ->
  settle (files s) ≡ₚ files s ->
  exists folder,
    batch_folder (handleBatchExport P settle s) = Some folder /\
    (forall name found,
       folder !! name = Some found ->
       (name = "requirements.txt" /\ found = ZipText (projectDesc s) /\
        projectDesc s <> "") \/
       (exists f blob,
          f ∈ files s /\ processImageForExport P f = Resolved blob /\
          entryName f = name /\ found = ZipBlob blob) \/
       (found = ZipDir /\ endsWithSlash name = true /\
        exists f rest,
          f ∈ files s /\ succeeded P f = true /\
          entryName f = name +:+ rest)) /\
    (projectDesc s <> "" ->
     (forall f, f ∈ files s -> succeeded P f = true ->
                entryName f <> "requirements.txt") ->
     folder !! "requirements.txt" = Some (ZipText (projectDesc s))).
Proof.
  intros Hlen Hperm.
  exists (fst (fold_left (exportOne P) (settle (files s)) (manifest s, []))).
  rewrite handleBatchExport_archive by exact Hlen. cbv zeta.
  set (acc := fold_left (exportOne P) (settle (files s)) (manifest s, [])).
  split; [destruct (generateAsync P (fst acc)); reflexivity|]. split.
  - intros name found Hin. unfold acc in Hin.
    destruct (assemble_only_entries _ _ _ _ _ Hin)
      as [Hm | [(f & blob & Hf & Hp & Hn & Hv)
                | (Hd & Hs & f & rest & Hf & Hok & Hn)]].
    + left. cbn [fst] in Hm. unfold manifest in Hm.
      destruct (String.eqb (projectDesc s) "") eqn:E.
      * rewrite lookup_empty in Hm. discriminate Hm.
      * apply String.eqb_neq in E. rewrite lookup_insert in Hm.
        case_decide as Hname.
        -- injection Hm as <-. auto.
        -- rewrite lookup_empty in Hm. discriminate Hm.
    + right. left. exists f, blob. rewrite <- Hperm. auto.
    + right. right. split; [exact Hd|]. split; [exact Hs|].
      exists f, rest. rewrite <- Hperm. auto.
  - intros Hdesc Hfree.
    assert (Hkeep : forall fs acc0 data,
              (forall f, f ∈ fs -> succeeded P f = true ->
                         entryName f <> "requirements.txt") ->
              fst acc0 !! "requirements.txt" = Some data ->
              fst (fold_left (exportOne P) fs acc0) !! "requirements.txt"
              = Some data).
    { induction fs as [|g fs IH]; intros acc0 data Hfs Hacc; [exact Hacc|].
      cbn [fold_left]. apply IH.
      - intros f Hf. apply Hfs. right. exact Hf.
      - rewrite exportOne_entries.
        destruct (processImageForExport P g) as [blob|err] eqn:Hg;
          [|exact Hacc].
        apply fileAdd_keeps; [|exact Hacc].
        intros Hname. symmetry in Hname. revert Hname.
        apply Hfs; [left|]. unfold succeeded. rewrite Hg. reflexivity. }
    unfold acc. apply Hkeep.
    + intros f Hf. apply Hfree. rewrite <- Hperm. exact Hf.
    + cbn [fst]. unfold manifest.
      apply String.eqb_neq in Hdesc. rewrite Hdesc. apply lookup_insert_eq.
Qed.

Lemma archive_holds_only_outputs_witness :
  (2 <= length (files folderProject))%nat /\
  id (files folderProject) ≡ₚ files folderProject /\
  exists folder,
    batch_folder (handleBatchExport flakyPlatform id folderProject)
    = Some folder /\
    folder !! "drawings/plan.png" = Some (ZipBlob []) /\
    folder !! "drawings/" = Some ZipDir /\
    folder !! "requirements.txt" = Some (ZipText "remove the title block").
Proof.
  assert (Hlen : (2 <= length (files folderProject))%nat) by (simpl; lia).
  assert (Hperm : id (files folderProject) ≡ₚ files folderProject)
    by reflexivity.
  split; [exact Hlen|]. split; [exact Hperm|].
  destruct (archive_holds_only_outputs flakyPlatform id folderProject
              Hlen Hperm) as (folder & Hfolder & _ & Hreq).
  exists folder. split; [exact Hfolder|].
  assert (Hall : batch_folder (handleBatchExport flakyPlatform id folderProject)
                 = Some (fileAdd "bom.csv" (ZipBlob [Byte.x01])
                           (fileAdd "drawings/plan.png" (ZipBlob [])
                              (manifest folderProject))))
    by (vm_compute; reflexivity).
  assert (Heq : folder = fileAdd "bom.csv" (ZipBlob [Byte.x01])
                           (fileAdd "drawings/plan.png" (ZipBlob [])
                              (manifest folderProject)))
    by congruence.
  split; [rewrite Heq; vm_compute; reflexivity|].
  split; [rewrite Heq; vm_compute; reflexivity|].
  apply Hreq; [discriminate|].
  intros f Hf _. simpl in Hf.
  repeat (apply elem_of_cons in Hf as [->|Hf]; [discriminate|]).
  inversion Hf.
Defined.



(** X18. Exporting changes nothing in the project: whichever path the batch
    export takes, the files, with their masks, the description and the
    current file are as before, and only the export of a lone image moves
    the export trigger; for a project without files nothing at all happens:
    no archive, no download request, no log line. *)
Theorem export_keeps_project (P : Platform)
    (settle : list ProjectFile -> list ProjectFile) (s : App) :
  let r := handleBatchExport P settle s in
  files (batch_app r) = files s /\
  projectDesc (batch_app r) = projectDesc s /\
  currentFileIndex (batch_app r) = currentFileIndex s /\
  (exportTrigger (batch_app r) = exportTrigger s \/
   (exists f, files s = [f] /\ file_type f = image_file) /\
   batch_folder r = None) /\
  (files s = [] -> r = mkBatch s None [] None).
Proof.
  cbv zeta. unfold handleBatchExport.
  destruct (files s) as [|f [|g fs]] eqn:Hfs.
  - cbn. rewrite Hfs. repeat split; auto.
  - cbn [length Nat.eqb lookup list_lookup andb].
    destruct (bool_decide (file_type f = image_file)) eqn:Hty.
    + apply bool_decide_eq_true in Hty. cbn. rewrite Hfs.
      repeat split; try discriminate. right. eauto.
    + destruct (fold_left _ _ _) as [folder console].
      destruct (generateAsync P folder); cbn; rewrite Hfs;
        repeat split; auto; discriminate.
  - cbn [length Nat.eqb andb].
    destruct (fold_left _ _ _) as [folder console].
    destruct (generateAsync P folder); cbn; rewrite Hfs;
      repeat split; auto; discriminate.
Qed.

Lemma export_keeps_project_witness :
  let s := mkApp "remove the title block" [] 0 0 in
  handleBatchExport samplePlatform (fun fs => fs) s = mkBatch s None [] None.
Proof.
  exact (proj2 (proj2 (proj2 (proj2
           (export_keeps_project samplePlatform (fun fs => fs)
              (mkApp "remove the title block" [] 0 0))))) eq_refl).
Defined.

(** ** Loading a project *)

Lemma contains_app c a b :
  contains c (a +:+ b) = contains c a || contains c b.
Proof.
  induction a as [|x a IH]; [reflexivity|].
  change (Ascii.eqb x c || contains c (a +:+ b)
          = Ascii.eqb x c || contains c a || contains c b).
  rewrite IH, orb_assoc. reflexivity.
Qed.

(** Without the separator there is one part, the string itself. *)
Lemma splitOn_whole sep s : contains sep s = false -> splitOn sep s = [s].
Proof.
  induction s as [|c s IH]; simpl; [reflexivity|].
  intros H. apply orb_false_elim in H as [Hc Hs].
  rewrite Hc, (IH Hs). reflexivity.
Qed.

(** The parts of a string are its parts before a separator, then the parts
    after it. *)
Lemma splitOn_app sep a b :
  contains sep a = false ->
  splitOn sep (a +:+ String sep b) = a :: splitOn sep b.
Proof.
  induction a as [|c a IH]; intros H.
  - change (splitOn sep (String sep b) = "" :: splitOn sep b).
    simpl. rewrite Ascii.eqb_refl. reflexivity.
  - simpl in H. apply orb_false_elim in H as [Hc Ha].
    change (splitOn sep (String c (a +:+ String sep b))
            = String c a :: splitOn sep b).
    simpl. rewrite Hc, (IH Ha). reflexivity.
Qed.

(** What follows the last separator is the last part. *)
Lemma splitOn_last sep ext : forall stem,
  contains sep ext = false ->
  exists first middle,
    splitOn sep (stem +:+ String sep ext) = first :: middle ++ [ext].
Proof.
  intros stem Hext. induction stem as [|c stem (first & middle & IH)].
  - exists "", []. change (splitOn sep (String sep ext) = [""; ext]).
    simpl. rewrite Ascii.eqb_refl, (splitOn_whole _ _ Hext). reflexivity.
  - change (String c stem +:+ String sep ext)
      with (String c (stem +:+ String sep ext)).
    simpl. rewrite IH. destruct (Ascii.eqb c sep).
    + exists "", (first :: middle). reflexivity.
    + exists (String c first), middle. reflexivity.
Qed.

Lemma last_splitOn sep stem ext :
  contains sep ext = false ->
  last (splitOn sep (stem +:+ String sep ext)) = Some ext.
Proof.
  intros Hext. destruct (splitOn_last sep ext stem Hext) as (f & m & ->).
  rewrite app_comm_cons, last_snoc. reflexivity.
Qed.

Lemma lowerAscii_idemp c : lowerAscii (lowerAscii c) = lowerAscii c.
Proof. destruct c as [[] [] [] [] [] [] [] []]; reflexivity. Qed.

Lemma lowerAscii_dot c :
  Ascii.eqb (lowerAscii c) "." = Ascii.eqb c ".".
Proof. destruct c as [[] [] [] [] [] [] [] []]; reflexivity. Qed.

Lemma toLowerCase_idemp s : toLowerCase (toLowerCase s) = toLowerCase s.
Proof.
  induction s as [|c s IH]; simpl; [reflexivity|].
  rewrite lowerAscii_idemp, IH. reflexivity.
Qed.

Lemma toLowerCase_dot s :
  contains "." (toLowerCase s) = contains "." s.
Proof.
  induction s as [|c s IH]; simpl; [reflexivity|].
  rewrite lowerAscii_dot, IH. reflexivity.
Qed.

Lemma extensionOf_whole ext :
  contains "." ext = false -> extensionOf ext = Some (toLowerCase ext).
Proof.
  intros H. unfold extensionOf. rewrite (splitOn_whole _ _ H). reflexivity.
Qed.

Lemma extensionOf_app stem ext :
  contains "." ext = false ->
  extensionOf (stem +:+ "." +:+ ext) = Some (toLowerCase ext).
Proof.
  intros H. unfold extensionOf.
  change ("." +:+ ext) with (String "." ext).
  rewrite (last_splitOn _ _ _ H). reflexivity.
Qed.

(** The type of a file is a function of its extension. *)
Lemma getFileType_extension a b :
  extensionOf a = extensionOf b -> getFileType a = getFileType b.
Proof. intros H. unfold getFileType. rewrite H. reflexivity. Qed.

Lemma file_type_from_last_extension_aux (stem ext : string) :
  contains "." ext = false ->
  getFileType (stem +:+ "." +:+ ext) = getFileType ext
  /\ getFileType (toLowerCase ext) = getFileType ext.
Proof.
  intros H. split; apply getFileType_extension.
  - rewrite extensionOf_app, extensionOf_whole by exact H. reflexivity.
  - rewrite !extensionOf_whole, ?toLowerCase_idemp;
      rewrite ?toLowerCase_dot; auto.
Qed.

(** X19. [getFileType] looks at nothing but the text after the last dot of
    the name, whatever its case: a name with the stem removed, or written
    in lower case, has the same type.  So a file named [png], with no dot
    at all, counts as an image. *)
Theorem file_type_from_last_extension (stem ext : string) :
  contains "." ext = false ->
  getFileType (stem +:+ "." +:+ ext) = getFileType ext
  /\ getFileType (toLowerCase ext) = getFileType ext.
Proof. exact (file_type_from_last_extension_aux stem ext). Qed.

Lemma file_type_from_last_extension_witness :
  contains "." "PNG" = false
  /\ getFileType ("site.plan.v2" +:+ "." +:+ "PNG") = getFileType "PNG"
  /\ getFileType (toLowerCase "PNG") = getFileType "PNG".
Proof.
  split; [reflexivity|].
  apply (file_type_from_last_extension "site.plan.v2" "PNG"). reflexivity.
Defined.

Lemma eqb_eq_string (a b : string) : String.eqb a b = true <-> a = b.
Proof. apply String.eqb_eq. Qed.

(** [endsWith] finds a suffix. *)
Lemma endsWith_suffix s suffix :
  endsWith s suffix = true <-> exists stem, s = stem +:+ suffix.
Proof.
  split.
  - induction s as [|c s IH]; cbn [endsWith].
    + rewrite orb_false_r. intros H%eqb_eq_string. exists "". rewrite <- H.
      reflexivity.
    + intros H. apply orb_prop in H as [H%eqb_eq_string | H].
      * exists "". rewrite <- H. reflexivity.
      * destruct (IH H) as [stem ->]. exists (String c stem). reflexivity.
  - intros [stem ->]. induction stem as [|c stem IH].
    + change ("" +:+ suffix) with suffix.
      destruct suffix; cbn [endsWith]; rewrite String.eqb_refl; reflexivity.
    + change (endsWith (String c (stem +:+ suffix)) suffix = true).
      cbn [endsWith]. rewrite IH. apply orb_true_r.
Qed.

(** A name ends in [.zip] only if the text after its last dot is [zip]. *)
Lemma endsWith_zip stem ext :
  contains "." ext = false ->
  endsWith (stem +:+ "." +:+ ext) ".zip" = true -> ext = "zip".
Proof.
  intros Hext [stem' H]%endsWith_suffix.
  assert (E : last (splitOn "." (stem +:+ String "." ext))
              = last (splitOn "." (stem' +:+ String "." "zip"))).
  { change (String "." ext) with ("." +:+ ext).
    change (String "." "zip") with ".zip". rewrite H. reflexivity. }
  rewrite !last_splitOn in E by (exact Hext || reflexivity).
  congruence.
Qed.

(** Files of a type [processFile] does not know give nothing, and nothing
    is read for them. *)
Lemma processFile_unknown L file :
  getFileType (upload_name file) = upload_unknown ->
  processFile L file = Resolved [].
Proof. intros H. unfold processFile. rewrite H. reflexivity. Qed.

(** X20. A file is opened as an archive only when its name ends in [.zip]
    in lower case.  With any other extension that is none of the ten the
    loader knows ([.ZIP], [.Zip] and [.rar] among them), the upload ends in
    the alert that no supported file was found, whatever the file holds. *)
Theorem only_lower_case_zip_is_opened (L : Loader) (description : string)
    (stem ext : string) (bytes : Blob) :
  contains "." ext = false ->
  ext <> "zip" ->
  getFileType ext = upload_unknown ->
  handleFileEntry L description (mkUpload (stem +:+ "." +:+ ext) bytes)
  = NoSupportedFile.
Proof.
  intros Hdot Hzip Htype. unfold handleFileEntry. cbn [upload_name].
  destruct (endsWith (stem +:+ "." +:+ ext) ".zip") eqn:E.
  - exfalso. apply Hzip. exact (endsWith_zip _ _ Hdot E).
  - rewrite processFile_unknown; [reflexivity|].
    cbn [upload_name].
    rewrite (proj1 (file_type_from_last_extension_aux stem ext Hdot)).
    exact Htype.
Qed.

Lemma only_lower_case_zip_is_opened_witness :
  handleFileEntry sampleLoader "remove the title block"
    (mkUpload ("drawings" +:+ "." +:+ "ZIP") [Byte.x50; Byte.x4b])
  = NoSupportedFile.
Proof.
  apply (only_lower_case_zip_is_opened sampleLoader _ "drawings" "ZIP").
  - reflexivity.
  - discriminate.
  - reflexivity.
Defined.

Lemma pdfPages_as_loaded L pdfName pages : forall i,
  Forall as_loaded (pdfPages L pdfName i pages).
Proof.
  induction pages as [|[now [blob|]] pages IH]; intros i; simpl; auto.
  constructor; [|apply IH]. repeat split.
Qed.

Lemma processFile_as_loaded L file fs :
  processFile L file = Resolved fs -> Forall as_loaded fs.
Proof.
  unfold processFile.
  destruct (getFileType (upload_name file)).
  - intros [= <-]. repeat constructor.
  - intros [= <-]. repeat constructor.
  - destruct (readWorkbook L (upload_bytes file)); [|discriminate].
    intros [= <-]. repeat constructor.
  - destruct (negb (pdfjsLoaded L)); [discriminate|].
    destruct (renderPdf L (upload_bytes file)); [|discriminate].
    intros [= <-]. apply pdfPages_as_loaded.
  - intros [= <-]. constructor.
Qed.

Lemma processEntries_as_loaded L entries : forall acc fs,
  Forall as_loaded acc ->
  processEntries L entries acc = Resolved fs -> Forall as_loaded fs.
Proof.
  induction entries as [|m entries IH]; intros acc fs Hacc; simpl.
  - intros [= <-]. exact Hacc.
  - destruct (member_blob m) as [blob|]; [|discriminate].
    destruct (processFile L (mkUpload (member_name m) blob)) as [results|] eqn:E;
      [|discriminate].
    apply IH. apply Forall_app. split; [exact Hacc|].
    exact (processFile_as_loaded _ _ _ E).
Qed.

(** X21. When an upload starts a project, the project is not empty, the
    description is the one entered, the first file is the current one, and
    every file, whether it came from an image, a table, a model, the pages
    of a PDF or the members of an archive, has no mask, no audit result
    and the status pending. *)
Theorem started_project_is_as_loaded (L : Loader) (description : string)
    (file : File) (description' : string) (loaded : list ProjectFile)
    (s : App) :
  handleFileEntry L description file = ProjectStart description' loaded ->
  let s' := handleProjectStart description' loaded s in
  projectDesc s' = description
  /\ (exists first, files s' !! currentFileIndex s' = Some first)
  /\ Forall as_loaded (files s').
Proof.
  unfold handleFileEntry, handleProjectStart. cbn [projectDesc files currentFileIndex].
  intros H.
  assert (Hloaded : forall processed : Settled (list ProjectFile),
    (forall fs, processed = Resolved fs -> Forall as_loaded fs) ->
    match processed with
    | Rejected message => LoadFailed message
    | Resolved processedFiles =>
        if (length processedFiles =? 0)%nat then NoSupportedFile
        else ProjectStart description processedFiles
    end = ProjectStart description' loaded ->
    description' = description
    /\ (exists first, loaded !! 0%nat = Some first)
    /\ Forall as_loaded loaded).
  { intros [fs|] Hfs; [|discriminate].
    destruct fs as [|f fs]; [discriminate|]. cbn.
    intros [= <- <-]. split; [reflexivity|]. split; [eauto|].
    apply Hfs. reflexivity. }
  apply (Hloaded _) in H; [exact H|].
  intros fs. destruct (endsWith (upload_name file) ".zip").
  - destruct (unzip L (upload_bytes file)) as [members|]; [|discriminate].
    apply processEntries_as_loaded. constructor.
  - apply processFile_as_loaded.
Qed.

Lemma started_project_is_as_loaded_witness :
  let loaded :=
    [mkFile "img-1700000000000-0.5" "drawings/plan.PNG" [Byte.x01]
            "blob:drawings/plan.PNG" image_file [] None pending;
     mkFile "table-1700000000000-0.5" "bom.csv" [Byte.x03] "" table_file
            [] None pending] in
  let s' := handleProjectStart "remove the title block" loaded oneImage in
  projectDesc s' = "remove the title block"
  /\ (exists first, files s' !! currentFileIndex s' = Some first)
  /\ Forall as_loaded (files s').
Proof.
  apply (started_project_is_as_loaded sampleLoader "remove the title block"
           (mkUpload "drawings.zip" [Byte.x50; Byte.x4b])).
  vm_compute. reflexivity.
Defined.

(** *** The pages of a PDF *)

Lemma append_inj_l (a b c : string) : a +:+ b = a +:+ c -> b = c.
Proof.
  induction a as [|x a IH]; intros H; [exact H|].
  change (String x (a +:+ b) = String x (a +:+ c)) in H.
  injection H as H. exact (IH H).
Qed.

Lemma page_name_inj pdfName (i j : N) :
  pdfName +:+ " [P" +:+ pretty i +:+ "]" = pdfName +:+ " [P" +:+ pretty j +:+ "]" ->
  i = j.
Proof.
  intros H%append_inj_l%(append_inj_l " [P")%append_inj_r.
  exact (inj pretty _ _ H).
Qed.

Lemma page_id_inj (i j now now' : N) :
  "pdf-page-" +:+ pretty i +:+ "-" +:+ pretty now
  = "pdf-page-" +:+ pretty j +:+ "-" +:+ pretty now' -> i = j.
Proof.
  intros H%(append_inj_l "pdf-page-").
  apply digits_dash_inj in H as [H _]; try apply pretty_N_digits.
  exact (inj pretty _ _ H).
Qed.

(** The files of the pages from [i] on carry a page number from [i] on. *)
Lemma pdfPages_numbered L pdfName pages : forall i f,
  f ∈ pdfPages L pdfName i pages ->
  exists (j now : N),
    (i <= j)%N
    /\ file_name f = pdfName +:+ " [P" +:+ pretty j +:+ "]"
    /\ file_id f = "pdf-page-" +:+ pretty j +:+ "-" +:+ pretty now
    /\ file_type f = image_file.
Proof.
  induction pages as [|[now [blob|]] pages IH]; intros i f; simpl.
  - intros H. inversion H.
  - intros [-> | H]%elem_of_cons.
    + exists i, now. repeat split. lia.
    + destruct (IH _ _ H) as (j & now' & Hj & Hrest).
      exists j, now'. split; [lia | exact Hrest].
  - intros H. destruct (IH _ _ H) as (j & now' & Hj & Hrest).
    exists j, now'. split; [lia | exact Hrest].
Qed.

Lemma pdfPages_distinct L pdfName pages : forall i,
  NoDup (file_name <$> pdfPages L pdfName i pages)
  /\ NoDup (file_id <$> pdfPages L pdfName i pages).
Proof.
  induction pages as [|[now [blob|]] pages IH]; intros i; simpl.
  - split; constructor.
  - destruct (IH (i + 1)%N) as [IHn IHi].
    split; constructor; try assumption.
    + intros (f & Hname & Hf)%list_elem_of_fmap_1.
      destruct (pdfPages_numbered _ _ _ _ _ Hf) as (j & now' & Hj & Hn & _).
      cbn in Hname. rewrite Hn in Hname. apply page_name_inj in Hname. lia.
    + intros (f & Hid & Hf)%list_elem_of_fmap_1.
      destruct (pdfPages_numbered _ _ _ _ _ Hf) as (j & now' & Hj & _ & Hi & _).
      cbn in Hid. rewrite Hi in Hid. apply page_id_inj in Hid. lia.
  - apply IH.
Qed.

(** X22. The files [processFile] makes of a PDF are images with pairwise
    different names and pairwise different ids, whatever the clock read
    for them: both carry the number of the page. *)
Theorem pdf_pages_are_distinct_images (L : Loader) (file : File)
    (fs : list ProjectFile) :
  getFileType (upload_name file) = upload_pdf ->
  processFile L file = Resolved fs ->
  NoDup (file_name <$> fs)
  /\ NoDup (file_id <$> fs)
  /\ Forall (fun f => file_type f = image_file) fs.
Proof.
  intros Htype. unfold processFile. rewrite Htype.
  destruct (negb (pdfjsLoaded L)); [discriminate|].
  destruct (renderPdf L (upload_bytes file)) as [pages|]; [|discriminate].
  intros [= <-].
  destruct (pdfPages_distinct L (upload_name file) pages 1) as [Hn Hi].
  repeat split; try assumption.
  apply Forall_forall. intros f Hf.
  destruct (pdfPages_numbered _ _ _ _ _ Hf) as (j & now & _ & _ & _ & Ht).
  exact Ht.
Qed.

Lemma pdf_pages_are_distinct_images_witness :
  let fs :=
    [pdfPageFile "drawing.pdf" 1 1700000000001 [Byte.x01]
                 "blob:drawing.pdf_Page_1.png";
     pdfPageFile "drawing.pdf" 3 1700000000003 [Byte.x03]
                 "blob:drawing.pdf_Page_3.png"] in
  NoDup (file_name <$> fs)
  /\ NoDup (file_id <$> fs)
  /\ Forall (fun f => file_type f = image_file) fs.
Proof.
  apply (pdf_pages_are_distinct_images sampleLoader
           (mkUpload "drawing.pdf" [Byte.x25])).
  - reflexivity.
  - vm_compute. reflexivity.
Defined.

(** *** Archives *)

Lemma processEntries_fails L m entries : forall acc,
  m ∈ entries -> member_fails L m ->
  exists reason, processEntries L entries acc = Rejected reason.
Proof.
  induction entries as [|e entries IH]; intros acc Hin Hfail.
  - inversion Hin.
  - simpl. apply elem_of_cons in Hin as [<- | Hin].
    + unfold member_fails in Hfail.
      destruct (member_blob m) as [blob|reason]; [|eauto].
      destruct Hfail as [reason ->]. eauto.
    + destruct (member_blob e) as [blob|reason]; [|eauto].
      destruct (processFile L (mkUpload (member_name e) blob)); [|eauto].
      apply IH; assumption.
Qed.

(** X23. An archive is loaded as a whole or not at all: when one member
    that is neither a folder nor under [__MACOSX] cannot be read, or
    [processFile] throws on it (a table that does not parse, a PDF that
    does not render), the upload ends in the failure alert and no project
    is started, whatever the other members are. *)
Theorem archive_is_all_or_nothing (L : Loader) (description : string)
    (file : File) (members : list ZipMember) (m : ZipMember) :
  endsWith (upload_name file) ".zip" = true ->
  unzip L (upload_bytes file) = Resolved members ->
  m ∈ members -> keptMember m = true -> member_fails L m ->
  exists message, handleFileEntry L description file = LoadFailed message.
Proof.
  intros Hzip Hunzip Hin Hkept Hfail. unfold handleFileEntry.
  rewrite Hzip, Hunzip.
  assert (Hm : m ∈ List.filter keptMember members).
  { apply list_elem_of_In, filter_In. split; [apply list_elem_of_In|]; assumption. }
  destruct (processEntries_fails L m _ [] Hm Hfail) as [reason ->].
  eauto.
Qed.

Lemma archive_is_all_or_nothing_witness :
  exists message,
    handleFileEntry noPdfLoader "remove the title block"
      (mkUpload "drawings.zip" [Byte.x50; Byte.x4b])
    = LoadFailed message.
Proof.
  apply (archive_is_all_or_nothing noPdfLoader _ _
           [mkMember "plan.png" false (Resolved [Byte.x01]);
            mkMember "spec.pdf" false (Resolved [Byte.x02])]
           (mkMember "spec.pdf" false (Resolved [Byte.x02]))).
  - reflexivity.
  - reflexivity.
  - apply elem_of_cons. right. apply elem_of_cons. left. reflexivity.
  - reflexivity.
  - exists "PDF.js library not loaded correctly.". reflexivity.
Defined.

(** ** Audits *)

(** The answer of [auditBlueprint] is never the empty text and needs the
    key. *)
Lemma auditBlueprint_text A base64Image requirements text :
  auditBlueprint A base64Image requirements = Resolved text ->
  text <> "" /\ audit_api_key A = true.
Proof.
  unfold auditBlueprint. destruct (audit_api_key A); [|discriminate]. simpl.
  destruct (generateContent A _ _) as [t|]; [|discriminate].
  destruct (String.eqb t "") eqn:E; intros [= <-]; split; try reflexivity.
  - discriminate.
  - intros ->. discriminate E.
Qed.

(** What [performAuditOnIndex] does to a list that has, at the index, the
    file it has read. *)
Lemma performAuditOnIndex_at A fs projectDesc index f pre rest :
  fs !! index = Some f -> length pre = index ->
  match performAuditOnIndex A fs projectDesc index with
  | Resolved update => update (pre ++ f :: rest)
  | Rejected _ => pre ++ f :: rest
  end = pre ++ audited A projectDesc f :: rest.
Proof.
  intros Hf <-. unfold performAuditOnIndex, audited. rewrite Hf.
  destruct (decide (file_type f = image_file)); [|reflexivity].
  destruct (fetchDataURL A (file_url f)) as [data|]; [|reflexivity].
  destruct (auditBlueprint A data projectDesc) as [result|]; [|reflexivity].
  unfold setAuditResult.
  rewrite <- (Nat.add_0_r (length pre)), alter_app_r. reflexivity.
Qed.

Lemma auditItem_fields A s0 s item :
  projectDesc (auditItem A s0 s item) = projectDesc s
  /\ exportTrigger (auditItem A s0 s item) = exportTrigger s
  /\ currentFileIndex (auditItem A s0 s item) = fst item.
Proof.
  unfold auditItem.
  destruct (performAuditOnIndex A (files s0) (projectDesc s0) (fst item));
    repeat split.
Qed.

Lemma audited_not_image A projectDesc f :
  file_type f <> image_file -> audited A projectDesc f = f.
Proof.
  intros H. unfold audited.
  destruct (decide (file_type f = image_file)); [contradiction | reflexivity].
Qed.

(** The loop of [handleBatchAudit] over the files from a position on. *)
Lemma batch_loop A s0 : forall rest pre pre' s,
  files s0 = pre ++ rest -> length pre' = length pre ->
  files s = pre' ++ rest ->
  files (fold_left (auditItem A s0)
           (List.filter
              (fun item => bool_decide (file_type (snd item) = image_file))
              (indexed (length pre) rest)) s)
  = pre' ++ (audited A (projectDesc s0) <$> rest).
Proof.
  induction rest as [|f rest IH]; intros pre pre' s H0 Hlen Hs.
  - simpl. exact Hs.
  - assert (Hf : files s0 !! length pre = Some f).
    { rewrite H0. apply list_lookup_middle. reflexivity. }
    cbn [indexed List.filter snd].
    replace (S (length pre)) with (length (pre ++ [f]))
      by (rewrite length_app; simpl; lia).
    change (audited A (projectDesc s0) <$> f :: rest)
      with (audited A (projectDesc s0) f
            :: (audited A (projectDesc s0) <$> rest)).
    rewrite (cons_middle _ pre').
    case_bool_decide as Himg.
    + cbn [fold_left]. rewrite app_assoc. apply IH.
      * rewrite <- app_assoc. exact H0.
      * rewrite !length_app, Hlen. reflexivity.
      * rewrite <- app_assoc. cbn [app].
        unfold auditItem. cbn [fst].
        pose proof (performAuditOnIndex_at A (files s0) (projectDesc s0)
                      (length pre) f pre' rest Hf Hlen) as Hat.
        destruct (performAuditOnIndex A (files s0) (projectDesc s0)
                    (length pre)) as [update|];
          cbn [setFiles setCurrentFileIndex files]; rewrite Hs; exact Hat.
    + rewrite (audited_not_image _ _ _ Himg), app_assoc. apply IH.
      * rewrite <- app_assoc. exact H0.
      * rewrite !length_app, Hlen. reflexivity.
      * rewrite <- app_assoc. exact Hs.
Qed.

Lemma handleBatchAudit_fold A s :
  audit_api_key A = true ->
  handleBatchAudit A s = fold_left (auditItem A s) (imageFiles (files s)) s.
Proof.
  intros Hkey. unfold handleBatchAudit. rewrite Hkey. cbn [negb].
  destruct (imageFiles (files s)); reflexivity.
Qed.

Lemma handleBatchAudit_files A s :
  files (handleBatchAudit A s)
  = if audit_api_key A then audited A (projectDesc s) <$> files s
    else files s.
Proof.
  destruct (audit_api_key A) eqn:Hkey.
  - rewrite (handleBatchAudit_fold _ _ Hkey).
    exact (batch_loop A s (files s) [] [] s eq_refl eq_refl eq_refl).
  - unfold handleBatchAudit. rewrite Hkey. reflexivity.
Qed.

Lemma handleAudit_files A s :
  files (handleAudit A s)
  = if audit_api_key A
    then alter (audited A (projectDesc s)) (currentFileIndex s) (files s)
    else files s.
Proof.
  unfold handleAudit. destruct s as [desc fs i trigger].
  cbn [files currentFileIndex projectDesc].
  destruct (length fs =? 0)%nat eqn:Hlen.
  { apply Nat.eqb_eq in Hlen. destruct fs; [|discriminate].
    destruct (audit_api_key A); reflexivity. }
  destruct (fs !! i) as [f|] eqn:Hf.
  - apply list_elem_of_split_length in Hf as (pre & rest & Hsplit & Hpre).
    assert (Hf : fs !! i = Some f).
    { rewrite Hsplit. apply list_lookup_middle. exact Hpre. }
    assert (Halter : alter (audited A desc) i fs
                     = pre ++ audited A desc f :: rest).
    { rewrite Hsplit, Hpre.
      rewrite <- (Nat.add_0_r (length pre)), alter_app_r. reflexivity. }
    destruct (decide (file_type f = image_file)) as [Himg|Himg].
    + destruct (audit_api_key A); [|reflexivity]. cbn [negb].
      rewrite Halter.
      pose proof (performAuditOnIndex_at A fs desc i f pre rest Hf
                    (eq_sym Hpre)) as Hat.
      destruct (performAuditOnIndex A fs desc i) as [update|];
        cbn [setFiles files]; rewrite <- Hat; rewrite <- Hsplit; reflexivity.
    + destruct (audit_api_key A); [|reflexivity].
      rewrite Halter, (audited_not_image _ _ _ Himg). exact Hsplit.
  - destruct (audit_api_key A); [|reflexivity].
    cbn [files]. symmetry. apply list_eq. intros k.
    rewrite list_lookup_alter. case_decide as Hk; [|reflexivity].
    subst k. rewrite Hf. reflexivity.
Qed.

(** X24. A batch audit does to every file what an audit of that file
    alone does, whatever happens to the others: the files afterwards are
    the files before with, on each image whose read and whose request went
    through, the answer as audit result; a failure leaves its file as it
    was and stops nothing. *)
Theorem batch_audit_is_file_by_file (A : Auditor) (s : App) :
  files (handleBatchAudit A s)
  = if audit_api_key A then audited A (projectDesc s) <$> files s
    else files s.
Proof. exact (handleBatchAudit_files A s). Qed.

(** X25. The audit of the current file gives that file what the batch
    audit gives it, and leaves the other files as they are. *)
Theorem single_audit_is_batch_at_current (A : Auditor) (s : App) (i : nat) :
  files (handleAudit A s) !! i
  = if decide (i = currentFileIndex s)
    then files (handleBatchAudit A s) !! i
    else files s !! i.
Proof.
  rewrite handleAudit_files, handleBatchAudit_files.
  destruct (audit_api_key A).
  - rewrite list_lookup_alter, list_lookup_fmap.
    destruct (decide (currentFileIndex s = i)), (decide (i = currentFileIndex s));
      subst; try congruence; reflexivity.
  - destruct (decide (i = currentFileIndex s)); reflexivity.
Qed.

Lemma audited_rest A projectDesc f :
  with_auditResult None (audited A projectDesc f) = with_auditResult None f.
Proof.
  unfold audited.
  destruct (decide (file_type f = image_file)); [|reflexivity].
  destruct (fetchDataURL A (file_url f)) as [data|]; [|reflexivity].
  destruct (auditBlueprint A data projectDesc); reflexivity.
Qed.

Lemma audit_loop_fields A s0 items : forall s,
  projectDesc (fold_left (auditItem A s0) items s) = projectDesc s
  /\ exportTrigger (fold_left (auditItem A s0) items s) = exportTrigger s
  /\ currentFileIndex (fold_left (auditItem A s0) items s)
     = default (currentFileIndex s) (fst <$> last items).
Proof.
  induction items as [|item items IH]; intros s; [repeat split|].
  cbn [fold_left].
  destruct (IH (auditItem A s0 s item)) as (-> & -> & ->).
  destruct (auditItem_fields A s0 s item) as (-> & -> & ->).
  repeat split.
  destruct items as [|item' items]; [reflexivity|].
  rewrite last_cons_cons.
  destruct (last (item' :: items)) eqn:E; [reflexivity|].
  apply last_None in E. discriminate.
Qed.

Lemma handleAudit_fields A s :
  projectDesc (handleAudit A s) = projectDesc s
  /\ exportTrigger (handleAudit A s) = exportTrigger s
  /\ currentFileIndex (handleAudit A s) = currentFileIndex s.
Proof.
  unfold handleAudit.
  destruct (length (files s) =? 0)%nat; [repeat split|].
  destruct (files s !! currentFileIndex s) as [f|]; [|repeat split].
  destruct (decide (file_type f = image_file)); [|repeat split].
  destruct (negb (audit_api_key A)); [repeat split|].
  destruct (performAuditOnIndex A (files s) (projectDesc s) (currentFileIndex s));
    repeat split.
Qed.

Lemma handleBatchAudit_fields A s :
  projectDesc (handleBatchAudit A s) = projectDesc s
  /\ exportTrigger (handleBatchAudit A s) = exportTrigger s.
Proof.
  unfold handleBatchAudit.
  destruct (negb (audit_api_key A)); [repeat split|].
  destruct (length (imageFiles (files s)) =? 0)%nat; [repeat split|].
  destruct (audit_loop_fields A s (imageFiles (files s)) s) as (Hd & Ht & _).
  auto.
Qed.

Lemma fmap_alter_same {A B} (g : A -> B) (h : A -> A) i (l : list A) :
  (forall x, g (h x) = g x) -> g <$> alter h i l = g <$> l.
Proof.
  intros H. apply list_eq. intros k.
  rewrite !list_lookup_fmap, list_lookup_alter.
  case_decide; [subst|reflexivity].
  destruct (l !! k); simpl; [rewrite H|]; reflexivity.
Qed.

(** X26. An audit, of the current file or of all, changes nothing but
    audit results: every file keeps its id, name, blob, address, type,
    masks and status, the list its length and order, and the project its
    description and its export counter; the audit of the current file
    also keeps the selection. *)
Theorem audits_change_only_results (A : Auditor) (s : App) :
  (with_auditResult None <$> files (handleAudit A s)
   = with_auditResult None <$> files s
   /\ projectDesc (handleAudit A s) = projectDesc s
   /\ exportTrigger (handleAudit A s) = exportTrigger s
   /\ currentFileIndex (handleAudit A s) = currentFileIndex s)
  /\ (with_auditResult None <$> files (handleBatchAudit A s)
      = with_auditResult None <$> files s
      /\ projectDesc (handleBatchAudit A s) = projectDesc s
      /\ exportTrigger (handleBatchAudit A s) = exportTrigger s).
Proof.
  split.
  - split; [|apply handleAudit_fields].
    rewrite handleAudit_files. destruct (audit_api_key A); [|reflexivity].
    apply fmap_alter_same, audited_rest.
  - split; [|apply handleBatchAudit_fields].
    rewrite handleBatchAudit_files. destruct (audit_api_key A); [|reflexivity].
    rewrite <- list_fmap_compose. apply list_fmap_ext.
    intros k f _. apply audited_rest.
Qed.

Lemma audited_no_empty A projectDesc f :
  no_empty_audit f -> no_empty_audit (audited A projectDesc f).
Proof.
  unfold audited, no_empty_audit. intros Hf.
  destruct (decide (file_type f = image_file)); [|exact Hf].
  destruct (fetchDataURL A (file_url f)) as [data|]; [|exact Hf].
  destruct (auditBlueprint A data projectDesc) as [text|] eqn:E; [|exact Hf].
  apply auditBlueprint_text in E as [Htext _]. cbn. congruence.
Qed.

(** X27. No audit stores an empty text: when no file has the empty text
    as audit result (so in every project as loaded), none has after an
    audit of the current file or of all; an empty answer of the model is
    replaced by the notice to try again. *)
Theorem audits_store_no_empty_text (A : Auditor) (s : App) :
  Forall no_empty_audit (files s) ->
  Forall no_empty_audit (files (handleAudit A s))
  /\ Forall no_empty_audit (files (handleBatchAudit A s)).
Proof.
  intros H. rewrite handleAudit_files, handleBatchAudit_files.
  destruct (audit_api_key A); [|auto]. split.
  - apply Forall_alter; [exact H|]. intros f _. apply audited_no_empty.
  - apply Forall_fmap. apply (Forall_impl _ _ _ H).
    intros f. apply audited_no_empty.
Qed.

Lemma audits_store_no_empty_text_witness :
  Forall no_empty_audit (files (handleAudit sampleAuditor oneImage))
  /\ Forall no_empty_audit (files (handleBatchAudit sampleAuditor oneImage)).
Proof.
  apply (audits_store_no_empty_text sampleAuditor oneImage).
  repeat constructor. discriminate.
Defined.

(** The entries of [indexed] are the files at their indexes. *)
Lemma indexed_lookup l : forall n i f,
  (i, f) ∈ indexed n l -> (n <= i)%nat /\ l !! (i - n)%nat = Some f.
Proof.
  induction l as [|x l IH]; intros n i f H; [inversion H|].
  cbn [indexed] in H. apply elem_of_cons in H as [[= -> ->] | H].
  - split; [lia|]. rewrite Nat.sub_diag. reflexivity.
  - apply IH in H as [Hle Hl]. split; [lia|].
    replace (i - n)%nat with (S (i - S n)) by lia. exact Hl.
Qed.

Lemma imageFiles_lookup l i f :
  (i, f) ∈ imageFiles l -> l !! i = Some f /\ file_type f = image_file.
Proof.
  unfold imageFiles. intros H.
  apply list_elem_of_In, filter_In in H as [H Himg].
  apply list_elem_of_In, indexed_lookup in H as [_ H].
  rewrite Nat.sub_0_r in H. split; [exact H|].
  apply bool_decide_eq_true in Himg. exact Himg.
Qed.

(** X28. With the key set, a batch audit leaves the last image of the
    project selected, with the outcome of its audit; the file that was
    current before is no longer selected unless it is that image. *)
Theorem batch_audit_selects_last_image (A : Auditor) (s : App)
    (i : nat) (f : ProjectFile) :
  audit_api_key A = true ->
  last (imageFiles (files s)) = Some (i, f) ->
  currentFileIndex (handleBatchAudit A s) = i
  /\ files (handleBatchAudit A s) !! i = Some (audited A (projectDesc s) f)
  /\ file_type f = image_file.
Proof.
  intros Hkey Hlast.
  assert (Hin : (i, f) ∈ imageFiles (files s)).
  { apply last_Some in Hlast as [l' ->]. apply elem_of_app. right.
    apply elem_of_cons. left. reflexivity. }
  apply imageFiles_lookup in Hin as [Hf Himg].
  split; [|split; [|exact Himg]].
  - rewrite (handleBatchAudit_fold _ _ Hkey).
    destruct (audit_loop_fields A s (imageFiles (files s)) s) as (_ & _ & ->).
    rewrite Hlast. reflexivity.
  - rewrite handleBatchAudit_files, Hkey, list_lookup_fmap, Hf. reflexivity.
Qed.

Lemma batch_audit_selects_last_image_witness :
  currentFileIndex (handleBatchAudit sampleAuditor mixedProject) = 1%nat
  /\ files (handleBatchAudit sampleAuditor mixedProject) !! 1%nat
     = Some (audited sampleAuditor (projectDesc mixedProject) brokenFile)
  /\ file_type brokenFile = image_file.
Proof.
  apply (batch_audit_selects_last_image sampleAuditor mixedProject 1 brokenFile);
    reflexivity.
Defined.

(** *** The image data sent to the model *)

Lemma splitOn_parts sep s :
  Forall (fun part => contains sep part = false) (splitOn sep s).
Proof.
  induction s as [|c s IH]; simpl; [repeat constructor|].
  destruct (Ascii.eqb c sep) eqn:E; [constructor; [reflexivity | exact IH]|].
  destruct (splitOn sep s) as [|seg segs]; [repeat constructor; simpl; rewrite E; reflexivity|].
  inversion IH as [|? ? Hseg Hsegs]; subst.
  constructor; [|exact Hsegs]. simpl. rewrite E, Hseg. reflexivity.
Qed.

Lemma cleanBase64_no_comma s : contains "," (cleanBase64 s) = false.
Proof.
  unfold cleanBase64. destruct (contains "," s) eqn:E; [|exact E].
  destruct (splitOn "," s !! 1%nat) as [part|] eqn:Hpart; [|reflexivity].
  pose proof (splitOn_parts "," s) as H.
  rewrite Forall_lookup in H. exact (H _ _ Hpart).
Qed.

(** X29. From a data URL, a header and a payload joined by the first
    comma, [cleanBase64] sends the payload, whatever the MIME type in the
    header is; a string without a comma is sent as it is. *)
Theorem cleanBase64_gives_payload (header payload : string) :
  contains "," header = false ->
  contains "," payload = false ->
  cleanBase64 (header +:+ "," +:+ payload) = payload
  /\ cleanBase64 payload = payload.
Proof.
  intros Hh Hp. unfold cleanBase64. split.
  - rewrite contains_app, Hh.
    change ("," +:+ payload) with (String "," payload).
    cbn [contains orb]. rewrite Ascii.eqb_refl. cbn [orb].
    rewrite (splitOn_app _ _ _ Hh), (splitOn_whole _ _ Hp). reflexivity.
  - rewrite Hp. reflexivity.
Qed.

Lemma cleanBase64_gives_payload_witness :
  cleanBase64 ("data:image/jpeg;base64" +:+ "," +:+ "iVBORw0KGgo=")
  = "iVBORw0KGgo="
  /\ cleanBase64 "iVBORw0KGgo=" = "iVBORw0KGgo=".
Proof.
  apply (cleanBase64_gives_payload "data:image/jpeg;base64" "iVBORw0KGgo=");
    reflexivity.
Defined.

(** X30. What [cleanBase64] sends never holds a comma, so cleaning twice
    is cleaning once. *)
Theorem cleanBase64_idempotent (s : string) :
  contains "," (cleanBase64 s) = false
  /\ cleanBase64 (cleanBase64 s) = cleanBase64 s.
Proof.
  split; [apply cleanBase64_no_comma|].
  unfold cleanBase64 at 1. rewrite cleanBase64_no_comma. reflexivity.
Qed.
